(** * Timetable generator: placement engine and conflict detector

    Shallow embedding of [TimetableGenerator] from [src/app.py]
    ([generate], its nested helpers, [is_teacher_available] and
    [detect_conflicts]) together with the properties stated about them.

    Conventions of the embedding:
    - a Python [str] is the list of its code points ([list N]);
    - a JSON/dict field that may be missing or [null] is a [field];
    - a Python [dict] that is only looked up is a [gmap]; a [dict] whose
      iteration order is observed is an association list ([odict]);
    - an operation that can raise ([d[k]], [l.index(x)], [l[0]]) returns
      [option], [None] standing for the raised exception. *)

From Stdlib Require Import String Ascii Sorted.
From stdpp Require Import gmap list.

Local Open Scope Z_scope.
#[local] Set Warnings "-clear-no-such-hyp".

(** ** Python values *)

Abbreviation str := (list N).
(** A value that is either [None] or a string. *)
Abbreviation pyval := (option (list N)).

Fixpoint str_of_string (s : string) : str :=
  match s with
  | EmptyString => []
  | String a s' => N_of_ascii a :: str_of_string s'
  end.

Inductive field (A : Type) : Type :=
| Absent
| Null
| Val (a : A).
Arguments Absent {A}.
Arguments Null {A}.
Arguments Val {A} a.

#[global] Instance field_eq_dec {A} `{EqDecision A} : EqDecision (field A) :=
  ltac:(solve_decision).

(** [d[k]]: raises [KeyError] when the key is missing. *)
Definition getitem (f : field str) : option pyval :=
  match f with
  | Absent => None
  | Null => Some None
  | Val s => Some (Some s)
  end.

(** [d.get(k, dflt)] *)
Definition get_default (f : field str) (dflt : pyval) : pyval :=
  match f with
  | Absent => dflt
  | Null => None
  | Val s => Some s
  end.

(** [d.get(k) or []] *)
Definition get_list {A} (f : field (list A)) : list A :=
  match f with
  | Val l => l
  | _ => []
  end.

(** [str.isspace] on one code point (the set used by [strip] and [split]). *)
Definition is_space (c : N) : bool :=
  ((9 <=? c) && (c <=? 13) || (28 <=? c) && (c <=? 32)
   || (c =? 133) || (c =? 160) || (c =? 5760)
   || (8192 <=? c) && (c <=? 8202)
   || (c =? 8232) || (c =? 8233) || (c =? 8239) || (c =? 8287)
   || (c =? 12288))%N.

Fixpoint lstrip (s : str) : str :=
  match s with
  | [] => []
  | c :: s' => if is_space c then lstrip s' else s
  end.

(** [s.strip()] *)
Definition strip (s : str) : str := rev (lstrip (rev (lstrip s))).

(** [s.split()]: the maximal runs of non-space code points; [cur] is the
    run being read. *)
Fixpoint split_ws (s : str) (cur : option str) : list str :=
  match s with
  | [] => match cur with Some w => [w] | None => [] end
  | c :: s' =>
      if is_space c then
        match cur with
        | Some w => w :: split_ws s' None
        | None => split_ws s' None
        end
      else split_ws s' (Some (default [] cur ++ [c]))
  end.

(** [s.split(sep, 1)[0]] for a one-character separator. *)
Fixpoint split1_head (sep : N) (s : str) : str :=
  match s with
  | [] => []
  | c :: s' => if decide (c = sep) then [] else c :: split1_head sep s'
  end.

(** [sep in s] for a one-character separator. *)
Definition contains (sep : N) (s : str) : bool := bool_decide (sep ∈ s).

(** [l.index(x)]: first position, [ValueError] when missing. *)
Fixpoint index {A} `{EqDecision A} (x : A) (l : list A) : option nat :=
  match l with
  | [] => None
  | y :: l' => if decide (y = x) then Some 0%nat else S <$> index x l'
  end.

(** Lexicographic [<] on strings (code point order) *)
Fixpoint str_ltb (a b : str) : bool :=
  match a, b with
  | _, [] => false
  | [], _ :: _ => true
  | x :: a', y :: b' => (x <? y)%N || (x =? y)%N && str_ltb a' b'
  end.

(** Case folding restricted to ASCII, used to run the model on examples;
    the engine itself is parametric in [str.lower]. *)
Definition lower_ascii (s : str) : str :=
  map (λ c, if ((65 <=? c) && (c <=? 90))%N then (c + 32)%N else c) s.

(** ** Insertion-ordered dictionaries of lists *)

Abbreviation odict K A := (list (K * list A)).

(** [d.setdefault(k, []).append(x)] *)
Fixpoint setdefault_append {K A} `{EqDecision K}
    (k : K) (x : A) (d : odict K A) : odict K A :=
  match d with
  | [] => [(k, [x])]
  | (k', b) :: d' =>
      if decide (k' = k) then (k', b ++ [x]) :: d'
      else (k', b) :: setdefault_append k x d'
  end.

(** ** Stable sorting on a decorated list ([list.sort(key=...)]) *)

Section Sort.
Context {K A : Type} (ltb : K → K → bool).

Fixpoint insert_sorted (x : K * A) (l : list (K * A)) : list (K * A) :=
  match l with
  | [] => [x]
  | y :: l' => if ltb (fst y) (fst x) then y :: insert_sorted x l' else x :: l
  end.

Definition stable_sort (l : list (K * A)) : list (K * A) :=
  foldr insert_sorted [] l.
End Sort.

(** ** Data model *)

Record teacher := {
  t_name : str;
  t_subjects : field (list pyval);
  t_availability : field (gmap str (list str))
}.

Record subject := {
  s_name : str;
  s_semester : field str;
  s_departments : field (list str);
  s_sessions_per_week : field Z
}.

Record entry := {
  e_day : field str;
  e_time_slot : field str;
  e_subject : field str;
  e_teacher : field str;
  e_semester : field str;
  e_classrooms : field (list str);
  e_department_codes : list str
}.

Inductive conflict :=
| TeacherConflict (teacher day time_slot : pyval) (subjects : list pyval)
| ClassroomConflict (classroom : str) (day time_slot : pyval) (subjects : list pyval)
| StudentConflict (semester day time_slot : pyval) (subjects : list pyval)
| Shortfall (semester : pyval) (subjects : list str) (missing_sessions : Z)
    (suggestions reasons : list str)
| ValidationShortfall (semester : pyval) (subjects : list str) (missing_sessions : Z).

Record TimetableGenerator := {
  teachers : list teacher;
  subjects : list subject;
  classrooms : list str;
  time_slots : list str;
  days : list str;
  semesters : list str;
  timetable : list entry;
  conflicts : list conflict
}.

Definition General : pyval := Some (str_of_string "General").

(** [subject.get('semester', 'General')] *)
Definition semester_of (s : subject) : pyval := get_default (s_semester s) General.

(** [int(subject.get('sessions_per_week', 2) or 0)] *)
Definition sessions_required (s : subject) : Z :=
  match s_sessions_per_week s with
  | Absent => 2
  | Null => 0
  | Val n => n
  end.

(** ** Department codes *)

Definition en_dash : N := 8211.
Definition em_dash : N := 8212.
Definition hyphen : N := 45.

(** The [for sep in [...]] loop with its [break]; [None] is Python's
    [code = None] left untouched. *)
Fixpoint code_by_separator (seps : list N) (raw : str) : option str :=
  match seps with
  | [] => None
  | sep :: seps' =>
      if contains sep raw then
        let token := strip (split1_head sep raw) in
        Some (if bool_decide (token = []) then strip (split1_head sep raw) else token)
      else code_by_separator seps' raw
  end.

(** The body of [for d in depts], appending to [codes]; [None] when
    [raw.split()[0]] raises. *)
Fixpoint collect_codes (depts : list str) (codes : list str) : option (list str) :=
  match depts with
  | [] => Some codes
  | d :: depts' =>
      let raw := strip d in
      if bool_decide (raw = []) then collect_codes depts' codes
      else
        code ← match code_by_separator [en_dash; em_dash; hyphen] raw with
               | Some c => Some c
               | None => head (split_ws raw None)
               end;
        if bool_decide (code = []) then collect_codes depts' codes
        else collect_codes depts' (codes ++ [code])
  end.

(** The [seen]/[uniq] loop. *)
Fixpoint uniq_loop (codes : list str) (seen : gset str) (uniq : list str) : list str :=
  match codes with
  | [] => uniq
  | c :: codes' =>
      if bool_decide (c ∈ seen) then uniq_loop codes' seen uniq
      else uniq_loop codes' ({[c]} ∪ seen) (uniq ++ [c])
  end.

Definition extract_all_dept_codes (s : subject) : list str :=
  let depts := get_list (s_departments s) in
  match depts with
  | [] => []
  | _ =>
      match collect_codes depts [] with
      | Some codes => uniq_loop codes ∅ []
      | None => []
      end
  end.

(** ** AvailabilityIndex *)

Definition is_teacher_available (t : teacher) (day time_slot : str) : bool :=
  match t_availability t with
  | Absent | Null => true
  | Val availability =>
      if bool_decide (availability = ∅) then true
      else match availability !! day with
           | None => false
           | Some slots => bool_decide (time_slot ∈ slots)
           end
  end.

(** ** ScheduleState *)

(** A busy grid: name, then day, then slot. *)
Abbreviation grid K := (gmap K (gmap str (gmap str bool))).

(** [g[k][day][slot]] *)
Definition grid_item {K} `{Countable K} (g : grid K) (k : K) (day slot : str) : option bool :=
  m ← g !! k; r ← m !! day; r !! slot.

(** Truth value of [g.get(k, {}).get(day, {}).get(slot)] *)
Definition grid_get {K} `{Countable K} (g : grid K) (k : K) (day slot : str) : bool :=
  default false (grid_item g k day slot).

(** [g[k][day][slot] = True] *)
Definition grid_set {K} `{Countable K} (g : grid K) (k : K) (day slot : str) : option (grid K) :=
  m ← g !! k; r ← m !! day; Some (<[k := <[day := <[slot := true]> r]> m]> g).

Record state := {
  st_timetable : list entry;
  st_conflicts : list conflict;
  teacher_schedule : grid str;
  classroom_schedule : grid str;
  cohort_schedule : grid pyval;
  cohort_load : gmap pyval (gmap str Z)
}.

(** [cohort_load.get(semester, {}).get(day, 0)] *)
Definition load_of (cl : gmap pyval (gmap str Z)) (semester : pyval) (day : str) : Z :=
  default 0 (default ∅ (cl !! semester) !! day).

(** [{slot: False for slot in slots_order}] and the comprehension around it *)
Definition empty_row (slots_order : list str) : gmap str bool :=
  foldl (λ r slot, <[slot := false]> r) ∅ slots_order.

Definition empty_days (days_order slots_order : list str) : gmap str (gmap str bool) :=
  foldl (λ m day, <[day := empty_row slots_order]> m) ∅ days_order.

(** [(s or '').strip().lower()] and the index built from it *)
Definition subject_key (lower : str → str) (s : pyval) : str :=
  lower (strip (default [] s)).

Definition index_teacher (lower : str → str)
    (idx : gmap str (list teacher)) (t : teacher) : gmap str (list teacher) :=
  foldl (λ idx s,
           let key := subject_key lower s in
           if bool_decide (key = []) then idx
           else <[key := default [] (idx !! key) ++ [t]]> idx)
        idx (get_list (t_subjects t)).

Definition build_subject_to_teachers (lower : str → str) (ts : list teacher) :
    gmap str (list teacher) :=
  foldl (index_teacher lower) ∅ ts.

(** [any(...)] over a generator whose items may raise *)
Fixpoint anyM {A} (f : A → option bool) (l : list A) : option bool :=
  match l with
  | [] => Some false
  | x :: l' => b ← f x; if b : bool then Some true else anyM f l'
  end.

Definition pair_ltb (a b : Z * nat * nat) : bool :=
  let '(a0, a1, a2) := a in
  let '(b0, b1, b2) := b in
  (a0 <? b0) || (a0 =? b0) && ((a1 <? b1)%nat || (a1 =? b1)%nat && (a2 <? b2)%nat).

Definition cand_key_ltb (a b : Z * nat * nat * str * str) : bool :=
  let '(a0, a1, a2, a3, a4) := a in
  let '(b0, b1, b2, b3, b4) := b in
  pair_ltb (a0, a1, a2) (b0, b1, b2)
  || bool_decide ((a0, a1, a2) = (b0, b1, b2))
     && (str_ltb a3 b3 || bool_decide (a3 = b3) && str_ltb a4 b4).

(** Pass 1 keeps these across the candidates of one subject. *)
Record pass_state := {
  p_state : state;
  p_placed : Z;
  p_used_positions : gset (str * str);
  p_used_days : gset str
}.

(** The two [continue] tests of pass 1. *)
Definition pass1_skips (feasible_days : gset str) (required : Z)
    (used_positions : gset (str * str)) (used_days : gset str) (day slot : str) : bool :=
  bool_decide ((day, slot) ∈ used_positions)
  || (required <=? Z.of_nat (size feasible_days)) && bool_decide (day ∈ used_days).

Section Engine.
Context (lower : str → str).
Context (self_classrooms days_order slots_order : list str).
Context (subject_to_teachers : gmap str (list teacher)).

Definition can_place (st : state) (subj : subject) (t : teacher)
    (classroom day slot : str) : bool :=
  let semester := semester_of subj in
  if grid_get (teacher_schedule st) (t_name t) day slot then false
  else if grid_get (classroom_schedule st) classroom day slot then false
  else if grid_get (cohort_schedule st) semester day slot then false
  else if negb (is_teacher_available t day slot) then false
  else true.

Definition place_entry (st : state) (subj : subject) (t : teacher)
    (classroom day slot : str) : option state :=
  let semester := semester_of subj in
  let e := {| e_day := Val day;
              e_time_slot := Val slot;
              e_subject := Val (s_name subj);
              e_teacher := Val (t_name t);
              e_semester := match semester with Some s => Val s | None => Null end;
              e_classrooms := Val [classroom];
              e_department_codes := extract_all_dept_codes subj |} in
  ts ← grid_set (teacher_schedule st) (t_name t) day slot;
  cs ← grid_set (classroom_schedule st) classroom day slot;
  cohs ← grid_set (cohort_schedule st) semester day slot;
  let row := default ∅ (cohort_load st !! semester) in
  let row := <[day := default 0 (row !! day) + 1]> row in
  Some {| st_timetable := st_timetable st ++ [e];
          st_conflicts := st_conflicts st;
          teacher_schedule := ts;
          classroom_schedule := cs;
          cohort_schedule := cohs;
          cohort_load := <[semester := row]> (cohort_load st) |}.

(** [_rank_slots]: the contiguity bonus is the constant 0. *)
Definition _rank_slots (cl : gmap pyval (gmap str Z)) (day slot : str) (cohort : pyval) : Z :=
  let day_load := load_of cl cohort day in
  let contiguous_bonus := 0 in
  day_load * 10 - contiguous_bonus.

Definition rank_slots_for_semester (st : state) (semester : pyval) :
    option (list (str * str)) :=
  let ranked :=
    day ← days_order;
    let load := load_of (cohort_load st) semester day in
    slot ← slots_order;
    [(_rank_slots (cohort_load st) day slot semester + load * 10, day, slot)] in
  keyed ← mapM (λ x : Z * str * str,
                  let '(score, day, slot) := x in
                  i ← index day days_order;
                  j ← index slot slots_order;
                  Some ((score, i, j), (day, slot))) ranked;
  Some (snd <$> stable_sort pair_ltb keyed).

(** [sum(1 for d in days_order for s in slots_order if teacher_schedule[name][d][s])] *)
Definition teacher_load (st : state) (t : teacher) : option Z :=
  cells ← mapM (λ d, mapM (λ s, grid_item (teacher_schedule st) (t_name t) d s) slots_order)
               days_order;
  Some (Z.of_nat (length (filter (λ b : bool, b = true) (concat cells)))).

Definition teachers_for (subj : subject) : list teacher :=
  default [] (subject_to_teachers !! subject_key lower (Some (s_name subj))).

Definition all_candidate_assignments (st : state) (subj : subject) :
    option (list (str * str * teacher * str)) :=
  let semester := semester_of subj in
  let teachers_for_subject := teachers_for subj in
  match teachers_for_subject with
  | [] => Some []
  | _ =>
      ranked ← rank_slots_for_semester st semester;
      per_slot ← mapM (λ ds : str * str,
        let '(day, slot) := ds in
        per_teacher ← mapM (λ t,
          if negb (is_teacher_available t day slot) then Some []
          else
            per_room ← mapM (λ c,
              if can_place st subj t c day slot then
                t_load ← teacher_load st t;
                i ← index day days_order;
                j ← index slot slots_order;
                Some [((t_load, i, j, lower (t_name t), c), (day, slot, t, c))]
              else Some []) self_classrooms;
            Some (concat per_room)) teachers_for_subject;
        Some (concat per_teacher)) ranked;
      Some (snd <$> stable_sort cand_key_ltb (concat per_slot))
  end.

(** First loop over [feasible] (spread-preferring). *)
Fixpoint pass1 (subj : subject) (required : Z) (feasible_days : gset str)
    (feasible : list (str * str * teacher * str)) (p : pass_state) : option pass_state :=
  match feasible with
  | [] => Some p
  | (day, slot, t, classroom) :: rest =>
      if required <=? p_placed p then Some p
      else if pass1_skips feasible_days required (p_used_positions p) (p_used_days p) day slot
      then pass1 subj required feasible_days rest p
      else if can_place (p_state p) subj t classroom day slot then
        st ← place_entry (p_state p) subj t classroom day slot;
        pass1 subj required feasible_days rest
          {| p_state := st;
             p_placed := p_placed p + 1;
             p_used_positions := {[(day, slot)]} ∪ p_used_positions p;
             p_used_days := {[day]} ∪ p_used_days p |}
      else pass1 subj required feasible_days rest p
  end.

(** Second loop over [feasible] (spreading lifted). *)
Fixpoint pass2 (subj : subject) (required : Z)
    (feasible : list (str * str * teacher * str)) (st : state) (placed : Z) :
    option (state * Z) :=
  match feasible with
  | [] => Some (st, placed)
  | (day, slot, t, classroom) :: rest =>
      if required <=? placed then Some (st, placed)
      else if can_place st subj t classroom day slot then
        st' ← place_entry st subj t classroom day slot;
        pass2 subj required rest st' (placed + 1)
      else pass2 subj required rest st placed
  end.

(** Both passes for one subject: the state and [placed] they leave. *)
Definition place_sessions (st : state) (subj : subject) : option (state * Z) :=
  let sessions_required := sessions_required subj in
  feasible ← all_candidate_assignments st subj;
  let feasible_days : gset str := list_to_set ((λ c, c.1.1.1) <$> feasible) in
  p ← pass1 subj sessions_required feasible_days feasible
         {| p_state := st; p_placed := 0; p_used_positions := ∅; p_used_days := ∅ |};
  if p_placed p <? sessions_required
  then pass2 subj sessions_required feasible (p_state p) (p_placed p)
  else Some (p_state p, p_placed p).

(** *** DiagnosticsBuilder *)

Definition teacher_free (st : state) (day slot : str) (t : teacher) : option bool :=
  if is_teacher_available t day slot
  then negb <$> grid_item (teacher_schedule st) (t_name t) day slot
  else Some false.

Definition classroom_free (st : state) (day slot : str) (c : str) : option bool :=
  negb <$> grid_item (classroom_schedule st) c day slot.

Definition reasons_at (st : state) (subj : subject) (tfs : list teacher)
    (day slot : str) : option (list str) :=
  any_teacher_free ← anyM (teacher_free st day slot) tfs;
  any_class_free ← anyM (classroom_free st day slot) self_classrooms;
  cohort_busy ← grid_item (cohort_schedule st) (semester_of subj) day slot;
  Some ((if any_teacher_free : bool then []
         else [str_of_string "No available teacher at " ++ day ++ str_of_string " " ++ slot])
        ++ (if any_class_free : bool then []
            else [str_of_string "No available classroom at " ++ day ++ str_of_string " " ++ slot])
        ++ (if cohort_busy : bool
            then [str_of_string "Semester busy at " ++ day ++ str_of_string " " ++ slot]
            else [])).

Definition build_reasons (st : state) (subj : subject) (tfs : list teacher) :
    option (list str) :=
  match tfs with
  | [] => Some [str_of_string "No teacher associated with subject"]
  | _ =>
      per_day ← mapM (λ day,
        per_slot ← mapM (reasons_at st subj tfs day) slots_order;
        Some (concat per_slot)) days_order;
      Some (uniq_loop (concat per_day) ∅ [])
  end.

Fixpoint suggest_slots (st : state) (subj : subject) (tfs : list teacher)
    (day : str) (slots : list str) (suggestions : list str) : option (list str) :=
  match slots with
  | [] => Some suggestions
  | slot :: rest =>
      busy ← grid_item (cohort_schedule st) (semester_of subj) day slot;
      if busy : bool then suggest_slots st subj tfs day rest suggestions
      else
        tflags ← mapM (teacher_free st day slot) tfs;
        cflags ← mapM (classroom_free st day slot) self_classrooms;
        let suggestions :=
          if existsb id tflags && existsb id cflags
          then suggestions ++ [day ++ str_of_string " @ " ++ slot]
          else suggestions in
        if (5 <=? length suggestions)%nat then Some suggestions
        else suggest_slots st subj tfs day rest suggestions
  end.

Fixpoint suggest_days (st : state) (subj : subject) (tfs : list teacher)
    (ds : list str) (suggestions : list str) : option (list str) :=
  match ds with
  | [] => Some suggestions
  | day :: rest =>
      suggestions ← suggest_slots st subj tfs day slots_order suggestions;
      if (5 <=? length suggestions)%nat then Some suggestions
      else suggest_days st subj tfs rest suggestions
  end.

(** *** One iteration of [for subject in self.subjects] *)

Definition schedule_subject (st : state) (subj : subject) : option state :=
  let sessions_required := sessions_required subj in
  '(st, placed) ← place_sessions st subj;
  if placed <? sessions_required then
    let missing := sessions_required - placed in
    let teachers_for_subject := teachers_for subj in
    reasons ← build_reasons st subj teachers_for_subject;
    suggestions ← suggest_days st subj teachers_for_subject days_order [];
    Some {| st_timetable := st_timetable st;
            st_conflicts := st_conflicts st ++
              [Shortfall (semester_of subj) [s_name subj] missing suggestions reasons];
            teacher_schedule := teacher_schedule st;
            classroom_schedule := classroom_schedule st;
            cohort_schedule := cohort_schedule st;
            cohort_load := cohort_load st |}
  else Some st.

Fixpoint schedule_all (st : state) (subjs : list subject) : option state :=
  match subjs with
  | [] => Some st
  | subj :: rest => st' ← schedule_subject st subj; schedule_all st' rest
  end.
End Engine.

(** ** ConflictDetector *)

(** First loop of [detect_conflicts]: [indexed], keyed by [(day, time_slot)]. *)
Fixpoint index_entries (tt : list entry) (indexed : odict (pyval * pyval) entry) :
    option (odict (pyval * pyval) entry) :=
  match tt with
  | [] => Some indexed
  | e :: rest =>
      day ← getitem (e_day e);
      slot ← getitem (e_time_slot e);
      index_entries rest (setdefault_append (day, slot) e indexed)
  end.

(** [for e in entries]: the three maps of one [(day, slot)] group. *)
Fixpoint group_entries (entries : list entry)
    (teacher_map : odict pyval entry) (classroom_map : odict str entry)
    (cohort_map : odict pyval entry) :
    option (odict pyval entry * odict str entry * odict pyval entry) :=
  match entries with
  | [] => Some (teacher_map, classroom_map, cohort_map)
  | e :: rest =>
      t ← getitem (e_teacher e);
      let teacher_map := setdefault_append t e teacher_map in
      let classroom_map :=
        foldl (λ m c, setdefault_append c e m) classroom_map (get_list (e_classrooms e)) in
      let cohort_map := setdefault_append (get_default (e_semester e) General) e cohort_map in
      group_entries rest teacher_map classroom_map cohort_map
  end.

(** [for k, arr in m.items(): if len(arr) > 1: conflicts.append(...)] *)
Definition report {K} (mk : K → list pyval → conflict) (m : odict K entry) :
    option (list conflict) :=
  per_key ← mapM (λ kv : K * list entry,
    if (1 <? length kv.2)%nat then
      subs ← mapM (λ x, getitem (e_subject x)) kv.2;
      Some [mk kv.1 subs]
    else Some []) m;
  Some (concat per_key).

Definition scan_group (g : pyval * pyval * list entry) : option (list conflict) :=
  let '(day, slot, entries) := g in
  '(teacher_map, classroom_map, cohort_map) ← group_entries entries [] [] [];
  a ← report (λ t, TeacherConflict t day slot) teacher_map;
  b ← report (λ c, ClassroomConflict c day slot) classroom_map;
  c ← report (λ s, StudentConflict s day slot) cohort_map;
  Some (a ++ b ++ c).

(** The local [conflicts] list of [detect_conflicts]. *)
Definition scan_conflicts (tt : list entry) : option (list conflict) :=
  indexed ← index_entries tt [];
  per_group ← mapM scan_group indexed;
  Some (concat per_group).

Definition set_results (self : TimetableGenerator) (tt : list entry) (cs : list conflict) :
    TimetableGenerator :=
  {| teachers := teachers self; subjects := subjects self; classrooms := classrooms self;
     time_slots := time_slots self; days := days self; semesters := semesters self;
     timetable := tt; conflicts := cs |}.

(** [detect_conflicts]: the object after the call. *)
Definition detect_conflicts (self : TimetableGenerator) : option TimetableGenerator :=
  found ← scan_conflicts (timetable self);
  Some (set_results self (timetable self) (conflicts self ++ found)).

(** ** Post-generation validation *)

Fixpoint count_occurrences (tt : list entry) (occurrences : gmap (pyval * pyval) Z) :
    option (gmap (pyval * pyval) Z) :=
  match tt with
  | [] => Some occurrences
  | e :: rest =>
      s ← getitem (e_subject e);
      let key := (s, get_default (e_semester e) General) in
      count_occurrences rest (<[key := default 0 (occurrences !! key) + 1]> occurrences)
  end.

Definition validation_conflicts (occurrences : gmap (pyval * pyval) Z)
    (subjs : list subject) : list conflict :=
  subj ← subjs;
  let sessions_required := sessions_required subj in
  let key := (Some (s_name subj), semester_of subj) in
  let count := default 0 (occurrences !! key) in
  if count <? sessions_required
  then [ValidationShortfall (semester_of subj) [s_name subj] (sessions_required - count)]
  else [].

(** ** [generate] *)

Definition initial_state (self : TimetableGenerator) : state :=
  let days_order := days self in
  let slots_order := time_slots self in
  let cohorts : gset pyval := list_to_set (semester_of <$> subjects self) in
  {| st_timetable := [];
     st_conflicts := [];
     teacher_schedule :=
       foldl (λ m t, <[t_name t := empty_days days_order slots_order]> m) ∅ (teachers self);
     classroom_schedule :=
       foldl (λ m c, <[c := empty_days days_order slots_order]> m) ∅ (classrooms self);
     cohort_schedule :=
       gset_to_gmap (empty_days days_order slots_order)
         (if bool_decide (cohorts = ∅) then {[General]} else cohorts);
     cohort_load := ∅ |}.

(** The object after [generate()]; the returned dictionary holds its
    [timetable] and [conflicts]. *)
Definition generate (lower : str → str) (self : TimetableGenerator) :
    option TimetableGenerator :=
  let subject_to_teachers := build_subject_to_teachers lower (teachers self) in
  st ← schedule_all lower (classrooms self) (days self) (time_slots self)
         subject_to_teachers (initial_state self) (subjects self);
  self ← detect_conflicts (set_results self (st_timetable st) (st_conflicts st));
  occurrences ← count_occurrences (timetable self) ∅;
  Some (set_results self (timetable self)
          (conflicts self ++ validation_conflicts occurrences (subjects self))).

Definition result (self : TimetableGenerator) : list entry * list conflict :=
  (timetable self, conflicts self).

(** ** Example inputs *)

Definition mk_teacher (name : string) (subjs : list string) : teacher :=
  {| t_name := str_of_string name;
     t_subjects := Val ((λ s, Some (str_of_string s)) <$> subjs);
     t_availability := Absent |}.

Definition mk_subject (name : string) (spw : field Z) : subject :=
  {| s_name := str_of_string name; s_semester := Absent;
     s_departments := Absent; s_sessions_per_week := spw |}.

Definition mk_generator (ts : list teacher) (ss : list subject)
    (rooms slots ds : list string) : TimetableGenerator :=
  {| teachers := ts; subjects := ss;
     classrooms := str_of_string <$> rooms;
     time_slots := str_of_string <$> slots;
     days := str_of_string <$> ds;
     semesters := []; timetable := []; conflicts := [] |}.

Definition demo (spw : field Z) : TimetableGenerator :=
  mk_generator [mk_teacher "Ann" ["Math"%string]] [mk_subject "math" spw]
    ["R1"%string] ["9"%string; "10"%string] ["Mon"%string; "Tue"%string].

(** ** Vocabulary of the stated properties *)

(** The value stored under a key, [None] also when the key is missing. *)
Definition fv (f : field str) : pyval := get_default f None.

(** An entry list is well formed when every entry carries the four keys
    [detect_conflicts] subscripts. *)
Definition wf_entry (e : entry) : Prop :=
  e_day e ≠ Absent ∧ e_time_slot e ≠ Absent ∧ e_teacher e ≠ Absent ∧ e_subject e ≠ Absent.

Definition cell_of (e : entry) : pyval * pyval := (fv (e_day e), fv (e_time_slot e)).
Definition cohort_of (e : entry) : pyval := get_default (e_semester e) General.
Definition rooms_of (e : entry) : list str := get_list (e_classrooms e).

Definition teacher_key (e : entry) : pyval * pyval * pyval := (cell_of e, fv (e_teacher e)).
Definition room_keys (e : entry) : list (pyval * pyval * str) := (λ c, (cell_of e, c)) <$> rooms_of e.
Definition cohort_key (e : entry) : pyval * pyval * pyval := (cell_of e, cohort_of e).

(** No (day, slot, teacher), (day, slot, classroom) or (day, slot, cohort)
    occurs twice. *)
Definition collision_free (tt : list entry) : Prop :=
  NoDup (teacher_key <$> tt) ∧ NoDup (tt ≫= room_keys) ∧ NoDup (cohort_key <$> tt).

(** Two entries of one (day, slot) that share a teacher, a classroom or a cohort. *)
Definition clash (e1 e2 : entry) : Prop :=
  cell_of e1 = cell_of e2 ∧
  (fv (e_teacher e1) = fv (e_teacher e2)
   ∨ (∃ c, c ∈ rooms_of e1 ∧ c ∈ rooms_of e2)
   ∨ cohort_of e1 = cohort_of e2).

Definition is_collision (c : conflict) : Prop :=
  match c with
  | TeacherConflict _ _ _ _ | ClassroomConflict _ _ _ _ | StudentConflict _ _ _ _ => True
  | _ => False
  end.

Definition is_shortfall (c : conflict) : Prop :=
  match c with Shortfall _ _ _ _ _ => True | _ => False end.

Definition is_validation (c : conflict) : Prop :=
  match c with ValidationShortfall _ _ _ => True | _ => False end.

Definition missing_sessions (c : conflict) : Z :=
  match c with
  | Shortfall _ _ m _ _ | ValidationShortfall _ _ m => m
  | _ => 0
  end.

(** An entry committed for [subj], and the shortfall record of [subj]. *)
Definition entry_for (subj : subject) (e : entry) : Prop :=
  e_subject e = Val (s_name subj) ∧ cohort_of e = semester_of subj.

#[global] Instance entry_for_dec subj e : Decision (entry_for subj e) :=
  ltac:(unfold entry_for; apply _).

(** The pair under which validation counts the entries of a subject. *)
Definition subject_id (subj : subject) : str * pyval := (s_name subj, semester_of subj).

Definition shortfall_for (subj : subject) (c : conflict) : Prop :=
  ∃ m sg rs, c = Shortfall (semester_of subj) [s_name subj] m sg rs.

(** What one subject contributes: its entries and at most one shortfall. *)
Definition block_ok (subj : subject) (b : list entry * list conflict) : Prop :=
  Forall (entry_for subj) b.1 ∧ Forall (shortfall_for subj) b.2 ∧
  Forall (λ c, 0 < missing_sessions c) b.2 ∧
  (length b.2 ≤ 1)%nat ∧
  (0 ≤ sessions_required subj →
   Z.of_nat (length b.1) + foldr Z.add 0 (missing_sessions <$> b.2) = sessions_required subj).

(** Duplicates removed, first occurrence kept. *)
Fixpoint dedup_first (l : list str) : list str :=
  match l with
  | [] => []
  | x :: l' => x :: filter (λ y, y ≠ x) (dedup_first l')
  end.

Definition is_dash (c : N) : bool :=
  bool_decide (c = hyphen ∨ c = en_dash ∨ c = em_dash).

Fixpoint before_first_dash (s : str) : str :=
  match s with
  | [] => []
  | c :: s' => if is_dash c then [] else c :: before_first_dash s'
  end.

Definition nonempty (s : str) : option str := if bool_decide (s = []) then None else Some s.

(** The derivation rule as the specification words it: the token before
    the first separator occurring in the string. *)
Definition dept_code_claimed (d : str) : option str :=
  let raw := strip d in
  if existsb is_dash raw then nonempty (strip (before_first_dash raw))
  else head (split_ws raw None) ≫= nonempty.

Definition dept_codes_claimed (depts : list str) : list str :=
  dedup_first (omap dept_code_claimed depts).

(** The rule with the separators tried in a fixed order: en dash, em dash,
    ASCII hyphen. *)
Definition dept_code_by_priority (d : str) : option str :=
  let raw := strip d in
  match List.find (λ sep, contains sep raw) [en_dash; em_dash; hyphen] with
  | Some sep => nonempty (strip (split1_head sep raw))
  | None => head (split_ws raw None) ≫= nonempty
  end.

Definition dept_codes_by_priority (depts : list str) : list str :=
  dedup_first (omap dept_code_by_priority depts).

(** The second [continue] test as the specification words it, against the
    sessions still to place. *)
Definition pass1_skips_claimed (feasible_days : gset str) (required placed : Z)
    (used_positions : gset (str * str)) (used_days : gset str) (day slot : str) : bool :=
  bool_decide ((day, slot) ∈ used_positions)
  || (required - placed <=? Z.of_nat (size feasible_days)) && bool_decide (day ∈ used_days).

Definition with_departments (depts : field (list str)) (s : subject) : subject :=
  {| s_name := s_name s; s_semester := s_semester s;
     s_departments := depts; s_sessions_per_week := s_sessions_per_week s |}.

Definition with_semesters (sems : list str) (self : TimetableGenerator) : TimetableGenerator :=
  {| teachers := teachers self; subjects := subjects self; classrooms := classrooms self;
     time_slots := time_slots self; days := days self; semesters := sems;
     timetable := timetable self; conflicts := conflicts self |}.

Definition start_pass (st : state) : pass_state :=
  {| p_state := st; p_placed := 0; p_used_positions := ∅; p_used_days := ∅ |}.

(** ** Invariants of the scheduling loop *)

Definition grid_full {K} `{Countable K} (g : grid K) (keys : list K)
    (days_order slots_order : list str) : Prop :=
  ∀ k d s, k ∈ keys → d ∈ days_order → s ∈ slots_order → is_Some (grid_item g k d s).

(** A committed entry and the three cells it occupies. *)
Definition booked (st : state) (e : entry) : Prop :=
  ∃ d s t c,
    e_day e = Val d ∧ e_time_slot e = Val s ∧ e_teacher e = Val t ∧
    e_classrooms e = Val [c] ∧ e_subject e ≠ Absent ∧
    grid_get (teacher_schedule st) t d s = true ∧
    grid_get (classroom_schedule st) c d s = true ∧
    grid_get (cohort_schedule st) (cohort_of e) d s = true.

Record inv (self_teachers : list teacher) (self_subjects : list subject)
    (self_classrooms days_order slots_order : list str) (st : state) : Prop := {
  inv_teachers : grid_full (teacher_schedule st) (t_name <$> self_teachers) days_order slots_order;
  inv_classrooms : grid_full (classroom_schedule st) self_classrooms days_order slots_order;
  inv_cohorts : grid_full (cohort_schedule st) (semester_of <$> self_subjects) days_order slots_order;
  inv_booked : Forall (booked st) (st_timetable st);
  inv_free : collision_free (st_timetable st)
}.

Definition cand_ok (self_teachers : list teacher)
    (self_classrooms days_order slots_order : list str)
    (c : str * str * teacher * str) : Prop :=
  c.1.1.1 ∈ days_order ∧ c.1.1.2 ∈ slots_order ∧ c.1.2 ∈ self_teachers ∧ c.2 ∈ self_classrooms.

(** ** Invariants of the detector's dictionaries *)

(** [(c, e)] for every classroom [c] of [e]: the items the inner loop of
    [detect_conflicts] files under [classroom_map]. *)
Definition room_pairs (e : entry) : list (str * entry) := (λ c, (c, e)) <$> rooms_of e.

(** A bucket [kb] of a dictionary filled from [l]: its items come, in
    order, from items of [l] whose key is the bucket's. *)
Definition bucket_of {K A B} (key : B → K) (val : B → A) (l : list B)
    (kb : K * list A) : Prop :=
  ∃ ps, kb.2 = val <$> ps ∧ ps `sublist_of` l ∧ Forall (λ p, key p = kb.1) ps.

Definition fill {K A B} `{EqDecision K} (key : B → K) (val : B → A)
    (d : odict K A) (l : list B) : odict K A :=
  foldl (λ d x, setdefault_append (key x) (val x) d) d l.

(** [st'] is [st] with the entries [es] committed for [subj] and nothing
    else reported. *)
Definition extends_with (subj : subject) (st st' : state) (es : list entry) : Prop :=
  st_timetable st' = st_timetable st ++ es ∧
  st_conflicts st' = st_conflicts st ∧
  Forall (entry_for subj) es ∧
  Forall (λ e, ∃ c, e_classrooms e = Val [c]) es.

(** The (day, slot) and the day of a committed entry, and the sets of
    them over a list of entries. *)
Definition entry_position (e : entry) : option (str * str) :=
  match e_day e, e_time_slot e with
  | Val d, Val s => Some (d, s)
  | _, _ => None
  end.

Definition entry_day (e : entry) : option str :=
  match e_day e with Val d => Some d | _ => None end.

Definition positions_of (es : list entry) : gset (str * str) :=
  list_to_set (omap entry_position es).

Definition days_of (es : list entry) : gset str := list_to_set (omap entry_day es).

(** ** Example runs *)

Definition demo_subject : subject := mk_subject "math" (Val 3).

Definition demo_feasible : list (str * str * teacher * str) :=
  let self := demo (Val 3) in
  default []
    (all_candidate_assignments lower_ascii (classrooms self) (days self) (time_slots self)
       (build_subject_to_teachers lower_ascii (teachers self))
       (initial_state self) demo_subject).

Definition demo_feasible_days : gset str := list_to_set ((λ c, c.1.1.1) <$> demo_feasible).

(** Pass 1 of the example after its first candidate. *)
Definition demo_pass : pass_state :=
  let st := initial_state (demo (Val 3)) in
  default (start_pass st)
    (pass1 demo_subject 3 demo_feasible_days (take 1 demo_feasible) (start_pass st)).

Definition mk_entry (day slot subj t room : string) : entry :=
  {| e_day := Val (str_of_string day); e_time_slot := Val (str_of_string slot);
     e_subject := Val (str_of_string subj); e_teacher := Val (str_of_string t);
     e_semester := Absent; e_classrooms := Val [str_of_string room];
     e_department_codes := [] |}.

(** An edited timetable in which Ann is booked twice on Monday at 9. *)
Definition edited : TimetableGenerator :=
  {| teachers := []; subjects := []; classrooms := []; time_slots := []; days := [];
     semesters := [];
     timetable := [mk_entry "Mon" "9" "math" "Ann" "R1"; mk_entry "Mon" "9" "art" "Ann" "R2"];
     conflicts := [] |}.

(** The example object once [generate] has run on it, called with other
    [semesters]. *)
Definition demo_reused : TimetableGenerator :=
  let self := demo (Val 3) in
  with_semesters [str_of_string "S1"] (default self (generate lower_ascii self)).

(** One subject, 3 sessions, one teacher, one classroom, 5 days of 2 slots. *)
Definition scenario_a : TimetableGenerator :=
  mk_generator [mk_teacher "Ann" ["Math"%string]] [mk_subject "Math" (Val 3)]
    ["R1"%string] ["9"%string; "10"%string]
    ["Mon"%string; "Tue"%string; "Wed"%string; "Thu"%string; "Fri"%string].

(** Two subjects of one cohort, one teacher for both, a single (day, slot). *)
Definition scenario_b : TimetableGenerator :=
  mk_generator [mk_teacher "Ann" ["Math"%string; "Art"%string]]
    [mk_subject "Math" (Val 1); mk_subject "Art" (Val 1)]
    ["R1"%string] ["9"%string] ["Mon"%string].

(** A subject nobody teaches. *)
Definition scenario_c : TimetableGenerator :=
  mk_generator [mk_teacher "Ann" ["Math"%string]] [mk_subject "Art" (Val 2)]
    ["R1"%string] ["9"%string] ["Mon"%string].

(** What a run shows of its entries and conflicts: (day, slot, subject)
    per entry, and the missing sessions and reasons of each conflict. *)
Definition summary (self : TimetableGenerator) :
    list (pyval * pyval * pyval) * list (Z * list str) :=
  ((λ e, (fv (e_day e), fv (e_time_slot e), fv (e_subject e))) <$> timetable self,
   (λ c, (missing_sessions c,
          match c with Shortfall _ _ _ _ reasons => reasons | _ => [] end))
     <$> conflicts self).

(** ** Vocabulary of the further properties *)

(** The entry [place_entry] appends. *)
Definition placed_entry (subj : subject) (t : teacher) (classroom day slot : str) : entry :=
  {| e_day := Val day;
     e_time_slot := Val slot;
     e_subject := Val (s_name subj);
     e_teacher := Val (t_name t);
     e_semester := match semester_of subj with Some s => Val s | None => Null end;
     e_classrooms := Val [classroom];
     e_department_codes := extract_all_dept_codes subj |}.

(** Every cell busy in [st] is busy in [st']. *)
Definition busier (st st' : state) : Prop :=
  (∀ k d s, grid_get (teacher_schedule st) k d s = true →
            grid_get (teacher_schedule st') k d s = true) ∧
  (∀ k d s, grid_get (classroom_schedule st) k d s = true →
            grid_get (classroom_schedule st') k d s = true) ∧
  (∀ k d s, grid_get (cohort_schedule st) k d s = true →
            grid_get (cohort_schedule st') k d s = true).

(** [t] lists a subject whose key is that of [subj]. *)
Definition teaches (lower : str → str) (t : teacher) (subj : subject) : Prop :=
  subject_key lower (Some (s_name subj)) ≠ [] ∧
  ∃ s, s ∈ get_list (t_subjects t) ∧
       subject_key lower s = subject_key lower (Some (s_name subj)).

(** The three reasons [reasons_at] can give for one (day, slot). *)
Definition reason_msgs (day slot : str) : list str :=
  [str_of_string "No available teacher at " ++ day ++ str_of_string " " ++ slot;
   str_of_string "No available classroom at " ++ day ++ str_of_string " " ++ slot;
   str_of_string "Semester busy at " ++ day ++ str_of_string " " ++ slot].

Definition no_teacher_msg : str := str_of_string "No teacher associated with subject".

(** An entry committed for [subj]: one of its teachers, available at the
    entry's day and slot, in a classroom, on a day and at a slot of the
    input. *)
Definition entry_sound (lower : str → str) (stt : gmap str (list teacher))
    (cls days slots : list str) (subj : subject) (e : entry) : Prop :=
  ∃ d s t c,
    d ∈ days ∧ s ∈ slots ∧ t ∈ teachers_for lower stt subj ∧ c ∈ cls ∧
    is_teacher_available t d s = true ∧ e = placed_entry subj t c d s.

(** The shortfall record of [subj] when [placed] sessions were committed. *)
Definition shortfall_sound (lower : str → str) (stt : gmap str (list teacher))
    (days slots : list str) (subj : subject) (placed : Z) (c : conflict) : Prop :=
  ∃ reasons,
    c = Shortfall (semester_of subj) [s_name subj] (sessions_required subj - placed)
          [] reasons ∧
    NoDup reasons ∧
    match teachers_for lower stt subj with
    | [] => reasons = [no_teacher_msg]
    | _ =>
        Forall (λ r, ∃ d s, d ∈ days ∧ s ∈ slots ∧ r ∈ reason_msgs d s) reasons ∧
        ∀ d s, d ∈ days → s ∈ slots → ∃ r, r ∈ reasons ∧ r ∈ reason_msgs d s
    end.

(** What one iteration of the subject loop adds. *)
Definition block_sound (lower : str → str) (stt : gmap str (list teacher))
    (cls days slots : list str) (subj : subject) (b : list entry * list conflict) : Prop :=
  Forall (entry_sound lower stt cls days slots subj) b.1 ∧
  Z.of_nat (length b.1) ≤ Z.max (sessions_required subj) 0 ∧
  if decide (Z.of_nat (length b.1) < sessions_required subj)
  then ∃ c, b.2 = [c] ∧
         shortfall_sound lower stt days slots subj (Z.of_nat (length b.1)) c
  else b.2 = [].

(** The key under which validation counts an entry. *)
Definition count_key (e : entry) : pyval * pyval := (fv (e_subject e), cohort_of e).

(** What validation reports for one subject, from the final timetable. *)
Definition validation_of (tt : list entry) (subj : subject) : list conflict :=
  let count := Z.of_nat (length (filter (entry_for subj) tt)) in
  if decide (count < sessions_required subj)
  then [ValidationShortfall (semester_of subj) [s_name subj] (sessions_required subj - count)]
  else [].


(** ** Grouping, declaratively *)

(** The keys of an insertion-ordered dictionary filled from [l]: each key
    once, in order of first appearance. *)
Fixpoint first_keys {K} `{EqDecision K} (l : list K) : list K :=
  match l with
  | [] => []
  | k :: l' => k :: filter (λ y, y ≠ k) (first_keys l')
  end.

(** Every key with the values of all the items of [l] under it, in the
    order of [l]. *)
Definition grouped {K A B} `{EqDecision K} (key : B → K) (val : B → A) (l : list B) :
    odict K A :=
  (λ k, (k, val <$> filter (λ x, key x = k) l)) <$> first_keys (key <$> l).

(** The subjects of the entries of [tt] at one (day, slot) that share a
    teacher, a classroom (once per listing of the room) or a cohort. *)
Definition at_cell (cell : pyval * pyval) (tt : list entry) : list entry :=
  filter (λ e, cell_of e = cell) tt.

Definition teacher_subjects (tt : list entry) (cell : pyval * pyval) (t : pyval) : list pyval :=
  (λ e, fv (e_subject e)) <$> filter (λ e, fv (e_teacher e) = t) (at_cell cell tt).

Definition room_subjects (tt : list entry) (cell : pyval * pyval) (c : str) : list pyval :=
  (λ p : str * entry, fv (e_subject p.2))
    <$> filter (λ p : str * entry, p.1 = c) (at_cell cell tt ≫= room_pairs).

Definition cohort_subjects (tt : list entry) (cell : pyval * pyval) (s : pyval) : list pyval :=
  (λ e, fv (e_subject e)) <$> filter (λ e, cohort_of e = s) (at_cell cell tt).

(** One record for every key, in the given order, whose subjects are at
    least two. *)
Definition report_spec {K} (mk : K → list pyval → conflict) (keys : list K)
    (subs : K → list pyval) : list conflict :=
  k ← keys; if (1 <? length (subs k))%nat then [mk k (subs k)] else [].

Definition cell_conflicts (tt : list entry) (cell : pyval * pyval) : list conflict :=
  let es := at_cell cell tt in
  report_spec (λ t, TeacherConflict t cell.1 cell.2)
    (first_keys ((λ e, fv (e_teacher e)) <$> es)) (teacher_subjects tt cell)
  ++ report_spec (λ c, ClassroomConflict c cell.1 cell.2)
       (first_keys (fst <$> (es ≫= room_pairs))) (room_subjects tt cell)
  ++ report_spec (λ s, StudentConflict s cell.1 cell.2)
       (first_keys (cohort_of <$> es)) (cohort_subjects tt cell).

(** The collisions of an entry list: (day, slot) by (day, slot) in order
    of first appearance, teachers, then classrooms, then cohorts. *)
Definition collisions (tt : list entry) : list conflict :=
  cell ← first_keys (cell_of <$> tt); cell_conflicts tt cell.

(** ** The routes that edit a stored timetable and the session memory *)

(** The request bodies are modelled at the types the code expects: keys
    hold strings, lists of strings or null, and the body is a JSON object.
    The values of the session memory are opaque ([V]); [None] is JSON
    null. *)

(** The value [e.get(k)] stores under [k]: the key is always present. *)
Definition present (v : pyval) : field str :=
  match v with Some s => Val s | None => Null end.

(** ['department_codes'] of an incoming entry: a list, null or missing,
    or a single value. *)
Inductive jcodes :=
| CodesList (l : list str)
| CodesNone
| CodesScalar (s : str).

(** An entry of a request: [r_classrooms] is [None] when the key does not
    hold a list. *)
Record raw_entry := {
  r_day : field str;
  r_time_slot : field str;
  r_subject : field str;
  r_teacher : field str;
  r_semester : field str;
  r_classrooms : option (list str);
  r_classroom : field str;
  r_department_codes : jcodes;
  r_description : field str
}.

(** An entry as the routes store and return it. *)
Record stored_entry := {
  se_entry : entry;
  se_description : field str
}.

(** [[e.get('classroom')] if e.get('classroom') else []] *)
Definition classroom_list (e : raw_entry) : list str :=
  match fv (r_classroom e) with
  | Some (c :: s) => [c :: s]
  | _ => []
  end.

Definition codes_list (e : raw_entry) : list str :=
  match r_department_codes e with
  | CodesList l => l
  | CodesNone => []
  | CodesScalar s => [s]
  end.

(** An entry of the generator, as the dictionary it is. *)
Definition raw_of_entry (e : entry) : raw_entry :=
  {| r_day := e_day e; r_time_slot := e_time_slot e; r_subject := e_subject e;
     r_teacher := e_teacher e; r_semester := e_semester e;
     r_classrooms := match e_classrooms e with Val l => Some l | _ => None end;
     r_classroom := Absent;
     r_department_codes := CodesList (e_department_codes e);
     r_description := Absent |}.

Module Generate.
(** [normalize_entry] of [generate_timetable]. *)
Definition normalize_entry (e : raw_entry) : stored_entry :=
  {| se_entry :=
       {| e_day := present (fv (r_day e));
          e_time_slot := present (fv (r_time_slot e));
          e_subject := present (fv (r_subject e));
          e_teacher := present (fv (r_teacher e));
          e_semester := present (fv (r_semester e));
          e_classrooms :=
            Val (match r_classrooms e with
                 | Some (c :: l) => c :: l
                 | _ => classroom_list e
                 end);
          e_department_codes := codes_list e |};
     se_description := present (fv (r_description e)) |}.
End Generate.

(** What [timetables] holds for a session. *)
Record session {M : Type} := {
  sd_timetable : list stored_entry;
  sd_conflicts : list conflict;
  sd_metadata : M
}.
Arguments session : clear implicits.

Definition last_updated : str := str_of_string "last_updated".

(** [m.update({k: v for k, v in data.items() if v is not None})], then
    [m['last_updated'] = now]. *)
Definition merge_updates {V} (now : V) (data m : gmap str (option V)) :
    gmap str (option V) :=
  <[last_updated := Some now]> (filter (λ kv, kv.2 ≠ None) data ∪ m).

Inductive reply (A : Type) :=
| Success (a : A)
| SessionNotFound
| ServerError.
Arguments Success {A} a.
Arguments SessionNotFound {A}.
Arguments ServerError {A}.

(** The body of a request to [update_timetable]: [q_memory_updates] is [Null] when the key
    holds something that is no object. *)
Record request {V : Type} := {
  q_session_id : pyval;
  q_timetable : option (list raw_entry);
  q_memory_updates : field (gmap str (option V))
}.
Arguments request : clear implicits.

Module Update.
(** [normalize_entry] of [update_timetable]. *)
Definition normalize_entry (e : raw_entry) : stored_entry :=
  let classrooms :=
    match r_classrooms e with
    | Some l => l
    | None => classroom_list e
    end in
  let dept := codes_list e in
  {| se_entry :=
       {| e_day := present (fv (r_day e));
          e_time_slot := present (fv (r_time_slot e));
          e_subject := present (fv (r_subject e));
          e_teacher := present (fv (r_teacher e));
          e_semester := present (fv (r_semester e));
          e_classrooms := Val classrooms;
          e_department_codes := dept |};
     se_description := present (fv (r_description e)) |}.

(** The reply, and [timetables] and [session_memory] after the call. *)
Definition update_timetable {V M} (now : V)
    (timetables : gmap str (session M)) (session_memory : gmap str (gmap str (option V)))
    (data : request V) :
    reply (list conflict * option (gmap str (option V)))
    * gmap str (session M) * gmap str (gmap str (option V)) :=
  let session_id := q_session_id data in
  let timetable := q_timetable data in
  let mem_updates :=
    match q_memory_updates data with
    | Absent => Some ∅
    | Null => None
    | Val d => Some d
    end in
  let normalized_tt := normalize_entry <$> default [] timetable in
  match session_id ≫= λ sid, pair sid <$> timetables !! sid with
  | Some (sid, stored) =>
      let timetables :=
        <[sid := {| sd_timetable := normalized_tt; sd_conflicts := sd_conflicts stored;
                    sd_metadata := sd_metadata stored |}]> timetables in
      let generator :=
        {| teachers := []; subjects := []; classrooms := []; time_slots := []; days := [];
           semesters := []; timetable := se_entry <$> normalized_tt; conflicts := [] |} in
      match detect_conflicts generator with
      | None => (ServerError, timetables, session_memory)
      | Some generator =>
          let timetables :=
            <[sid := {| sd_timetable := normalized_tt; sd_conflicts := conflicts generator;
                        sd_metadata := sd_metadata stored |}]> timetables in
          let session_memory :=
            match session_memory !! sid, mem_updates with
            | Some m, Some d => <[sid := merge_updates now d m]> session_memory
            | _, _ => session_memory
            end in
          (Success (conflicts generator, session_memory !! sid), timetables, session_memory)
      end
  | None => (SessionNotFound, timetables, session_memory)
  end.
End Update.

(** [get_conflicts] *)
Definition get_conflicts {M} (timetables : gmap str (session M)) (session_id : str) :
    reply (list conflict) :=
  match timetables !! session_id with
  | Some stored => Success (sd_conflicts stored)
  | None => SessionNotFound
  end.

(** [get_memory], [update_memory] and [clear_memory]: the reply and
    [session_memory] after the call. *)
Definition get_memory {V} (session_memory : gmap str (gmap str (option V)))
    (session_id : str) : reply (gmap str (option V)) :=
  match session_memory !! session_id with
  | Some m => Success m
  | None => SessionNotFound
  end.

Definition update_memory {V} (now : V) (session_memory : gmap str (gmap str (option V)))
    (session_id : str) (json : option (gmap str (option V))) :
    reply (gmap str (option V)) * gmap str (gmap str (option V)) :=
  let data := default ∅ json in
  let session_memory :=
    if decide (is_Some (session_memory !! session_id)) then session_memory
    else <[session_id := ∅]> session_memory in
  let m := merge_updates now data (default ∅ (session_memory !! session_id)) in
  let session_memory := <[session_id := m]> session_memory in
  (Success m, session_memory).

Definition clear_memory {V} (session_memory : gmap str (gmap str (option V)))
    (session_id : str) : reply unit * gmap str (gmap str (option V)) :=
  if decide (is_Some (session_memory !! session_id))
  then (Success (), delete session_id session_memory)
  else (SessionNotFound, session_memory).

(** ** Sort keys *)

(** The key [rank_slots_for_semester] sorts a (day, slot) by. *)
Definition slot_key (days_order slots_order : list str) (st : state) (semester : pyval)
    (ds : str * str) : option (Z * nat * nat) :=
  i ← index ds.1 days_order;
  j ← index ds.2 slots_order;
  Some (_rank_slots (cohort_load st) ds.1 ds.2 semester
        + load_of (cohort_load st) semester ds.1 * 10, i, j).

(** The key [all_candidate_assignments] sorts a candidate by. *)
Definition candidate_key (lower : str → str) (days_order slots_order : list str) (st : state)
    (cand : str * str * teacher * str) : option (Z * nat * nat * str * str) :=
  let '(day, slot, t, c) := cand in
  t_load ← teacher_load days_order slots_order st t;
  i ← index day days_order;
  j ← index slot slots_order;
  Some (t_load, i, j, lower (t_name t), c).

(** ** Example inputs *)

(** The example with two sessions to place, and the candidates of its
    subject in the initial state. *)
Definition demo_pair : TimetableGenerator := demo (Val 2).

Definition demo_pair_subject : subject := mk_subject "math" (Val 2).

Definition demo_pair_feasible : list (str * str * teacher * str) :=
  default []
    (all_candidate_assignments lower_ascii (classrooms demo_pair) (days demo_pair)
       (time_slots demo_pair) (build_subject_to_teachers lower_ascii (teachers demo_pair))
       (initial_state demo_pair) demo_pair_subject).

(** A stored session with a shortfall on record, and a request that
    edits its timetable to the one of [edited]. *)
Definition demo_session : session unit :=
  {| sd_timetable := [];
     sd_conflicts := [Shortfall General [str_of_string "math"] 1 [] []];
     sd_metadata := () |}.

Definition demo_timetables : gmap str (session unit) :=
  {[ str_of_string "s1" := demo_session ]}.

Definition demo_memory : gmap str (gmap str (option str)) :=
  {[ str_of_string "s1" := {[ str_of_string "days" := Some (str_of_string "Mon") ]} ]}.

Definition demo_request : request str :=
  {| q_session_id := Some (str_of_string "s1");
     q_timetable := Some (raw_of_entry <$> timetable edited);
     q_memory_updates := Absent |}.

(** ** The tables of the exports *)

(** Both exports compute the texts of a table from the stored session
    and hand them to a layout library (openpyxl, reportlab), which can
    refuse them: a control character in a cell, a cell too tall for a
    page. The libraries are not modelled: [render] stands for all the
    route does with the texts once they are computed (the cells, tables
    and styles, [wb.save] or [doc.build]), and yields the document or
    fails. Every failure, of the route's own code or of the library, is
    answered with a server error. *)

(** [sep.join(l)] *)
Fixpoint join (sep : str) (l : list str) : str :=
  match l with
  | [] => []
  | [x] => x
  | x :: l' => x ++ sep ++ join sep l'
  end.

(** [f"{v}"] of a string or [None]. *)
Definition fmt (v : pyval) : str := default (str_of_string "None") v.

(** [v or '-'] *)
Definition or_dash (v : pyval) : str :=
  match v with
  | Some (c :: s) => c :: s
  | _ => str_of_string "-"
  end.

Definition comma : str := str_of_string ", ".
Definition newline : str := [10%N].
Definition excel_sep : str := newline ++ newline.
Definition themed_sep : str := [32%N; 8226%N; 32%N].
Definition pdf_sep : str := newline ++ themed_sep ++ newline.

(** What [metadata] holds of a session. *)
Record metadata := {
  md_classrooms : list str;
  md_days : list str;
  md_time_slots : list str;
  md_semesters : list str
}.

(** [[e for e in timetable_data if e['day'] == day and e['time_slot'] == slot]]:
    ['time_slot'] is only read of an entry whose day matches. *)
Fixpoint entries_at (day slot : str) (tt : list stored_entry) : option (list stored_entry) :=
  match tt with
  | [] => Some []
  | e :: rest =>
      d ← getitem (e_day (se_entry e));
      keep ← (if decide (d = Some day)
              then s ← getitem (e_time_slot (se_entry e)); Some (bool_decide (s = Some slot))
              else Some false);
      rest' ← entries_at day slot rest;
      Some (if keep : bool then e :: rest' else rest')
  end.

(** The text of one entry in a cell, the same in both exports. *)
Definition format_block (e : stored_entry) : option str :=
  let cls_list := get_list (e_classrooms (se_entry e)) in
  let classroom_label :=
    match cls_list with [] => str_of_string "-" | _ => join comma cls_list end in
  subject ← getitem (e_subject (se_entry e));
  t ← getitem (e_teacher (se_entry e));
  let block_lines :=
    [classroom_label ++ str_of_string ": " ++ fmt subject;
     fmt t ++ str_of_string " (" ++
       fmt (get_default (e_semester (se_entry e)) (Some (str_of_string "-"))) ++
       str_of_string ")"]
    ++ match e_department_codes (se_entry e) with
       | [] => []
       | codes => [str_of_string "Dept: " ++ join comma codes]
       end
    ++ match se_description e with
       | Val (c :: s) => [c :: s]
       | _ => []
       end in
  Some (join newline block_lines).

Definition cell_text (sep : str) (tt : list stored_entry) (day slot : str) : option str :=
  entries ← entries_at day slot tt;
  formatted ← mapM format_block entries;
  Some (join sep formatted).

(** The header row, then one row per day: the day and one cell per slot. *)
Definition table_rows (sep : str) (days time_slots : list str) (tt : list stored_entry) :
    option (list (list str)) :=
  rows ← mapM (λ day,
                 cells ← mapM (cell_text sep tt day) time_slots;
                 Some (day :: cells)) days;
  Some ((str_of_string "Day / Time" :: time_slots) :: rows).

(** One row of the conflicts page: [", ".join] raises on a subject that
    is [None]. *)
Definition conflict_row (c : conflict) : option (list str) :=
  let dash := str_of_string "-" in
  match c with
  | TeacherConflict t d s subs =>
      subs ← mapM id subs;
      Some [str_of_string "Teacher"; or_dash d; or_dash s; or_dash t; dash; dash;
            join comma subs; []]
  | ClassroomConflict r d s subs =>
      subs ← mapM id subs;
      Some [str_of_string "Classroom"; or_dash d; or_dash s; dash; or_dash (Some r); dash;
            join comma subs; []]
  | StudentConflict sem d s subs =>
      subs ← mapM id subs;
      Some [str_of_string "Student"; or_dash d; or_dash s; dash; dash; or_dash sem;
            join comma subs; []]
  | Shortfall sem subs _ suggestions _ =>
      Some [str_of_string "Student"; dash; dash; dash; dash; or_dash sem;
            join comma subs; join comma suggestions]
  | ValidationShortfall sem subs _ =>
      Some [str_of_string "Student"; dash; dash; dash; dash; or_dash sem;
            join comma subs; []]
  end.

Definition conflict_headers : list str :=
  str_of_string <$> ["Type"; "Day"; "Time"; "Teacher"; "Classroom"; "Semester"; "Subjects";
                     "Suggestions"]%string.

(** [conflict_rows], built only [if conflicts]. *)
Definition conflict_rows (cs : list conflict) : option (option (list (list str))) :=
  match cs with
  | [] => Some None
  | _ => rows ← mapM conflict_row cs; Some (Some (conflict_headers :: rows))
  end.

(** [export_excel]: [rows] are the values assigned to the cells of the
    sheet below its title. *)
Definition export_excel {Doc : Type}
    (render : session metadata → list (list str) → option Doc)
    (timetables : gmap str (session metadata)) (session_id : str) : reply Doc :=
  match timetables !! session_id with
  | None => SessionNotFound
  | Some stored =>
      let metadata := sd_metadata stored in
      match table_rows excel_sep (md_days metadata) (md_time_slots metadata)
              (sd_timetable stored) with
      | Some rows =>
          match render stored rows with
          | Some doc => Success doc
          | None => ServerError
          end
      | None => ServerError
      end
  end.

(** [export_pdf]: [table_data] and the rows of the conflicts page are
    what the two [Table]s are made of. *)
Definition export_pdf {Doc : Type}
    (render : session metadata → list (list str) → option (list (list str)) → option Doc)
    (timetables : gmap str (session metadata)) (session_id : str) : reply Doc :=
  match timetables !! session_id with
  | None => SessionNotFound
  | Some stored =>
      let metadata := sd_metadata stored in
      match table_rows pdf_sep (md_days metadata) (md_time_slots metadata)
              (sd_timetable stored) with
      | Some table_data =>
          match conflict_rows (sd_conflicts stored) with
          | Some page =>
              match render stored table_data page with
              | Some doc => Success doc
              | None => ServerError
              end
          | None => ServerError
          end
      | None => ServerError
      end
  end.

(** What [generate_timetable] stores for the session of a run. *)
Definition stored_result (self : TimetableGenerator) : session metadata :=
  {| sd_timetable := (λ e, {| se_entry := e; se_description := Absent |}) <$> timetable self;
     sd_conflicts := conflicts self;
     sd_metadata := {| md_classrooms := classrooms self; md_days := days self;
                       md_time_slots := time_slots self; md_semesters := semesters self |} |}.

(** The subjects a collision record lists. *)
Definition collision_subjects (c : conflict) : list pyval :=
  match c with
  | TeacherConflict _ _ _ subs | ClassroomConflict _ _ _ subs | StudentConflict _ _ _ subs =>
      subs
  | _ => []
  end.

(** Two entries of one teacher at one (day, slot), the second without a
    subject, and the session once a request has put them there. *)
Definition unnamed_request : request str :=
  {| q_session_id := Some (str_of_string "s1");
     q_timetable :=
       Some [raw_of_entry (mk_entry "Mon" "9" "math" "Ann" "R1");
             {| r_day := Val (str_of_string "Mon"); r_time_slot := Val (str_of_string "9");
                r_subject := Absent; r_teacher := Val (str_of_string "Ann");
                r_semester := Absent; r_classrooms := None; r_classroom := Absent;
                r_department_codes := CodesNone; r_description := Absent |}];
     q_memory_updates := Absent |}.

Definition demo_stored : gmap str (session metadata) :=
  {[ str_of_string "s1" :=
       {| sd_timetable := []; sd_conflicts := [];
          sd_metadata := {| md_classrooms := [str_of_string "R1"];
                            md_days := [str_of_string "Mon"];
                            md_time_slots := [str_of_string "9"];
                            md_semesters := [] |} |} ]}.

Definition demo_edited : gmap str (session metadata) :=
  (Update.update_timetable (str_of_string "now") demo_stored demo_memory unnamed_request).1.2.

Definition demo_edited_session : session metadata :=
  default {| sd_timetable := []; sd_conflicts := [];
             sd_metadata := {| md_classrooms := []; md_days := []; md_time_slots := [];
                               md_semesters := [] |} |}
    (demo_edited !! str_of_string "s1").

(** * Department codes *)

Lemma lstrip_decompose (s : str) :
  ∃ pre, s = pre ++ lstrip s ∧ Forall (λ c, is_space c = true) pre.
Proof.
  induction s as [|c s IH]; simpl.
  - by exists [].
  - destruct (is_space c) eqn:Hc.
    + destruct IH as (pre & Heq & Hpre). exists (c :: pre). split.
      * simpl. by f_equal.
      * by constructor.
    + by exists [].
Qed.

Lemma lstrip_head (s : str) c s' : lstrip s = c :: s' → is_space c = false.
Proof.
  induction s as [|a s IH]; simpl; [done|].
  destruct (is_space a) eqn:Ha; [done|]. by intros [= <- _].
Qed.

Lemma strip_head (s : str) c s' : strip s = c :: s' → is_space c = false.
Proof.
  unfold strip. intros Hs.
  destruct (lstrip_decompose (rev (lstrip s))) as (pre & Heq & _).
  apply (f_equal (@rev N)) in Heq. rewrite rev_involutive, rev_app_distr, Hs in Heq.
  simpl in Heq. by eapply lstrip_head.
Qed.

Lemma split_ws_open (s : str) (w : str) : split_ws s (Some w) ≠ [].
Proof.
  revert w. induction s as [|c s IH]; intros w; simpl; [done|].
  destruct (is_space c); [done|]. apply IH.
Qed.

Lemma split_ws_strip (d : str) : strip d ≠ [] → is_Some (head (split_ws (strip d) None)).
Proof.
  destruct (strip d) as [|c s] eqn:Hs; [done|]. intros _.
  simpl. rewrite (strip_head _ _ _ Hs).
  pose proof (split_ws_open s (default [] None ++ [c])) as Hne.
  destruct (split_ws s _); [done|]. by eexists.
Qed.

Lemma code_by_separator_find (seps : list N) (raw : str) :
  code_by_separator seps raw =
    (λ sep, strip (split1_head sep raw)) <$> List.find (λ sep, contains sep raw) seps.
Proof.
  induction seps as [|sep seps IH]; simpl; [done|].
  destruct (contains sep raw); [|done].
  simpl. by case_bool_decide.
Qed.

Lemma collect_codes_step (d : str) (depts codes : list str) :
  collect_codes (d :: depts) codes =
    collect_codes depts (codes ++ option_list (dept_code_by_priority d)).
Proof.
  cbn [collect_codes]. unfold dept_code_by_priority.
  rewrite code_by_separator_find. cbv zeta.
  case_bool_decide as Hraw.
  - rewrite Hraw. simpl. by rewrite app_nil_r.
  - destruct (List.find _ _) as [sep|] eqn:Hfind;
      cbn [fmap option_fmap option_map mbind option_bind].
    + unfold nonempty. case_bool_decide; simpl; by rewrite ?app_nil_r.
    + destruct (split_ws_strip d Hraw) as [tok Htok]. rewrite Htok.
      cbn [mbind option_bind]. unfold nonempty.
      case_bool_decide; simpl; by rewrite ?app_nil_r.
Qed.

Lemma collect_codes_omap (depts codes : list str) :
  collect_codes depts codes = Some (codes ++ omap dept_code_by_priority depts).
Proof.
  revert codes. induction depts as [|d depts IH]; intros codes.
  - simpl. by rewrite app_nil_r.
  - rewrite collect_codes_step, IH, <- app_assoc. do 2 f_equal.
    simpl. by destruct (dept_code_by_priority d).
Qed.

Lemma dedup_first_filter (P : str → Prop) `{∀ x, Decision (P x)} (l : list str) :
  dedup_first (filter P l) = filter P (dedup_first l).
Proof.
  induction l as [|x l IH]; simpl; [done|].
  rewrite !filter_cons. destruct (decide (P x)) as [Hx|Hx]; simpl.
  - f_equal. rewrite IH, !list_filter_filter.
    apply list_filter_iff. tauto.
  - rewrite IH, list_filter_filter. apply list_filter_iff.
    intros y. split; [|tauto]. intros Hy. split; [done|]. by intros ->.
Qed.

Lemma uniq_loop_dedup (codes : list str) (seen : gset str) (uniq : list str) :
  uniq_loop codes seen uniq = uniq ++ dedup_first (filter (λ c, c ∉ seen) codes).
Proof.
  revert seen uniq. induction codes as [|c codes IH]; intros seen uniq; simpl.
  - by rewrite app_nil_r.
  - rewrite filter_cons. case_bool_decide as Hc.
    + rewrite decide_False by tauto. apply IH.
    + rewrite decide_True by done. rewrite IH, <- app_assoc. simpl. do 2 f_equal.
      rewrite <- dedup_first_filter, list_filter_filter.
      f_equal. apply list_filter_iff. set_solver.
Qed.

Lemma filter_all {A} (P : A → Prop) `{∀ x, Decision (P x)} (l : list A) :
  (∀ x, P x) → filter P l = l.
Proof.
  intros HP. induction l as [|x l IH]; [done|].
  by rewrite filter_cons_True, IH.
Qed.

Lemma extract_dept_codes_by_priority (s : subject) :
  extract_all_dept_codes s = dept_codes_by_priority (get_list (s_departments s)).
Proof.
  unfold extract_all_dept_codes, dept_codes_by_priority.
  destruct (get_list (s_departments s)) as [|d depts] eqn:Hd; [done|].
  rewrite collect_codes_omap, uniq_loop_dedup. simpl.
  f_equal. apply filter_all. set_solver.
Qed.

(** C6 fails as worded: with a hyphen before an en dash the code cuts at
    the en dash, where the wording cuts at the hyphen. *)
Lemma dept_code_claimed_counterexample :
  extract_all_dept_codes
    (with_departments (Val [[65; 45; 66; 8211; 67]%N]) (mk_subject "s" Absent))
    = [[65; 45; 66]%N]
  ∧ dept_codes_claimed [[65; 45; 66; 8211; 67]%N] = [[65]%N]
  ∧ extract_all_dept_codes
      (with_departments (Val [[65; 45; 66; 8211; 67]%N]) (mk_subject "s" Absent))
      ≠ dept_codes_claimed [[65; 45; 66; 8211; 67]%N].
Proof. split_and!; [vm_compute; reflexivity..|vm_compute; discriminate]. Qed.

(** C6, amended: each department string is trimmed; if it holds an en
    dash, the code is the trimmed text before the first en dash; else if
    it holds an em dash, the trimmed text before the first em dash; else
    if it holds a hyphen, the trimmed text before the first hyphen; else
    its first whitespace-delimited token.  Empty codes are skipped and
    duplicates removed, the first occurrence kept. *)
Theorem dept_codes_rule (s : subject) (depts : list str) :
  extract_all_dept_codes (with_departments (Val depts) s) = dept_codes_by_priority depts.
Proof. by rewrite extract_dept_codes_by_priority. Qed.

(** * The conflict detector *)

Section Buckets.
Context {K A B : Type} `{EqDecision K} (key : B → K) (val : B → A).

Lemma bucket_of_weaken l x kb : bucket_of key val l kb → bucket_of key val (l ++ [x]) kb.
Proof.
  intros (ps & Hv & Hsub & Hk). exists ps. split_and!; [done| |done].
  by apply sublist_inserts_r.
Qed.

Lemma setdefault_append_buckets l x d :
  Forall (bucket_of key val l) d →
  Forall (bucket_of key val (l ++ [x])) (setdefault_append (key x) (val x) d).
Proof.
  induction d as [|[k b] d IH]; intros Hd; simpl.
  - constructor; [|done]. exists [x]. split_and!; [done| |by constructor].
    by apply sublist_inserts_l.
  - inversion_clear Hd as [|? ? Hb Hd']. case_decide as Hk.
    + constructor.
      * destruct Hb as (ps & Hv & Hsub & Hks). simpl in *. subst k.
        exists (ps ++ [x]). split_and!.
        -- by rewrite fmap_app, Hv.
        -- by apply sublist_app.
        -- apply Forall_app. split; [done|by constructor].
      * eapply Forall_impl; [exact Hd'|]. intros kb. apply bucket_of_weaken.
    + constructor; [by apply bucket_of_weaken|by apply IH].
Qed.

Lemma fill_buckets l0 d0 l :
  Forall (bucket_of key val l0) d0 →
  Forall (bucket_of key val (l0 ++ l)) (fill key val d0 l).
Proof.
  revert l0 d0. induction l as [|x l IH]; intros l0 d0 Hd; simpl.
  - by rewrite app_nil_r.
  - replace (l0 ++ x :: l) with ((l0 ++ [x]) ++ l) by by rewrite <- app_assoc.
    apply IH. by apply setdefault_append_buckets.
Qed.

Lemma fill_buckets_nil l : Forall (bucket_of key val l) (fill key val [] l).
Proof. apply (fill_buckets [] []). constructor. Qed.

Lemma bucket_small l kb :
  NoDup (key <$> l) → bucket_of key val l kb → (length kb.2 ≤ 1)%nat.
Proof.
  intros Hnd (ps & -> & Hsub & Hk). rewrite length_fmap.
  assert (NoDup (key <$> ps)) as Hps.
  { apply (sublist_NoDup (key <$> ps) (key <$> l)); [done|by apply fmap_sublist]. }
  destruct ps as [|p [|q ps]]; simpl; [lia|lia|].
  exfalso. inversion_clear Hk as [|? ? Hp Hk']. inversion_clear Hk' as [|? ? Hq _].
  simpl in Hps. rewrite Hp, Hq in Hps. apply NoDup_cons in Hps as [Hin _].
  apply Hin. left.
Qed.

Lemma bucket_Forall (P : B → Prop) (Q : A → Prop) l kb :
  (∀ x, P x → Q (val x)) → Forall P l → bucket_of key val l kb → Forall Q kb.2.
Proof.
  intros HPQ Hl (ps & -> & Hsub & _). apply Forall_fmap.
  rewrite Forall_forall in Hl. apply Forall_forall. intros x Hx.
  apply HPQ, Hl. by eapply elem_of_sublist.
Qed.
End Buckets.

Lemma getitem_present (f : field str) : f ≠ Absent → getitem f = Some (fv f).
Proof. by destruct f. Qed.

Lemma index_entries_fill (tt : list entry) indexed :
  Forall wf_entry tt →
  index_entries tt indexed = Some (fill cell_of id indexed tt).
Proof.
  revert indexed. induction tt as [|e tt IH]; intros indexed Hwf; [done|].
  inversion_clear Hwf as [|? ? (Hd & Hs & _) Hwf']. simpl.
  rewrite (getitem_present _ Hd), (getitem_present _ Hs). simpl.
  by apply IH.
Qed.

Lemma foldl_bind {S X Y} (f : S → Y → S) (g : X → list Y) (s : S) (l : list X) :
  foldl (λ s x, foldl f s (g x)) s l = foldl f s (l ≫= g).
Proof.
  revert s. induction l as [|x l IH]; intros s; simpl; [done|].
  by rewrite foldl_app, IH.
Qed.

Lemma group_entries_fill (es : list entry) tm cm chm :
  Forall wf_entry es →
  group_entries es tm cm chm =
    Some (fill (λ e, fv (e_teacher e)) id tm es,
          fill fst snd cm (es ≫= room_pairs),
          fill cohort_of id chm es).
Proof.
  revert tm cm chm. induction es as [|e es IH]; intros tm cm chm Hwf; [done|].
  inversion_clear Hwf as [|? ? (_ & _ & Ht & _) Hwf']. simpl.
  rewrite (getitem_present _ Ht). simpl. rewrite IH by done.
  unfold fill at 5. rewrite foldl_app. do 2 f_equal.
  unfold room_pairs. by rewrite foldl_fmap.
Qed.

Lemma report_is_Some {K} (mk : K → list pyval → conflict) (m : odict K entry) :
  Forall (λ kb, Forall (λ e, e_subject e ≠ Absent) kb.2) m → is_Some (report mk m).
Proof.
  intros Hm. unfold report.
  destruct (mapM _ m) as [per_key|] eqn:Hmap; [by eexists|].
  apply mapM_None in Hmap. apply Exists_exists in Hmap as ([k arr] & Hin & Hnone).
  rewrite Forall_forall in Hm. specialize (Hm _ Hin). simpl in *.
  destruct (1 <? length arr)%nat; [|done].
  destruct (mapM _ arr) as [subs|] eqn:Hsubs; [done|].
  apply mapM_None in Hsubs. apply Exists_exists in Hsubs as (e & He & Hnone').
  rewrite Forall_forall in Hm. specialize (Hm _ He).
  by rewrite getitem_present in Hnone'.
Qed.

Lemma mapM_all_nil {X Y} (f : X → option (list Y)) (l : list X) :
  Forall (λ x, f x = Some []) l → mapM f l = Some (replicate (length l) []).
Proof.
  induction 1 as [|x l Hx _ IH]; [done|].
  cbn. rewrite Hx. cbn. by rewrite IH.
Qed.

Lemma concat_replicate_nil {Y} (n : nat) : concat (replicate n (@nil Y)) = [].
Proof. by induction n. Qed.

Lemma report_quiet {K} (mk : K → list pyval → conflict) (m : odict K entry) :
  Forall (λ kb, (length kb.2 ≤ 1)%nat) m → report mk m = Some [].
Proof.
  intros Hm. unfold report. rewrite mapM_all_nil.
  - cbn. by rewrite concat_replicate_nil.
  - eapply Forall_impl; [exact Hm|]. intros kb Hkb. cbv beta in *.
    destruct (1 <? length kb.2)%nat eqn:Hlt; [apply Nat.ltb_lt in Hlt; lia|done].
Qed.

Lemma collision_free_sublist (es tt : list entry) :
  es `sublist_of` tt → collision_free tt → collision_free es.
Proof.
  intros Hsub (Ht & Hr & Hc). split_and!.
  - apply (sublist_NoDup _ (teacher_key <$> tt)); [done|by apply fmap_sublist].
  - apply (sublist_NoDup _ (tt ≫= room_keys)); [done|by apply bind_sublist].
  - apply (sublist_NoDup _ (cohort_key <$> tt)); [done|by apply fmap_sublist].
Qed.

Lemma same_cell_teachers (cell : pyval * pyval) (es : list entry) :
  Forall (λ e, cell_of e = cell) es →
  NoDup (teacher_key <$> es) → NoDup ((λ e, fv (e_teacher e)) <$> es).
Proof.
  intros Hcell Hnd. apply (NoDup_fmap_1 (pair cell)).
  rewrite <- list_fmap_compose.
  erewrite list_fmap_ext; [exact Hnd|].
  intros i e He. unfold teacher_key. simpl.
  rewrite Forall_forall in Hcell. f_equal. symmetry. apply Hcell.
  by eapply list_elem_of_lookup_2.
Qed.

Lemma same_cell_cohorts (cell : pyval * pyval) (es : list entry) :
  Forall (λ e, cell_of e = cell) es →
  NoDup (cohort_key <$> es) → NoDup (cohort_of <$> es).
Proof.
  intros Hcell Hnd. apply (NoDup_fmap_1 (pair cell)).
  rewrite <- list_fmap_compose.
  erewrite list_fmap_ext; [exact Hnd|].
  intros i e He. unfold cohort_key. simpl.
  rewrite Forall_forall in Hcell. f_equal. symmetry. apply Hcell.
  by eapply list_elem_of_lookup_2.
Qed.

Lemma same_cell_rooms (cell : pyval * pyval) (es : list entry) :
  Forall (λ e, cell_of e = cell) es →
  NoDup (es ≫= room_keys) → NoDup (fst <$> (es ≫= room_pairs)).
Proof.
  intros Hcell Hnd. apply (NoDup_fmap_1 (pair cell)).
  replace (pair cell <$> (fst <$> (es ≫= room_pairs))) with (es ≫= room_keys); [done|].
  clear Hnd. induction Hcell as [|e es He _ IH]; [done|].
  rewrite !bind_cons, !fmap_app, <- IH. f_equal.
  unfold room_keys, room_pairs. rewrite He, <- !list_fmap_compose. done.
Qed.

Lemma room_pairs_wf (es : list entry) :
  Forall wf_entry es → Forall (λ p, wf_entry p.2) (es ≫= room_pairs).
Proof.
  intros Hwf. apply Forall_forall. intros [c e] Hin.
  apply list_elem_of_bind in Hin as (e' & Hin & He').
  unfold room_pairs in Hin. apply list_elem_of_fmap in Hin as (c' & [= -> ->] & _).
  rewrite Forall_forall in Hwf. by apply Hwf.
Qed.

Lemma scan_group_is_Some (cell : pyval * pyval) (es : list entry) :
  Forall wf_entry es → is_Some (scan_group (cell, es)).
Proof.
  intros Hwf. destruct cell as [day slot]. unfold scan_group.
  rewrite group_entries_fill by done. cbn [mbind option_bind].
  assert (∀ e, wf_entry e → e_subject e ≠ Absent) as Hsub by (by intros e (_ & _ & _ & ?)).
  destruct (report_is_Some (λ t, TeacherConflict t day slot)
              (fill (λ e, fv (e_teacher e)) id [] es)) as [a ->].
  { eapply Forall_impl; [apply fill_buckets_nil|]. intros kb Hkb.
    eapply bucket_Forall; [|exact Hwf|exact Hkb]. done. }
  destruct (report_is_Some (λ c, ClassroomConflict c day slot)
              (fill fst snd [] (es ≫= room_pairs))) as [b ->].
  { eapply Forall_impl; [apply fill_buckets_nil|]. intros kb Hkb.
    eapply bucket_Forall; [|apply room_pairs_wf, Hwf|exact Hkb]. simpl. auto. }
  destruct (report_is_Some (λ s, StudentConflict s day slot)
              (fill cohort_of id [] es)) as [c ->].
  { eapply Forall_impl; [apply fill_buckets_nil|]. intros kb Hkb.
    eapply bucket_Forall; [|exact Hwf|exact Hkb]. done. }
  by eexists.
Qed.

Lemma scan_group_quiet (cell : pyval * pyval) (es : list entry) :
  Forall wf_entry es → Forall (λ e, cell_of e = cell) es → collision_free es →
  scan_group (cell, es) = Some [].
Proof.
  intros Hwf Hcell (Ht & Hr & Hc). destruct cell as [day slot]. unfold scan_group.
  rewrite group_entries_fill by done. cbn [mbind option_bind].
  rewrite !report_quiet; [done| | |].
  - eapply Forall_impl; [apply fill_buckets_nil|]. intros kb.
    apply bucket_small. by eapply same_cell_teachers.
  - eapply Forall_impl; [apply fill_buckets_nil|]. intros kb.
    apply bucket_small. by eapply same_cell_rooms.
  - eapply Forall_impl; [apply fill_buckets_nil|]. intros kb.
    apply bucket_small. by eapply same_cell_cohorts.
Qed.

Lemma indexed_groups (tt : list entry) :
  Forall (λ g : pyval * pyval * list entry,
            g.2 `sublist_of` tt ∧ Forall (λ e, cell_of e = g.1) g.2)
         (fill cell_of id [] tt).
Proof.
  eapply Forall_impl; [apply (fill_buckets_nil cell_of id)|].
  intros [cell es] (ps & Hes & Hsub & Hcell). simpl in *.
  rewrite list_fmap_id in Hes. by subst.
Qed.

Lemma scan_conflicts_is_Some (tt : list entry) :
  Forall wf_entry tt → is_Some (scan_conflicts tt).
Proof.
  intros Hwf. unfold scan_conflicts. rewrite index_entries_fill by done.
  cbn [mbind option_bind].
  destruct (mapM scan_group (fill cell_of id [] tt)) as [per_group|] eqn:Hmap; [by eexists|].
  apply mapM_None in Hmap. apply Exists_exists in Hmap as ([cell es] & Hin & Hnone).
  pose proof (indexed_groups tt) as Hgroups. rewrite Forall_forall in Hgroups.
  destruct (Hgroups _ Hin) as [Hsub _]. simpl in Hsub.
  destruct (scan_group_is_Some cell es) as [? Hsome]; [|congruence].
  rewrite Forall_forall in Hwf. apply Forall_forall. intros e He.
  apply Hwf. by eapply elem_of_sublist.
Qed.

Lemma scan_conflicts_quiet (tt : list entry) :
  Forall wf_entry tt → collision_free tt → scan_conflicts tt = Some [].
Proof.
  intros Hwf Hfree. unfold scan_conflicts. rewrite index_entries_fill by done.
  cbn [mbind option_bind]. rewrite mapM_all_nil.
  - cbn. by rewrite concat_replicate_nil.
  - eapply Forall_impl; [apply indexed_groups|].
    intros [cell es] [Hsub Hcell]. simpl in Hsub, Hcell.
    apply scan_group_quiet; [|done|by eapply collision_free_sublist].
    rewrite Forall_forall in Hwf. apply Forall_forall. intros e He.
    apply Hwf. by eapply elem_of_sublist.
Qed.

Lemma scan_conflicts_nil : scan_conflicts [] = Some [].
Proof. reflexivity. Qed.

(** C8: [detect_conflicts] returns on every well-formed entry list, and
    reports nothing on the empty one. *)
Theorem detect_conflicts_never_raises (self : TimetableGenerator) :
  Forall wf_entry (timetable self) →
  ∃ found,
    detect_conflicts self
      = Some (set_results self (timetable self) (conflicts self ++ found))
    ∧ (timetable self = [] → found = []).
Proof.
  intros Hwf. destruct (scan_conflicts_is_Some _ Hwf) as [found Hfound].
  exists found. split.
  - unfold detect_conflicts. by rewrite Hfound.
  - intros Hnil. rewrite Hnil in Hfound. by injection Hfound.
Qed.

(** * Busy grids *)

Section Grid.
Context {K : Type} `{Countable K}.
Implicit Types (g : grid K) (k : K) (d s : str).

Lemma grid_set_item g k d s :
  is_Some (grid_item g k d s) →
  ∃ g', grid_set g k d s = Some g' ∧
    ∀ k' d' s', grid_item g' k' d' s' =
      if decide ((k', d', s') = (k, d, s)) then Some true else grid_item g k' d' s'.
Proof.
  unfold grid_item, grid_set. intros [b Hb].
  destruct (g !! k) as [m|] eqn:Hm; [|done]. simpl in *.
  destruct (m !! d) as [r|] eqn:Hr; [|done]. simpl in *.
  eexists. split; [done|]. intros k' d' s'.
  destruct (decide (k' = k)) as [->|Hk].
  - rewrite lookup_insert_eq. simpl.
    destruct (decide (d' = d)) as [->|Hd].
    + rewrite lookup_insert_eq. simpl.
      destruct (decide (s' = s)) as [->|Hs].
      * by rewrite lookup_insert_eq, decide_True.
      * rewrite lookup_insert_ne by done. rewrite decide_False by congruence.
        by rewrite Hm; simpl; rewrite Hr.
    + rewrite lookup_insert_ne by done. rewrite decide_False by congruence.
      by rewrite Hm.
  - rewrite lookup_insert_ne by done. by rewrite decide_False by congruence.
Qed.

Lemma grid_get_item g k d s : grid_get g k d s = true ↔ grid_item g k d s = Some true.
Proof.
  unfold grid_get. destruct (grid_item g k d s) as [[]|]; simpl; split; congruence.
Qed.

Lemma foldl_insert_lookup {V} (v : V) (l : list K) (m : gmap K V) k :
  foldl (λ m k, <[k := v]> m) m l !! k = if decide (k ∈ l) then Some v else m !! k.
Proof.
  revert m. induction l as [|x l IH]; intros m.
  - destruct (decide (k ∈ [])) as [Hin|_]; [by apply elem_of_nil in Hin|done].
  - cbn [foldl]. rewrite IH.
    destruct (decide (k ∈ l)) as [Hin|Hin], (decide (k ∈ x :: l)) as [Hin'|Hin'];
      try done.
    + exfalso. apply Hin'. by right.
    + apply elem_of_cons in Hin' as [->|?]; [|done]. by rewrite lookup_insert_eq.
    + rewrite lookup_insert_ne; [done|]. intros ->. apply Hin'. left.
Qed.
End Grid.

Lemma foldl_insert_lookup_with {A V} `{Countable K} (f : A → K) (v : V) (l : list A)
    (m : gmap K V) (a : A) :
  a ∈ l → foldl (λ m x, <[f x := v]> m) m l !! f a = Some v.
Proof.
  intros Hin. rewrite <- (foldl_fmap (λ m k, <[k := v]> m) m l f).
  rewrite foldl_insert_lookup, decide_True; [done|]. by apply list_elem_of_fmap_2.
Qed.

Lemma empty_days_item (days_order slots_order : list str) d s :
  d ∈ days_order → s ∈ slots_order →
  empty_days days_order slots_order !! d ≫= (.!! s) = Some false.
Proof.
  intros Hd Hs. unfold empty_days, empty_row.
  rewrite !foldl_insert_lookup, decide_True by done. simpl.
  by rewrite foldl_insert_lookup, decide_True.
Qed.

(** * The scheduling loop *)

Lemma can_place_true st subj t c d s :
  can_place st subj t c d s = true →
  grid_get (teacher_schedule st) (t_name t) d s = false ∧
  grid_get (classroom_schedule st) c d s = false ∧
  grid_get (cohort_schedule st) (semester_of subj) d s = false ∧
  is_teacher_available t d s = true.
Proof.
  unfold can_place.
  destruct (grid_get (teacher_schedule st) _ _ _); [done|].
  destruct (grid_get (classroom_schedule st) _ _ _); [done|].
  destruct (grid_get (cohort_schedule st) _ _ _); [done|].
  destruct (is_teacher_available t d s); done.
Qed.

Section Marked.
Context {K : Type} `{Countable K} (g g' : grid K) (k : K) (d s : str).
Hypothesis marked : ∀ k' d' s', grid_item g' k' d' s' =
  if decide ((k', d', s') = (k, d, s)) then Some true else grid_item g k' d' s'.

Lemma marked_here : grid_get g' k d s = true.
Proof. apply grid_get_item. by rewrite marked, decide_True. Qed.

Lemma marked_mono k' d' s' : grid_get g k' d' s' = true → grid_get g' k' d' s' = true.
Proof. rewrite !grid_get_item, marked. by case_decide. Qed.

Lemma marked_full keys ds ss : grid_full g keys ds ss → grid_full g' keys ds ss.
Proof.
  intros Hfull k' d' s' Hk Hd Hs. rewrite marked. case_decide; [by eexists|].
  by apply Hfull.
Qed.
End Marked.

Lemma NoDup_snoc_fresh {A} (l : list A) (x : A) : NoDup l → x ∉ l → NoDup (l ++ [x]).
Proof.
  intros Hl Hx. apply NoDup_app. split_and!; [done| |apply NoDup_singleton].
  intros y Hy ->%list_elem_of_singleton. done.
Qed.

Lemma cohort_of_placed (semester : pyval) e :
  e_semester e = match semester with Some s => Val s | None => Null end →
  cohort_of e = semester.
Proof. unfold cohort_of. intros ->. by destruct semester. Qed.

Lemma index_is_Some {A} `{EqDecision A} (x : A) (l : list A) : x ∈ l → is_Some (index x l).
Proof.
  induction l as [|y l IH]; [by intros ?%elem_of_nil|].
  intros Hin. simpl. case_decide; [by eexists|].
  apply elem_of_cons in Hin as [->|Hin]; [done|].
  destruct (IH Hin) as [i ->]. by eexists.
Qed.

Lemma mapM_spec {X Y} (f : X → option Y) (P : X → Prop) (Q : Y → Prop) (l : list X) :
  Forall P l → (∀ x, P x → ∃ y, f x = Some y ∧ Q y) →
  ∃ ys, mapM f l = Some ys ∧ Forall Q ys.
Proof.
  intros Hl Hf. induction Hl as [|x l Hx _ (ys & Hys & HQ)]; [by exists []|].
  destruct (Hf x Hx) as (y & Hy & HQy). exists (y :: ys).
  split; [|by constructor]. cbn. rewrite Hy. cbn. by rewrite Hys.
Qed.

Lemma mapM_total {X Y} (f : X → option Y) (P : X → Prop) (l : list X) :
  Forall P l → (∀ x, P x → is_Some (f x)) → is_Some (mapM f l).
Proof.
  intros Hl Hf. destruct (mapM_spec f P (λ _, True) l Hl) as (ys & -> & _); [|by eexists].
  intros x Hx. destruct (Hf x Hx) as [y ->]. by exists y.
Qed.

Lemma Forall_concat {X} (P : X → Prop) (ls : list (list X)) :
  Forall (Forall P) ls → Forall P (concat ls).
Proof. induction 1; simpl; [done|]. by apply Forall_app. Qed.

Lemma anyM_total {X} (f : X → option bool) (P : X → Prop) (l : list X) :
  Forall P l → (∀ x, P x → is_Some (f x)) → is_Some (anyM f l).
Proof.
  intros Hl Hf. induction Hl as [|x l Hx _ IH]; [by eexists|].
  simpl. destruct (Hf x Hx) as [[] ->]; simpl; [by eexists|done].
Qed.

Section SortLemmas.
Context {K A : Type} (ltb : K → K → bool).

Lemma insert_sorted_perm (x : K * A) l : insert_sorted ltb x l ≡ₚ x :: l.
Proof.
  induction l as [|y l IH]; simpl; [done|].
  destruct (ltb y.1 x.1); [|done]. rewrite IH. apply Permutation_swap.
Qed.

Lemma stable_sort_perm (l : list (K * A)) : stable_sort ltb l ≡ₚ l.
Proof.
  induction l as [|x l IH]; simpl; [done|].
  unfold stable_sort in *. by rewrite insert_sorted_perm, IH.
Qed.

Lemma stable_sort_Forall (P : A → Prop) (l : list (K * A)) :
  Forall P (snd <$> l) → Forall P (snd <$> stable_sort ltb l).
Proof. intros Hl. by rewrite stable_sort_perm. Qed.
End SortLemmas.

Lemma place_entry_appends st subj t c d s st' :
  place_entry st subj t c d s = Some st' →
  ∃ e, st_timetable st' = st_timetable st ++ [e] ∧
    entry_position e = Some (d, s) ∧ entry_day e = Some d.
Proof.
  unfold place_entry. intros Hp.
  destruct (grid_set (teacher_schedule st) _ _ _); [|done].
  destruct (grid_set (classroom_schedule st) _ _ _); [|done].
  destruct (grid_set (cohort_schedule st) _ _ _); [|done].
  cbn [mbind option_bind] in Hp. injection Hp as <-. by eexists.
Qed.

Lemma pass1_bookkeeping subj req fd feasible p p' :
  pass1 subj req fd feasible p = Some p' →
  ∃ es, st_timetable (p_state p') = st_timetable (p_state p) ++ es ∧
    p_placed p' = p_placed p + Z.of_nat (length es) ∧
    p_used_positions p' = p_used_positions p ∪ positions_of es ∧
    p_used_days p' = p_used_days p ∪ days_of es ∧
    p_placed p' ≤ Z.max req (p_placed p).
Proof.
  revert p. induction feasible as [|[[[d s] t] c] rest IH]; intros p Hp.
  { injection Hp as <-. exists []. unfold positions_of, days_of. simpl.
    rewrite app_nil_r. split_and!; [done|lia|set_solver|set_solver|lia]. }
  cbn [pass1] in Hp.
  destruct (req <=? p_placed p) eqn:Hbreak.
  { injection Hp as <-. exists []. unfold positions_of, days_of. simpl.
    rewrite app_nil_r. split_and!; [done|lia|set_solver|set_solver|lia]. }
  apply Z.leb_gt in Hbreak.
  destruct (pass1_skips _ _ _ _ _ _); [by apply IH|].
  destruct (can_place _ _ _ _ _ _); [|by apply IH].
  destruct (place_entry _ _ _ _ _ _) as [st'|] eqn:Hpl; [|done].
  cbn [mbind option_bind] in Hp.
  destruct (place_entry_appends _ _ _ _ _ _ _ Hpl) as (e & Htt & Hpos & Hday).
  destruct (IH _ Hp) as (es & Htt' & Hplaced & Hup & Hud & Hle). simpl in *.
  exists (e :: es). unfold positions_of, days_of in *. simpl.
  rewrite Hpos, Hday. simpl. split_and!.
  - by rewrite Htt', Htt, <- app_assoc.
  - lia.
  - rewrite Hup. set_solver.
  - rewrite Hud. set_solver.
  - lia.
Qed.

Section Sched.
Context (lower : str → str) (tchs : list teacher) (subjs : list subject).
Context (cls days slots : list str) (stt : gmap str (list teacher)).
Hypothesis stt_sound : ∀ k ts t, stt !! k = Some ts → t ∈ ts → t ∈ tchs.

Local Abbreviation I := (inv tchs subjs cls days slots).
Local Abbreviation ok := (cand_ok tchs cls days slots).

Lemma place_entry_spec st subj t c d s :
  I st → subj ∈ subjs → t ∈ tchs → c ∈ cls → d ∈ days → s ∈ slots →
  can_place st subj t c d s = true →
  ∃ st' e, place_entry st subj t c d s = Some st' ∧ I st' ∧
    extends_with subj st st' [e] ∧ e_day e = Val d ∧ e_time_slot e = Val s.
Proof.
  intros [Hft Hfc Hfs Hbooked (Hnt & Hnr & Hnc)] Hsubj Ht Hc Hd Hs Hcan.
  apply can_place_true in Hcan as (Hbt & Hbc & Hbs & _).
  destruct (grid_set_item (teacher_schedule st) (t_name t) d s) as (ts & Hts & Mt).
  { apply Hft; [by apply list_elem_of_fmap_2|done..]. }
  destruct (grid_set_item (classroom_schedule st) c d s) as (cs & Hcs & Mc).
  { by apply Hfc. }
  destruct (grid_set_item (cohort_schedule st) (semester_of subj) d s) as (cohs & Hcohs & Ms).
  { apply Hfs; [by apply list_elem_of_fmap_2|done..]. }
  unfold place_entry. rewrite Hts, Hcs, Hcohs. cbn [mbind option_bind].
  set (e := {| e_day := Val d; e_time_slot := Val s; e_subject := Val (s_name subj);
               e_teacher := Val (t_name t);
               e_semester := match semester_of subj with Some s0 => Val s0 | None => Null end;
               e_classrooms := Val [c];
               e_department_codes := extract_all_dept_codes subj |}).
  assert (cohort_of e = semester_of subj) as Hcoh by by apply cohort_of_placed.
  eexists _, e. split; [reflexivity|].
  split_and!; [split; simpl| |done|done].
  - by eapply marked_full.
  - by eapply marked_full.
  - by eapply marked_full.
  - apply Forall_app. split.
    + eapply Forall_impl; [exact Hbooked|].
      intros e' (d' & s' & t' & c' & ? & ? & ? & ? & ? & ? & ? & ?).
      exists d', s', t', c'. simpl. split_and!; try done; by eapply marked_mono.
    + constructor; [|done]. exists d, s, (t_name t), c. simpl.
      split_and!; try done.
      * by eapply marked_here.
      * by eapply marked_here.
      * rewrite Hcoh. by eapply marked_here.
  - rewrite Forall_forall in Hbooked. split_and!.
    + rewrite fmap_app. apply NoDup_snoc_fresh; [done|].
      intros (e' & Hk & Hin)%list_elem_of_fmap.
      destruct (Hbooked _ Hin) as (d' & s' & t' & c' & Hd' & Hs' & Ht' & _ & _ & Hg & _).
      unfold teacher_key, cell_of in Hk. rewrite Hd', Hs', Ht' in Hk. simpl in Hk.
      injection Hk as <- <- <-. congruence.
    + rewrite bind_app. simpl.
      apply NoDup_snoc_fresh; [done|].
      intros (e' & Hk & Hin)%list_elem_of_bind.
      destruct (Hbooked _ Hin) as (d' & s' & t' & c' & Hd' & Hs' & _ & Hc' & _ & _ & Hg & _).
      unfold room_keys, rooms_of, cell_of in Hk. rewrite Hd', Hs', Hc' in Hk. simpl in Hk.
      apply list_elem_of_singleton in Hk. injection Hk as <- <- <-. congruence.
    + rewrite fmap_app. apply NoDup_snoc_fresh; [done|].
      intros (e' & Hk & Hin)%list_elem_of_fmap.
      destruct (Hbooked _ Hin) as (d' & s' & t' & c' & Hd' & Hs' & _ & _ & _ & _ & _ & Hg).
      unfold cohort_key, cell_of in Hk. rewrite Hd', Hs' in Hk. simpl in Hk.
      rewrite Hcoh in Hk. injection Hk as <- <- Hk. rewrite <- Hk in Hg. congruence.
  - split_and!; simpl; try done.
    + constructor; [|done]. by split.
    + constructor; [|done]. by exists c.
Qed.

Lemma extends_with_refl subj st : extends_with subj st st [].
Proof. split_and!; try done. by rewrite app_nil_r. Qed.

Lemma extends_with_trans subj st st' st'' es es' :
  extends_with subj st st' es → extends_with subj st' st'' es' →
  extends_with subj st st'' (es ++ es').
Proof.
  intros (Ht & Hc & Hf & Hr) (Ht' & Hc' & Hf' & Hr'). split_and!.
  - by rewrite Ht', Ht, app_assoc.
  - congruence.
  - by apply Forall_app.
  - by apply Forall_app.
Qed.

Lemma pass1_spec subj req fd feasible p :
  subj ∈ subjs → Forall ok feasible → I (p_state p) →
  ∃ p' es, pass1 subj req fd feasible p = Some p' ∧ I (p_state p') ∧
    extends_with subj (p_state p) (p_state p') es.
Proof.
  intros Hsubj Hok. revert p.
  induction Hok as [|[[[d s] t] c] rest (Hd & Hs & Ht & Hc) _ IH]; intros p HI.
  { exists p, []. eauto using extends_with_refl. }
  simpl in Hd, Hs, Ht, Hc. cbn [pass1].
  destruct (req <=? p_placed p); [exists p, []; eauto using extends_with_refl|].
  destruct (pass1_skips _ _ _ _ _ _); [by apply IH|].
  destruct (can_place _ _ _ _ _ _) eqn:Hcan; [|by apply IH].
  destruct (place_entry_spec _ _ _ _ _ _ HI Hsubj Ht Hc Hd Hs Hcan)
    as (st' & e & -> & HI' & Hext & _). cbn [mbind option_bind].
  lazymatch goal with
  | |- ∃ _ _, pass1 _ _ _ _ ?q = _ ∧ _ =>
      destruct (IH q HI') as (p' & es & Hp & HI'' & Hext')
  end.
  exists p', ([e] ++ es). split_and!; [done..|].
  by eapply extends_with_trans.
Qed.

Lemma pass2_spec subj req feasible st placed :
  subj ∈ subjs → Forall ok feasible → I st →
  ∃ st' placed' es, pass2 subj req feasible st placed = Some (st', placed') ∧ I st' ∧
    extends_with subj st st' es ∧ placed' = placed + Z.of_nat (length es) ∧
    placed' ≤ Z.max req placed.
Proof.
  intros Hsubj Hok. revert st placed.
  induction Hok as [|[[[d s] t] c] rest (Hd & Hs & Ht & Hc) _ IH]; intros st placed HI.
  { exists st, placed, []. split_and!; eauto using extends_with_refl; simpl; lia. }
  simpl in Hd, Hs, Ht, Hc. cbn [pass2].
  destruct (req <=? placed) eqn:Hbreak.
  { exists st, placed, []. split_and!; eauto using extends_with_refl; simpl; lia. }
  apply Z.leb_gt in Hbreak.
  destruct (can_place _ _ _ _ _ _) eqn:Hcan; [|by apply IH].
  destruct (place_entry_spec _ _ _ _ _ _ HI Hsubj Ht Hc Hd Hs Hcan)
    as (st' & e & -> & HI' & Hext & _). cbn [mbind option_bind].
  edestruct (IH st' (placed + 1)) as (st'' & placed' & es & Hp & HI'' & Hext' & -> & Hle);
    [exact HI'|].
  exists st'', (placed + 1 + Z.of_nat (length es)), ([e] ++ es). split_and!; [done..| | |].
  - by eapply extends_with_trans.
  - rewrite length_app. simpl. lia.
  - lia.
Qed.

Lemma teachers_for_sound subj : Forall (λ t, t ∈ tchs) (teachers_for lower stt subj).
Proof.
  unfold teachers_for. destruct (stt !! _) as [ts|] eqn:Hts; simpl; [|done].
  apply Forall_forall. intros t Ht. by eapply stt_sound.
Qed.

Lemma rank_slots_spec st semester :
  ∃ ranked, rank_slots_for_semester days slots st semester = Some ranked ∧
    Forall (λ ds, ds.1 ∈ days ∧ ds.2 ∈ slots) ranked.
Proof.
  unfold rank_slots_for_semester.
  set (ranked := days ≫= _).
  assert (Forall (λ x : Z * str * str, x.1.2 ∈ days ∧ x.2 ∈ slots) ranked) as Hranked.
  { apply Forall_forall. intros [[score d] s] Hin. simpl.
    apply list_elem_of_bind in Hin as (d' & Hin & Hd').
    apply list_elem_of_bind in Hin as (s' & Hin & Hs').
    apply list_elem_of_singleton in Hin. by injection Hin as -> -> ->. }
  lazymatch goal with
  | |- context [mapM ?f ranked] =>
      destruct (mapM_spec f _
        (λ y : Z * nat * nat * (str * str), y.2.1 ∈ days ∧ y.2.2 ∈ slots) _ Hranked)
        as (keyed & -> & Hkeyed)
  end.
  { intros [[score d] s] [Hd Hs]. simpl in Hd, Hs.
    destruct (index_is_Some d days Hd) as [i ->].
    destruct (index_is_Some s slots Hs) as [j ->]. cbn. by eexists. }
  cbn [mbind option_bind]. eexists. split; [done|].
  apply stable_sort_Forall. by apply Forall_fmap.
Qed.

Lemma teacher_load_total st t :
  I st → t ∈ tchs → is_Some (teacher_load days slots st t).
Proof.
  intros HI Ht. unfold teacher_load.
  edestruct (mapM_total (λ d, mapM (λ s, grid_item (teacher_schedule st) (t_name t) d s) slots)
               (λ d, d ∈ days) days) as [cells ->]; [by apply Forall_forall| |by eexists].
  intros d Hd. apply (mapM_total _ (λ s, s ∈ slots)); [by apply Forall_forall|].
  intros s Hs. apply (inv_teachers _ _ _ _ _ _ HI); [by apply list_elem_of_fmap_2|done..].
Qed.

Lemma all_candidate_assignments_spec st subj :
  I st →
  ∃ feasible, all_candidate_assignments lower cls days slots stt st subj = Some feasible ∧
    Forall ok feasible.
Proof.
  intros HI. unfold all_candidate_assignments.
  pose proof (teachers_for_sound subj) as Htfs.
  destruct (teachers_for lower stt subj) as [|t0 tfs0] eqn:Htf; [by exists []|].
  rewrite <- Htf in *. clear Htf.
  destruct (rank_slots_spec st (semester_of subj)) as (ranked & -> & Hranked).
  cbn [mbind option_bind].
  set (Q := Forall (λ y : Z * nat * nat * str * str * (str * str * teacher * str), ok y.2)).
  lazymatch goal with
  | |- context [mapM ?f ranked] =>
      destruct (mapM_spec f _ Q _ Hranked) as (per_slot & -> & Hper_slot)
  end.
  { intros [d s] [Hd Hs]. simpl in Hd, Hs.
    lazymatch goal with
    | |- context [mapM ?f (teachers_for lower stt subj)] =>
        destruct (mapM_spec f _ Q _ Htfs) as (per_teacher & -> & Hper_teacher)
    end.
    { intros t Ht. destruct (negb _); [exists []; split; [done|by constructor]|].
      lazymatch goal with
      | |- context [mapM ?f cls] =>
          destruct (mapM_spec f (λ c, c ∈ cls) Q cls) as (per_room & -> & Hper_room)
      end; [by apply Forall_forall| |].
      - intros c Hc. destruct (can_place _ _ _ _ _ _); [|exists []; split; [done|by constructor]].
        destruct (teacher_load_total st t HI Ht) as [tl ->].
        destruct (index_is_Some d days Hd) as [i ->].
        destruct (index_is_Some s slots Hs) as [j ->]. cbn.
        eexists. split; [done|]. constructor; [|done]. done.
      - cbn. eexists. split; [done|]. by apply Forall_concat. }
    cbn. eexists. split; [done|]. by apply Forall_concat. }
  cbn [mbind option_bind]. eexists. split; [done|].
  apply stable_sort_Forall, Forall_fmap. by apply Forall_concat.
Qed.

Lemma place_sessions_spec st subj :
  I st → subj ∈ subjs →
  ∃ st' placed es, place_sessions lower cls days slots stt st subj = Some (st', placed) ∧
    I st' ∧ extends_with subj st st' es ∧
    placed = Z.of_nat (length es) ∧ placed ≤ Z.max (sessions_required subj) 0.
Proof.
  intros HI Hsubj. unfold place_sessions.
  destruct (all_candidate_assignments_spec st subj HI) as (feasible & -> & Hok).
  cbn [mbind option_bind].
  lazymatch goal with
  | |- context [pass1 subj ?req ?fd feasible ?p] =>
      destruct (pass1_spec subj req fd feasible p Hsubj Hok HI)
        as (p' & es1 & Hp & HI' & Hext);
      destruct (pass1_bookkeeping subj req fd feasible p p' Hp)
        as (es1' & Htt & Hplaced & _ & _ & Hle)
  end.
  rewrite Hp. cbn [mbind option_bind]. simpl in Htt, Hplaced, Hle, Hext.
  assert (es1' = es1) as ->.
  { destruct Hext as (Htt' & _). rewrite Htt' in Htt. by apply app_inv_head in Htt. }
  destruct (p_placed p' <? sessions_required subj) eqn:Hshort.
  - destruct (pass2_spec subj (sessions_required subj) feasible (p_state p') (p_placed p')
                Hsubj Hok HI') as (st' & placed' & es2 & -> & HI'' & Hext' & -> & Hle').
    exists st', (p_placed p' + Z.of_nat (length es2)), (es1 ++ es2). split_and!; [done..| | |].
    + by eapply extends_with_trans.
    + rewrite length_app. lia.
    + lia.
  - exists (p_state p'), (p_placed p'), es1. split_and!; [done..|lia|lia].
Qed.

Lemma teacher_free_total st d s t :
  I st → t ∈ tchs → d ∈ days → s ∈ slots → is_Some (teacher_free st d s t).
Proof.
  intros HI Ht Hd Hs. unfold teacher_free.
  destruct (is_teacher_available t d s); [|by eexists].
  destruct (inv_teachers _ _ _ _ _ _ HI (t_name t) d s) as [b ->];
    [by apply list_elem_of_fmap_2|done..|by eexists].
Qed.

Lemma classroom_free_total st d s c :
  I st → c ∈ cls → d ∈ days → s ∈ slots → is_Some (classroom_free st d s c).
Proof.
  intros HI Hc Hd Hs. unfold classroom_free.
  destruct (inv_classrooms _ _ _ _ _ _ HI c d s) as [b ->]; [done..|by eexists].
Qed.

Lemma reasons_at_total st subj tfs d s :
  I st → subj ∈ subjs → Forall (λ t, t ∈ tchs) tfs → d ∈ days → s ∈ slots →
  is_Some (reasons_at cls st subj tfs d s).
Proof.
  intros HI Hsubj Htfs Hd Hs. unfold reasons_at.
  destruct (anyM_total (teacher_free st d s) _ tfs Htfs) as [a ->].
  { intros t Ht. by apply teacher_free_total. }
  destruct (anyM_total (classroom_free st d s) (λ c, c ∈ cls) cls) as [b ->].
  { by apply Forall_forall. }
  { intros c Hc. by apply classroom_free_total. }
  destruct (inv_cohorts _ _ _ _ _ _ HI (semester_of subj) d s) as [c ->];
    [by apply list_elem_of_fmap_2|done..|by eexists].
Qed.

Lemma build_reasons_total st subj tfs :
  I st → subj ∈ subjs → Forall (λ t, t ∈ tchs) tfs →
  is_Some (build_reasons cls days slots st subj tfs).
Proof.
  intros HI Hsubj Htfs. unfold build_reasons.
  destruct tfs as [|t0 tfs0] eqn:Htf; [by eexists|]. rewrite <- Htf in *. clear Htf.
  lazymatch goal with
  | |- context [mapM ?f days] =>
      destruct (mapM_total f (λ d, d ∈ days) days) as [per_day ->]
  end; [by apply Forall_forall| |by eexists].
  intros d Hd.
  destruct (mapM_total (reasons_at cls st subj tfs d) (λ s, s ∈ slots) slots)
    as [per_slot ->]; [by apply Forall_forall| |by eexists].
  intros s Hs. by apply reasons_at_total.
Qed.

Lemma suggest_slots_total st subj tfs d sl acc :
  I st → subj ∈ subjs → Forall (λ t, t ∈ tchs) tfs → d ∈ days →
  Forall (λ s, s ∈ slots) sl →
  is_Some (suggest_slots cls st subj tfs d sl acc).
Proof.
  intros HI Hsubj Htfs Hd Hsl. revert acc.
  induction Hsl as [|s sl Hs _ IH]; intros acc; [by eexists|]. cbn [suggest_slots].
  destruct (inv_cohorts _ _ _ _ _ _ HI (semester_of subj) d s) as [busy ->];
    [by apply list_elem_of_fmap_2|done..|].
  cbn [mbind option_bind]. destruct busy; [apply IH|].
  destruct (mapM_total (teacher_free st d s) _ tfs Htfs) as [tflags ->].
  { intros t Ht. by apply teacher_free_total. }
  destruct (mapM_total (classroom_free st d s) (λ c, c ∈ cls) cls) as [cflags ->].
  { by apply Forall_forall. }
  { intros c Hc. by apply classroom_free_total. }
  cbn [mbind option_bind]. cbv zeta.
  destruct (5 <=? length _)%nat; [by eexists|apply IH].
Qed.

Lemma suggest_days_total st subj tfs ds acc :
  I st → subj ∈ subjs → Forall (λ t, t ∈ tchs) tfs → Forall (λ d, d ∈ days) ds →
  is_Some (suggest_days cls slots st subj tfs ds acc).
Proof.
  intros HI Hsubj Htfs Hds. revert acc.
  induction Hds as [|d ds Hd _ IH]; intros acc; [by eexists|]. cbn [suggest_days].
  destruct (suggest_slots_total st subj tfs d slots acc) as [acc' ->];
    [done..|by apply Forall_forall|].
  cbn [mbind option_bind]. destruct (5 <=? length _)%nat; [by eexists|apply IH].
Qed.

Lemma schedule_subject_spec st subj :
  I st → subj ∈ subjs →
  ∃ st' es cs, schedule_subject lower cls days slots stt st subj = Some st' ∧ I st' ∧
    st_timetable st' = st_timetable st ++ es ∧
    st_conflicts st' = st_conflicts st ++ cs ∧
    block_ok subj (es, cs) ∧
    Forall (λ e, ∃ c, e_classrooms e = Val [c]) es.
Proof.
  intros HI Hsubj. unfold schedule_subject.
  destruct (place_sessions_spec st subj HI Hsubj)
    as (st' & placed & es & -> & HI' & (Htt & Hcs & Hfor & Hone) & Hplaced & Hle).
  cbn [mbind option_bind]. cbv zeta.
  destruct (placed <? sessions_required subj) eqn:Hshort.
  - apply Z.ltb_lt in Hshort.
    destruct (build_reasons_total st' subj (teachers_for lower stt subj) HI' Hsubj)
      as [reasons ->]; [apply teachers_for_sound|].
    destruct (suggest_days_total st' subj (teachers_for lower stt subj) days [] HI' Hsubj)
      as [suggestions ->]; [apply teachers_for_sound|by apply Forall_forall|].
    cbn [mbind option_bind]. eexists _, es, [_]. split; [done|].
    split_and!; simpl; try done.
    + by destruct HI'.
    + by rewrite Hcs.
    + split_and!; simpl; [done| | |lia|lia].
      * constructor; [|done]. by eexists _, _, _.
      * constructor; [simpl; lia|done].
  - apply Z.ltb_ge in Hshort. exists st', es, []. split; [done|].
    split_and!; try done.
    + by rewrite Hcs, app_nil_r.
    + split_and!; simpl; [done|done|done|lia|lia].
Qed.

Lemma schedule_all_spec st ss :
  I st → Forall (λ subj, subj ∈ subjs) ss →
  ∃ st' blocks, schedule_all lower cls days slots stt st ss = Some st' ∧ I st' ∧
    st_timetable st' = st_timetable st ++ concat (fst <$> blocks) ∧
    st_conflicts st' = st_conflicts st ++ concat (snd <$> blocks) ∧
    Forall2 block_ok ss blocks ∧
    Forall (λ e, ∃ c, e_classrooms e = Val [c]) (concat (fst <$> blocks)).
Proof.
  intros HI Hss. revert st HI.
  induction Hss as [|subj ss Hsubj _ IH]; intros st HI.
  { exists st, []. simpl. rewrite !app_nil_r. by split_and!. }
  cbn [schedule_all].
  destruct (schedule_subject_spec st subj HI Hsubj)
    as (st1 & es & cs & -> & HI1 & Htt & Hcs & Hblock & Hone).
  cbn [mbind option_bind].
  destruct (IH st1 HI1) as (st' & blocks & -> & HI' & Htt' & Hcs' & Hblocks & Hones).
  exists st', ((es, cs) :: blocks). simpl. split_and!; [done..| | | |].
  - by rewrite Htt', Htt, app_assoc.
  - by rewrite Hcs', Hcs, app_assoc.
  - by constructor.
  - by apply Forall_app.
Qed.
End Sched.

(** * [generate] *)

Lemma index_teacher_sound (lower : str → str) (tchs : list teacher) idx t :
  t ∈ tchs →
  (∀ k ts t', idx !! k = Some ts → t' ∈ ts → t' ∈ tchs) →
  ∀ k ts t', index_teacher lower idx t !! k = Some ts → t' ∈ ts → t' ∈ tchs.
Proof.
  intros Ht. unfold index_teacher.
  generalize (get_list (t_subjects t)). intros l. revert idx.
  induction l as [|s l IH]; intros idx Hidx; [done|]. cbn [foldl].
  apply IH. case_bool_decide; [done|].
  intros k ts t' Hk Hin. destruct (decide (subject_key lower s = k)) as [<-|Hne].
  - rewrite lookup_insert_eq in Hk. injection Hk as <-.
    apply elem_of_app in Hin as [Hin|Hin%list_elem_of_singleton]; [|by subst].
    destruct (idx !! subject_key lower s) as [ts|] eqn:Hts; simpl in Hin.
    + by eapply Hidx.
    + by apply elem_of_nil in Hin.
  - rewrite lookup_insert_ne in Hk by done. by eapply Hidx.
Qed.

Lemma build_subject_to_teachers_sound (lower : str → str) (tchs : list teacher) :
  ∀ k ts t, build_subject_to_teachers lower tchs !! k = Some ts → t ∈ ts → t ∈ tchs.
Proof.
  unfold build_subject_to_teachers.
  assert (∀ l idx, Forall (λ t, t ∈ tchs) l →
            (∀ k ts t', idx !! k = Some ts → t' ∈ ts → t' ∈ tchs) →
            ∀ k ts t', foldl (index_teacher lower) idx l !! k = Some ts → t' ∈ ts → t' ∈ tchs)
    as Hgen.
  { induction l as [|t l IH]; intros idx Hl Hidx; [done|]. cbn [foldl].
    inversion_clear Hl. apply IH; [done|]. by apply index_teacher_sound. }
  apply Hgen; [by apply Forall_forall|]. intros k ts t'. by rewrite lookup_empty.
Qed.

Lemma initial_state_inv (self : TimetableGenerator) :
  inv (teachers self) (subjects self) (classrooms self) (days self) (time_slots self)
      (initial_state self).
Proof.
  split; simpl.
  - intros k d s (t & -> & Ht)%list_elem_of_fmap Hd Hs. unfold grid_item.
    rewrite (foldl_insert_lookup_with t_name) by done. cbn [mbind option_bind].
    rewrite empty_days_item by done. by eexists.
  - intros c d s Hc Hd Hs. unfold grid_item.
    rewrite (foldl_insert_lookup_with id _ _ _ c) by done. cbn [mbind option_bind].
    rewrite empty_days_item by done. by eexists.
  - intros k d s Hk Hd Hs. unfold grid_item.
    rewrite lookup_gset_to_gmap, option_guard_True.
    + cbn [mbind option_bind]. rewrite empty_days_item by done. by eexists.
    + case_bool_decide as Hempty; [|by apply elem_of_list_to_set].
      exfalso. apply (not_elem_of_empty (C:=gset pyval) k). rewrite <- Hempty.
      by apply elem_of_list_to_set.
  - constructor.
  - split_and!; constructor.
Qed.

Lemma booked_wf st e : booked st e → wf_entry e.
Proof.
  intros (d & s & t & c & Hd & Hs & Ht & _ & Hn & _). unfold wf_entry.
  rewrite Hd, Hs, Ht. done.
Qed.

Lemma count_occurrences_total (tt : list entry) occ :
  Forall wf_entry tt → is_Some (count_occurrences tt occ).
Proof.
  intros Hwf. revert occ. induction Hwf as [|e tt (_ & _ & _ & Hs) _ IH]; intros occ.
  { by eexists. }
  cbn [count_occurrences]. rewrite (getitem_present _ Hs). cbn [mbind option_bind].
  apply IH.
Qed.

Lemma validation_conflicts_kind occ subjs :
  Forall is_validation (validation_conflicts occ subjs).
Proof.
  apply Forall_forall. intros c (subj & Hin & _)%list_elem_of_bind. cbv zeta in Hin.
  destruct (_ <? _); [|by apply elem_of_nil in Hin].
  apply list_elem_of_singleton in Hin. by subst.
Qed.

(** What a run of [generate] produces, in one place. *)
Lemma generate_spec (lower : str → str) (self : TimetableGenerator) :
  ∃ blocks occ,
    generate lower self
      = Some (set_results self (concat (fst <$> blocks))
                (concat (snd <$> blocks) ++ validation_conflicts occ (subjects self))) ∧
    Forall2 block_ok (subjects self) blocks ∧
    collision_free (concat (fst <$> blocks)) ∧
    Forall wf_entry (concat (fst <$> blocks)) ∧
    Forall (λ e, ∃ c, e_classrooms e = Val [c]) (concat (fst <$> blocks)) ∧
    scan_conflicts (concat (fst <$> blocks)) = Some [].
Proof.
  unfold generate.
  destruct (schedule_all_spec lower (teachers self) (subjects self) (classrooms self)
              (days self) (time_slots self) (build_subject_to_teachers lower (teachers self))
              (build_subject_to_teachers_sound lower (teachers self))
              (initial_state self) (subjects self) (initial_state_inv self))
    as (st & blocks & -> & HI & Htt & Hcs & Hblocks & Hone).
  { by apply Forall_forall. }
  simpl in Htt, Hcs. cbn [mbind option_bind]. rewrite Htt, Hcs.
  assert (Forall wf_entry (concat (fst <$> blocks))) as Hwf.
  { rewrite <- Htt. eapply Forall_impl; [apply (inv_booked _ _ _ _ _ _ HI)|].
    intros e. apply booked_wf. }
  assert (collision_free (concat (fst <$> blocks))) as Hfree.
  { rewrite <- Htt. apply (inv_free _ _ _ _ _ _ HI). }
  pose proof (scan_conflicts_quiet _ Hwf Hfree) as Hscan.
  unfold detect_conflicts. simpl. rewrite Hscan. cbn [mbind option_bind]. simpl.
  destruct (count_occurrences_total (concat (fst <$> blocks)) ∅ Hwf) as [occ ->].
  cbn [mbind option_bind]. exists blocks, occ. rewrite app_nil_r. by split_and!.
Qed.

Lemma NoDup_bind_lookup {A B} (f : A → list B) (l : list A) (i j : nat) x y z :
  NoDup (l ≫= f) → (i < j)%nat → l !! i = Some x → l !! j = Some y →
  z ∈ f x → z ∈ f y → False.
Proof.
  revert i j. induction l as [|a l IH]; intros i j Hnd Hij Hi Hj Hx Hy; [done|].
  rewrite bind_cons in Hnd. apply NoDup_app in Hnd as (_ & Hdisj & Hnd).
  destruct j as [|j]; [lia|]. simpl in Hj. destruct i as [|i].
  - injection Hi as ->. apply (Hdisj z Hx). apply list_elem_of_bind.
    exists y. split; [done|]. by eapply list_elem_of_lookup_2.
  - simpl in Hi. apply (IH i j); [done|lia|done..].
Qed.

Lemma collision_free_no_clash (tt : list entry) (i j : nat) e1 e2 :
  collision_free tt → i ≠ j → tt !! i = Some e1 → tt !! j = Some e2 → ¬ clash e1 e2.
Proof.
  intros (Ht & Hr & Hc) Hij Hi Hj (Hcell & [Hteacher|[(c & Hc1 & Hc2)|Hcohort]]).
  - apply Hij. apply (proj1 (NoDup_alt _) Ht i j (teacher_key e1)).
    + by rewrite list_lookup_fmap, Hi.
    + rewrite list_lookup_fmap, Hj. unfold teacher_key. simpl. by rewrite Hcell, Hteacher.
  - assert ((cell_of e1, c) ∈ room_keys e1) as H1 by by apply list_elem_of_fmap_2.
    assert ((cell_of e1, c) ∈ room_keys e2) as H2.
    { rewrite Hcell. by apply list_elem_of_fmap_2. }
    destruct (decide (i < j)%nat).
    + by eapply (NoDup_bind_lookup room_keys tt i j).
    + eapply (NoDup_bind_lookup room_keys tt j i); [done|lia|done..].
  - apply Hij. apply (proj1 (NoDup_alt _) Hc i j (cohort_key e1)).
    + by rewrite list_lookup_fmap, Hi.
    + rewrite list_lookup_fmap, Hj. unfold cohort_key. simpl. by rewrite Hcell, Hcohort.
Qed.

Lemma blocks_shortfalls (subjs : list subject) (blocks : list (list entry * list conflict)) :
  Forall2 block_ok subjs blocks → Forall is_shortfall (concat (snd <$> blocks)).
Proof.
  induction 1 as [|subj b subjs blocks (_ & Hs & _) _ IH]; [done|]. simpl.
  apply Forall_app. split; [|done].
  eapply Forall_impl; [exact Hs|]. by intros c (m & sg & rs & ->).
Qed.

(** C1: in a generated timetable no two entries of one (day, slot) share
    a teacher, a classroom or a cohort; [detect_conflicts] finds nothing
    on it and the returned conflict list holds no collision record. *)
Theorem generate_collision_free (lower : str → str) (self : TimetableGenerator) :
  ∃ self', generate lower self = Some self' ∧
    (∀ i j e1 e2, i ≠ j → timetable self' !! i = Some e1 →
       timetable self' !! j = Some e2 → ¬ clash e1 e2) ∧
    scan_conflicts (timetable self') = Some [] ∧
    detect_conflicts self' = Some self' ∧
    Forall (λ c, ¬ is_collision c) (conflicts self').
Proof.
  destruct (generate_spec lower self)
    as (blocks & occ & -> & Hblocks & Hfree & Hwf & _ & Hscan).
  eexists. split; [done|]. simpl. split_and!.
  - intros i j e1 e2. by apply collision_free_no_clash.
  - done.
  - unfold detect_conflicts. simpl. rewrite Hscan. simpl. by rewrite app_nil_r.
  - apply Forall_app. split.
    + eapply Forall_impl; [by eapply blocks_shortfalls|]. intros []; simpl; tauto.
    + eapply Forall_impl; [apply validation_conflicts_kind|]. intros []; simpl; tauto.
Qed.

(** C3: the returned conflict list reads: the collisions found by the
    re-scan, then the shortfalls of placement, then the validation
    records.  The re-scan's part is empty on every run, so that the place
    where [detect_conflicts] appends it does not show. *)
Theorem generate_conflict_order (lower : str → str) (self : TimetableGenerator) :
  ∃ self' collisions shortfalls validations,
    generate lower self = Some self' ∧
    scan_conflicts (timetable self') = Some collisions ∧
    conflicts self' = collisions ++ shortfalls ++ validations ∧
    collisions = [] ∧
    Forall is_collision collisions ∧
    Forall is_shortfall shortfalls ∧
    Forall is_validation validations.
Proof.
  destruct (generate_spec lower self)
    as (blocks & occ & -> & Hblocks & _ & _ & _ & Hscan).
  eexists _, [], _, _. split; [done|]. simpl. split_and!; [done|done|done|done| |].
  - by eapply blocks_shortfalls.
  - apply validation_conflicts_kind.
Qed.

Lemma entry_for_id (subj subj' : subject) (e : entry) :
  entry_for subj e → entry_for subj' e → subject_id subj' = subject_id subj.
Proof.
  intros [Hn Hc] [Hn' Hc']. unfold subject_id. rewrite Hn in Hn'. injection Hn' as <-.
  by rewrite <- Hc, <- Hc'.
Qed.

Lemma filter_Forall_id {A} (P : A → Prop) `{∀ x, Decision (P x)} (l : list A) :
  Forall P l → filter P l = l.
Proof. induction 1; [done|]. rewrite filter_cons_True by done. by f_equal. Qed.

Lemma filter_Forall_nil {A} (P : A → Prop) `{∀ x, Decision (P x)} (l : list A) :
  Forall (λ x, ¬ P x) l → filter P l = [].
Proof. induction 1; [done|]. by rewrite filter_cons_False. Qed.





(** C10: every generated entry names exactly one classroom. *)
Theorem generate_single_classroom (lower : str → str) (self : TimetableGenerator) :
  ∃ self', generate lower self = Some self' ∧
    Forall (λ e, ∃ c, e_classrooms e = Val [c] ∧ length (rooms_of e) = 1%nat)
           (timetable self').
Proof.
  destruct (generate_spec lower self) as (blocks & occ & -> & _ & _ & _ & Hone & _).
  eexists. split; [done|]. simpl.
  eapply Forall_impl; [exact Hone|]. intros e [c Hc]. exists c. split; [done|].
  unfold rooms_of. by rewrite Hc.
Qed.

Lemma generate_inputs (lower : str → str) (g1 g2 : TimetableGenerator) :
  teachers g1 = teachers g2 → subjects g1 = subjects g2 →
  classrooms g1 = classrooms g2 → time_slots g1 = time_slots g2 → days g1 = days g2 →
  result <$> generate lower g1 = result <$> generate lower g2.
Proof.
  intros Ht Hs Hc Hts Hd. unfold generate, initial_state.
  rewrite Ht, Hs, Hc, Hts, Hd.
  destruct (schedule_all _ _ _ _ _ _ _) as [st|]; [|done]. cbn [mbind option_bind].
  unfold detect_conflicts. simpl.
  destruct (scan_conflicts _) as [found|]; [|done]. cbn [mbind option_bind]. simpl.
  destruct (count_occurrences _ _) as [occ|]; [|done]. simpl. by rewrite Hs.
Qed.

(** C2: the entry list and the conflict list depend on the teacher,
    subject, classroom, slot and day sequences only: not on what an earlier
    call left in the object, nor on anything else. *)
Theorem generate_deterministic (lower : str → str) (g1 g2 : TimetableGenerator) :
  teachers g1 = teachers g2 → subjects g1 = subjects g2 →
  classrooms g1 = classrooms g2 → time_slots g1 = time_slots g2 → days g1 = days g2 →
  result <$> generate lower g1 = result <$> generate lower g2 ∧
  is_Some (generate lower g1).
Proof.
  intros. split; [by apply generate_inputs|].
  destruct (generate_spec lower g1) as (? & ? & -> & _). by eexists.
Qed.

(** C9: the [semesters] argument has no effect on the result; the cohort
    grid is keyed by the subjects' semesters ([General] alone when there is
    no subject). *)
Theorem generate_ignores_semesters (lower : str → str) (self : TimetableGenerator)
    (sems : list str) :
  result <$> generate lower (with_semesters sems self) = result <$> generate lower self ∧
  dom (cohort_schedule (initial_state (with_semesters sems self)))
    = (if bool_decide (subjects self = []) then {[General]}
       else list_to_set (semester_of <$> subjects self)).
Proof.
  split; [by apply generate_inputs|]. simpl. rewrite dom_gset_to_gmap.
  destruct (subjects self) as [|s ss]; [done|]. simpl.
  rewrite bool_decide_false; [done|]. set_solver.
Qed.

(** C4 fails for [null]: such a subject requires no session at all. *)
Lemma sessions_required_null_counterexample :
  sessions_required (mk_subject "math" Null) ≠ 2 ∧
  result <$> generate lower_ascii (demo Null) = Some ([], []) ∧
  (length ∘ fst ∘ result) <$> generate lower_ascii (demo Absent) = Some 2%nat.
Proof. split_and!; [done|vm_compute; reflexivity..]. Qed.

(** C5 fails on "remaining": with two feasible days and three required
    sessions, after one session on Monday the rule as worded skips
    (Mon, 10), while the code places it. *)
Lemma pass1_skips_claimed_counterexample :
  pass1 demo_subject 3 demo_feasible_days (take 1 demo_feasible)
    (start_pass (initial_state (demo (Val 3)))) = Some demo_pass ∧
  p_placed demo_pass = 1 ∧
  pass1_skips_claimed demo_feasible_days 3 (p_placed demo_pass)
    (p_used_positions demo_pass) (p_used_days demo_pass)
    (str_of_string "Mon") (str_of_string "10") = true ∧
  pass1_skips demo_feasible_days 3
    (p_used_positions demo_pass) (p_used_days demo_pass)
    (str_of_string "Mon") (str_of_string "10") = false ∧
  (λ self, (λ e, (e_day e, e_time_slot e)) <$> timetable self)
    <$> generate lower_ascii (demo (Val 3))
  = Some [(Val (str_of_string "Mon"), Val (str_of_string "9"));
          (Val (str_of_string "Mon"), Val (str_of_string "10"));
          (Val (str_of_string "Tue"), Val (str_of_string "9"))].
Proof. split_and!; vm_compute; reflexivity. Qed.

(** C5, amended: during pass 1, while sessions are still missing, the
    next candidate is skipped exactly when its (day, slot) holds an entry
    committed in this pass, or when the distinct feasible days are at least
    the subject's required sessions and its day holds such an entry. *)
Theorem pass1_skip_rule (subj : subject)
    (feasible pre rest : list (str * str * teacher * str))
    (day slot : str) (t : teacher) (c : str) (st : state) (p : pass_state) :
  let required := sessions_required subj in
  let feasible_days : gset str := list_to_set ((λ x, x.1.1.1) <$> feasible) in
  feasible = pre ++ (day, slot, t, c) :: rest →
  pass1 subj required feasible_days pre (start_pass st) = Some p →
  p_placed p < required →
  ∃ new,
    st_timetable (p_state p) = st_timetable st ++ new ∧
    p_placed p = Z.of_nat (length new) ∧
    let skipped :=
      pass1_skips feasible_days required (p_used_positions p) (p_used_days p) day slot in
    (skipped = true ↔
       (day, slot) ∈ positions_of new
       ∨ (required ≤ Z.of_nat (size feasible_days) ∧ day ∈ days_of new)) ∧
    pass1 subj required feasible_days ((day, slot, t, c) :: rest) p =
      if skipped then pass1 subj required feasible_days rest p
      else if can_place (p_state p) subj t c day slot then
        st' ← place_entry (p_state p) subj t c day slot;
        pass1 subj required feasible_days rest
          {| p_state := st'; p_placed := p_placed p + 1;
             p_used_positions := {[(day, slot)]} ∪ p_used_positions p;
             p_used_days := {[day]} ∪ p_used_days p |}
      else pass1 subj required feasible_days rest p.
Proof.
  intros required feasible_days _ Hp Hshort.
  destruct (pass1_bookkeeping _ _ _ _ _ _ Hp) as (new & Htt & Hplaced & Hup & Hud & _).
  simpl in Htt, Hplaced, Hup, Hud. exists new. split_and!; [done|lia|]. cbv zeta. split.
  - unfold pass1_skips. rewrite Hup, Hud.
    rewrite orb_true_iff, andb_true_iff, !bool_decide_eq_true, Z.leb_le.
    set_solver.
  - cbn [pass1]. apply Z.leb_gt in Hshort. by rewrite Hshort.
Qed.

(** * Instances on the example runs *)

Lemma detect_conflicts_never_raises_witness :
  Forall wf_entry (timetable edited) ∧
  ∃ found,
    detect_conflicts edited
      = Some (set_results edited (timetable edited) (conflicts edited ++ found))
    ∧ (timetable edited = [] → found = []).
Proof.
  assert (Forall wf_entry (timetable edited)) as Hwf.
  { repeat constructor; done. }
  split; [exact Hwf|]. exact (detect_conflicts_never_raises edited Hwf).
Defined.

Lemma generate_deterministic_witness :
  result <$> generate lower_ascii (demo (Val 3))
    = result <$> generate lower_ascii demo_reused
  ∧ is_Some (generate lower_ascii (demo (Val 3))).
Proof.
  apply (generate_deterministic lower_ascii (demo (Val 3)) demo_reused);
    vm_compute; reflexivity.
Defined.

Lemma pass1_skip_rule_witness :
  let day := str_of_string "Mon" in
  let slot := str_of_string "10" in
  let st := initial_state (demo (Val 3)) in
  ∃ new,
    st_timetable (p_state demo_pass) = st_timetable st ++ new ∧
    p_placed demo_pass = Z.of_nat (length new) ∧
    (pass1_skips demo_feasible_days 3 (p_used_positions demo_pass)
       (p_used_days demo_pass) day slot = true ↔
     (day, slot) ∈ positions_of new
     ∨ (3 ≤ Z.of_nat (size demo_feasible_days) ∧ day ∈ days_of new)).
Proof.
  intros day slot st.
  destruct (pass1_skip_rule demo_subject demo_feasible (take 1 demo_feasible)
              (drop 2 demo_feasible) day slot (mk_teacher "Ann" ["Math"%string])
              (str_of_string "R1") st demo_pass)
    as (new & Htt & Hplaced & Hiff & _).
  - vm_compute. reflexivity.
  - vm_compute. reflexivity.
  - vm_compute. reflexivity.
  - exists new. split_and!; [exact Htt|exact Hplaced|exact Hiff].
Defined.


(** * The scenarios of the specification, run on the model *)

Example scenario_a_run :
  summary <$> generate lower_ascii scenario_a
  = Some ([(Some (str_of_string "Mon"), Some (str_of_string "9"), Some (str_of_string "Math"));
           (Some (str_of_string "Tue"), Some (str_of_string "9"), Some (str_of_string "Math"));
           (Some (str_of_string "Wed"), Some (str_of_string "9"), Some (str_of_string "Math"))],
          []).
Proof. vm_compute. reflexivity. Qed.

Example scenario_b_run :
  summary <$> generate lower_ascii scenario_b
  = Some ([(Some (str_of_string "Mon"), Some (str_of_string "9"), Some (str_of_string "Math"))],
          [(1, [str_of_string "No available teacher at Mon 9";
                str_of_string "No available classroom at Mon 9";
                str_of_string "Semester busy at Mon 9"]);
           (1, [])]).
Proof. vm_compute. reflexivity. Qed.

Example scenario_c_run :
  summary <$> generate lower_ascii scenario_c
  = Some ([], [(2, [str_of_string "No teacher associated with subject"]); (2, [])]).
Proof. vm_compute. reflexivity. Qed.

(** An edited timetable with a double booking is reported, once per
    shared key: here the teacher and the cohort. *)
Example edited_run :
  conflicts <$> detect_conflicts edited
  = Some [TeacherConflict (Some (str_of_string "Ann"))
            (Some (str_of_string "Mon")) (Some (str_of_string "9"))
            [Some (str_of_string "math"); Some (str_of_string "art")];
          StudentConflict General
            (Some (str_of_string "Mon")) (Some (str_of_string "9"))
            [Some (str_of_string "math"); Some (str_of_string "art")]].
Proof. vm_compute. reflexivity. Qed.

(** An entry without its [day] key makes [detect_conflicts] raise. *)
Example missing_day_raises :
  detect_conflicts
    (set_results edited
       [{| e_day := Absent; e_time_slot := Val (str_of_string "9");
           e_subject := Val (str_of_string "math"); e_teacher := Val (str_of_string "Ann");
           e_semester := Absent; e_classrooms := Absent; e_department_codes := [] |}] [])
  = None.
Proof. reflexivity. Qed.

(** * Further properties *)

(** * Further properties of the placement engine *)

Lemma grid_set_Some {K} `{Countable K} (g g' : grid K) (k : K) (d s : str) :
  grid_set g k d s = Some g' →
  ∀ k' d' s', grid_item g' k' d' s' =
    if decide ((k', d', s') = (k, d, s)) then Some true else grid_item g k' d' s'.
Proof.
  unfold grid_item, grid_set. intros Hset k' d' s'.
  destruct (g !! k) as [m|] eqn:Hm; [|done]. simpl in Hset.
  destruct (m !! d) as [r|] eqn:Hr; [|done]. simpl in Hset. injection Hset as <-.
  destruct (decide (k' = k)) as [->|Hk].
  - rewrite lookup_insert_eq. simpl.
    destruct (decide (d' = d)) as [->|Hd].
    + rewrite lookup_insert_eq. simpl.
      destruct (decide (s' = s)) as [->|Hs].
      * by rewrite lookup_insert_eq, decide_True.
      * rewrite lookup_insert_ne by done. rewrite decide_False by congruence.
        by rewrite Hm; simpl; rewrite Hr.
    + rewrite lookup_insert_ne by done. rewrite decide_False by congruence.
      by rewrite Hm.
  - rewrite lookup_insert_ne by done. by rewrite decide_False by congruence.
Qed.

Lemma grid_get_other_day {K} `{Countable K} (g g' : grid K) (k : K) (d s : str) :
  grid_set g k d s = Some g' →
  ∀ k' d' s', d' ≠ d → grid_get g' k' d' s' = grid_get g k' d' s'.
Proof.
  intros Hset k' d' s' Hd. unfold grid_get.
  rewrite (grid_set_Some _ _ _ _ _ Hset), decide_False; [done|congruence].
Qed.

Lemma busier_refl st : busier st st.
Proof. by split_and!. Qed.

Lemma busier_trans st1 st2 st3 : busier st1 st2 → busier st2 st3 → busier st1 st3.
Proof. intros (? & ? & ?) (? & ? & ?). split_and!; eauto. Qed.

Lemma can_place_busier st st' subj t c d s :
  busier st st' → can_place st' subj t c d s = true → can_place st subj t c d s = true.
Proof.
  intros (Ht & Hc & Hs) (Hbt & Hbc & Hbs & Hav)%can_place_true. unfold can_place.
  destruct (grid_get (teacher_schedule st) _ _ _) eqn:E1; [apply Ht in E1; congruence|].
  destruct (grid_get (classroom_schedule st) _ _ _) eqn:E2; [apply Hc in E2; congruence|].
  destruct (grid_get (cohort_schedule st) _ _ _) eqn:E3; [apply Hs in E3; congruence|].
  by rewrite Hav.
Qed.

Lemma can_place_teacher_busy st subj t c d s :
  grid_get (teacher_schedule st) (t_name t) d s = true → can_place st subj t c d s = false.
Proof. unfold can_place. by intros ->. Qed.

Lemma place_entry_Some st subj t c d s st' :
  place_entry st subj t c d s = Some st' →
  st_timetable st' = st_timetable st ++ [placed_entry subj t c d s] ∧
  st_conflicts st' = st_conflicts st ∧
  busier st st' ∧
  grid_get (teacher_schedule st') (t_name t) d s = true ∧
  (∀ subj' t' c' d' s', d' ≠ d →
     can_place st' subj' t' c' d' s' = can_place st subj' t' c' d' s').
Proof.
  unfold place_entry. intros Hp.
  destruct (grid_set (teacher_schedule st) _ _ _) as [ts|] eqn:Hts; [|done].
  destruct (grid_set (classroom_schedule st) _ _ _) as [cs|] eqn:Hcs; [|done].
  destruct (grid_set (cohort_schedule st) _ _ _) as [cohs|] eqn:Hcohs; [|done].
  cbn [mbind option_bind] in Hp. injection Hp as <-. simpl.
  pose proof (grid_set_Some _ _ _ _ _ Hts) as Mt.
  pose proof (grid_set_Some _ _ _ _ _ Hcs) as Mc.
  pose proof (grid_set_Some _ _ _ _ _ Hcohs) as Ms.
  split_and!; [done|done| | |].
  - split_and!; simpl; intros k' d' s'; by eapply marked_mono.
  - by eapply marked_here.
  - intros subj' t' c' d' s' Hd. unfold can_place. simpl.
    by rewrite (grid_get_other_day _ _ _ _ _ Hts), (grid_get_other_day _ _ _ _ _ Hcs),
      (grid_get_other_day _ _ _ _ _ Hcohs).
Qed.

(** What pass 2 leaves: a busier state, entries taken from [feasible], and,
    when it stops short, no candidate of [feasible] still placeable. *)
Lemma pass2_facts subj req feasible st placed st' placed' :
  pass2 subj req feasible st placed = Some (st', placed') →
  busier st st' ∧
  st_conflicts st' = st_conflicts st ∧
  (∃ es, st_timetable st' = st_timetable st ++ es ∧
     placed' = placed + Z.of_nat (length es) ∧ placed' ≤ Z.max req placed ∧
     Forall (λ e, ∃ d s t c, (d, s, t, c) ∈ feasible ∧ e = placed_entry subj t c d s) es) ∧
  (placed' < req →
   ∀ d s t c, (d, s, t, c) ∈ feasible → can_place st' subj t c d s = false).
Proof.
  revert st placed. induction feasible as [|[[[d s] t] c] rest IH]; intros st placed Hp.
  { injection Hp as <- <-. split_and!; [apply busier_refl|done| |].
    - exists []. split_and!; [by rewrite app_nil_r|simpl; lia|lia|done].
    - intros _ ???? Hin. by apply elem_of_nil in Hin. }
  cbn [pass2] in Hp. destruct (req <=? placed) eqn:Hbreak.
  { injection Hp as <- <-. apply Z.leb_le in Hbreak.
    split_and!; [apply busier_refl|done| |lia].
    exists []. split_and!; [by rewrite app_nil_r|simpl; lia|lia|done]. }
  apply Z.leb_gt in Hbreak.
  assert (∀ st1 placed1,
    pass2 subj req rest st1 placed1 = Some (st', placed') →
    busier st st1 → st_conflicts st1 = st_conflicts st →
    (∃ es1, st_timetable st1 = st_timetable st ++ es1 ∧
       placed1 = placed + Z.of_nat (length es1) ∧ placed1 ≤ req ∧
       Forall (λ e, ∃ d0 s0 t0 c0, (d0, s0, t0, c0) ∈ (d, s, t, c) :: rest ∧
                 e = placed_entry subj t0 c0 d0 s0) es1) →
    can_place st1 subj t c d s = false →
    busier st st' ∧ st_conflicts st' = st_conflicts st ∧
    (∃ es, st_timetable st' = st_timetable st ++ es ∧
       placed' = placed + Z.of_nat (length es) ∧ placed' ≤ Z.max req placed ∧
       Forall (λ e, ∃ d0 s0 t0 c0, (d0, s0, t0, c0) ∈ (d, s, t, c) :: rest ∧
                 e = placed_entry subj t0 c0 d0 s0) es) ∧
    (placed' < req →
     ∀ d0 s0 t0 c0, (d0, s0, t0, c0) ∈ (d, s, t, c) :: rest →
       can_place st' subj t0 c0 d0 s0 = false)) as Hstep.
  { intros st1 placed1 Hp1 Hb1 Hc1 (es1 & Htt1 & Hn1 & Hle1 & Hes1) Hblocked.
    destruct (IH _ _ Hp1) as (Hb & Hc & (es & Htt & Hn & Hle & Hes) & Hmax).
    split_and!.
    - by eapply busier_trans.
    - congruence.
    - exists (es1 ++ es). split_and!; [by rewrite Htt, Htt1, app_assoc| | |].
      { rewrite length_app. lia. }
      { lia. }
      apply Forall_app. split; [done|].
      eapply Forall_impl; [exact Hes|]. intros e (d0 & s0 & t0 & c0 & Hin & ->).
      exists d0, s0, t0, c0. split; [by right|done].
    - intros Hshort d0 s0 t0 c0 [[= -> -> -> ->]|Hin]%elem_of_cons; [|by apply Hmax].
      destruct (can_place st' subj t c d s) eqn:Hcan; [|done].
      apply (can_place_busier st1) in Hcan; [congruence|done]. }
  destruct (can_place st subj t c d s) eqn:Hcan.
  - destruct (place_entry st subj t c d s) as [st1|] eqn:Hpl; [|done].
    cbn [mbind option_bind] in Hp.
    destruct (place_entry_Some _ _ _ _ _ _ _ Hpl) as (Htt1 & Hc1 & Hb1 & Hbusy & _).
    apply (Hstep st1 (placed + 1)); [done..| |by apply can_place_teacher_busy].
    exists [placed_entry subj t c d s]. split_and!; [done|simpl; lia|lia|].
    constructor; [|done]. exists d, s, t, c. split; [left|done].
  - apply (Hstep st placed); [done|apply busier_refl|done| |done].
    exists []. split_and!; [by rewrite app_nil_r|simpl; lia|lia|done].
Qed.

Lemma pass1_facts subj req fd feasible p p' :
  pass1 subj req fd feasible p = Some p' →
  busier (p_state p) (p_state p') ∧
  st_conflicts (p_state p') = st_conflicts (p_state p) ∧
  ∃ es, st_timetable (p_state p') = st_timetable (p_state p) ++ es ∧
    Forall (λ e, ∃ d s t c, (d, s, t, c) ∈ feasible ∧ e = placed_entry subj t c d s) es.
Proof.
  revert p. induction feasible as [|[[[d s] t] c] rest IH]; intros p Hp.
  { injection Hp as <-. split_and!; [apply busier_refl|done|].
    exists []. by rewrite app_nil_r. }
  assert (∀ p1, pass1 subj req fd rest p1 = Some p' →
    busier (p_state p1) (p_state p') ∧
    st_conflicts (p_state p') = st_conflicts (p_state p1) ∧
    ∃ es, st_timetable (p_state p') = st_timetable (p_state p1) ++ es ∧
      Forall (λ e, ∃ d0 s0 t0 c0, (d0, s0, t0, c0) ∈ (d, s, t, c) :: rest ∧
                e = placed_entry subj t0 c0 d0 s0) es) as Hrest.
  { intros p1 Hp1. destruct (IH _ Hp1) as (Hb & Hc & es & Htt & Hes).
    split_and!; [done..|]. exists es. split; [done|].
    eapply Forall_impl; [exact Hes|]. intros e (d0 & s0 & t0 & c0 & Hin & ->).
    exists d0, s0, t0, c0. split; [by right|done]. }
  cbn [pass1] in Hp. destruct (req <=? p_placed p).
  { injection Hp as <-. split_and!; [apply busier_refl|done|].
    exists []. by rewrite app_nil_r. }
  destruct (pass1_skips _ _ _ _ _ _); [by apply Hrest|].
  destruct (can_place _ _ _ _ _ _); [|by apply Hrest].
  destruct (place_entry _ _ _ _ _ _) as [st1|] eqn:Hpl; [|done].
  cbn [mbind option_bind] in Hp.
  destruct (place_entry_Some _ _ _ _ _ _ _ Hpl) as (Htt1 & Hc1 & Hb1 & _).
  destruct (Hrest _ Hp) as (Hb & Hc & es & Htt & Hes). simpl in Hb, Hc, Htt.
  split_and!.
  - by eapply busier_trans.
  - congruence.
  - exists (placed_entry subj t c d s :: es). split.
    + by rewrite Htt, Htt1, <- app_assoc.
    + constructor; [|done]. exists d, s, t, c. split; [left|done].
Qed.

(** * The teacher index and the candidate enumeration *)

Lemma mapM_concat_elem {X Y} (f : X → option (list Y)) (l : list X) yss :
  mapM f l = Some yss →
  ∀ y, y ∈ concat yss ↔ ∃ x ys, x ∈ l ∧ f x = Some ys ∧ y ∈ ys.
Proof.
  intros Hm%mapM_Some. induction Hm as [|x ys l yss Hx _ IH]; intros y; simpl.
  - split; [by intros ?%elem_of_nil|]. by intros (? & ? & ?%elem_of_nil & _).
  - rewrite elem_of_app, IH. split.
    + intros [Hy|(x' & ys' & Hin & Hf & Hy)].
      * exists x, ys. split_and!; [left|done..].
      * exists x', ys'. split_and!; [by right|done..].
    + intros (x' & ys' & [->|Hin]%elem_of_cons & Hf & Hy).
      * left. congruence.
      * right. by exists x', ys'.
Qed.

Lemma mapM_fmap_eq {X Y V} (f : X → option Y) (g : Y → V) (h : X → V) (l : list X) k :
  mapM f l = Some k → (∀ x y, f x = Some y → g y = h x) → g <$> k = h <$> l.
Proof.
  intros Hm%mapM_Some Hgh. induction Hm as [|x y l k Hx _ IH]; [done|].
  simpl. f_equal; [by apply Hgh|done].
Qed.

Lemma index_teacher_elem (lower : str → str) idx t k t' :
  t' ∈ default [] (index_teacher lower idx t !! k) ↔
  t' ∈ default [] (idx !! k) ∨
  (t' = t ∧ k ≠ [] ∧ ∃ s, s ∈ get_list (t_subjects t) ∧ subject_key lower s = k).
Proof.
  unfold index_teacher. generalize (get_list (t_subjects t)). intros l. revert idx.
  induction l as [|s l IH]; intros idx.
  - simpl. split; [by left|]. intros [ ? | (_ & _ & ? & ?%elem_of_nil & _)]; done.
  - cbn [foldl]. rewrite IH. clear IH. case_bool_decide as Hkey.
    + split.
      * intros [ ? | (-> & Hk & s' & Hin & Hs')]; [by left|]. right.
        split_and!; [done..|]. exists s'. split; [by right|done].
      * intros [ ? | (-> & Hk & s' & [->|Hin]%elem_of_cons & Hs')]; [by left|congruence|].
        right. split_and!; [done..|]. by exists s'.
    + destruct (decide (subject_key lower s = k)) as [<-|Hne].
      * rewrite lookup_insert_eq. simpl. rewrite elem_of_app, list_elem_of_singleton. split.
        -- intros [[ ? | ->]|(-> & Hk & s' & Hin & Hs')].
           ++ by left.
           ++ right. split_and!; [done..|]. exists s. split; [left|done].
           ++ right. split_and!; [done..|]. exists s'. split; [by right|done].
        -- intros [ ? | (-> & Hk & s' & Hin & Hs')]; [by left; left|]. left. by right.
      * rewrite lookup_insert_ne by done. split.
        -- intros [ ? | (-> & Hk & s' & Hin & Hs')]; [by left|]. right.
           split_and!; [done..|]. exists s'. split; [by right|done].
        -- intros [ ? | (-> & Hk & s' & [->|Hin]%elem_of_cons & Hs')]; [by left|congruence|].
           right. split_and!; [done..|]. by exists s'.
Qed.

Lemma build_subject_to_teachers_elem (lower : str → str) (tchs : list teacher) k t :
  t ∈ default [] (build_subject_to_teachers lower tchs !! k) ↔
  k ≠ [] ∧ t ∈ tchs ∧ ∃ s, s ∈ get_list (t_subjects t) ∧ subject_key lower s = k.
Proof.
  unfold build_subject_to_teachers.
  assert (∀ l idx,
    t ∈ default [] (foldl (index_teacher lower) idx l !! k) ↔
    t ∈ default [] (idx !! k) ∨
    (k ≠ [] ∧ t ∈ l ∧ ∃ s, s ∈ get_list (t_subjects t) ∧ subject_key lower s = k)) as Hgen.
  { induction l as [|t0 l IH]; intros idx.
    - simpl. split; [by left|]. intros [ ? | (_ & ?%elem_of_nil & _)]; done.
    - cbn [foldl]. rewrite IH, index_teacher_elem. split.
      + intros [[ ? | (-> & Hk & Hs)]|(Hk & Hin & Hs)]; [by left|right..].
        * split_and!; [done|left|done].
        * split_and!; [done|by right|done].
      + intros [ ? | (Hk & [->|Hin]%elem_of_cons & Hs)]; [by left; left|by left; right|].
        by right. }
  rewrite Hgen, lookup_empty. simpl. split; [|by right].
  intros [?%elem_of_nil|?]; done.
Qed.

(** The teachers looked up for a subject are exactly the teachers of the
    input that list it, names compared trimmed and case-folded; a subject
    whose name trims to nothing has none. *)
Lemma teachers_for_iff (lower : str → str) (tchs : list teacher) (subj : subject)
    (t : teacher) :
  t ∈ teachers_for lower (build_subject_to_teachers lower tchs) subj ↔
  t ∈ tchs ∧ teaches lower t subj.
Proof.
  unfold teachers_for, teaches. rewrite build_subject_to_teachers_elem. tauto.
Qed.

Lemma product_scores (g : str → str → Z) (ds ss : list str) :
  (λ x : Z * str * str, (x.1.2, x.2)) <$> (d ← ds; s ← ss; [(g d s, d, s)])
  = (d ← ds; s ← ss; [(d, s)]).
Proof.
  induction ds as [|d ds IH]; [done|].
  rewrite !bind_cons, fmap_app, IH. f_equal.
  clear IH. induction ss as [|s ss IH]; [done|].
  rewrite !bind_cons, fmap_app, IH. done.
Qed.

Section Enumeration.
Context (lower : str → str) (cls days slots : list str) (stt : gmap str (list teacher)).

Lemma rank_slots_perm st semester ranked :
  rank_slots_for_semester days slots st semester = Some ranked →
  ranked ≡ₚ (d ← days; s ← slots; [(d, s)]).
Proof.
  unfold rank_slots_for_semester. intros Hr.
  destruct (mapM _ _) as [keyed|] eqn:Hm; [|done].
  cbn [mbind option_bind] in Hr. injection Hr as <-.
  rewrite stable_sort_perm.
  rewrite (mapM_fmap_eq _ snd (λ x : Z * str * str, (x.1.2, x.2)) _ _ Hm).
  - by rewrite <- (product_scores (λ day slot,
      _rank_slots (cohort_load st) day slot semester
      + load_of (cohort_load st) semester day * 10)).
  - intros [[score d] s] y Hy.
    destruct (index d days); [|done]. destruct (index s slots); [|done].
    cbn in Hy. by injection Hy as <-.
Qed.

Lemma rank_slots_elem st semester ranked d s :
  rank_slots_for_semester days slots st semester = Some ranked →
  (d, s) ∈ ranked ↔ d ∈ days ∧ s ∈ slots.
Proof.
  intros ->%rank_slots_perm. rewrite list_elem_of_bind. split.
  - intros (d' & (s' & [= -> ->]%list_elem_of_singleton & Hs)%list_elem_of_bind & Hd).
    done.
  - intros [Hd Hs]. exists d. split; [|done]. apply list_elem_of_bind.
    exists s. split; [by apply list_elem_of_singleton|done].
Qed.

(** The candidates of a subject are exactly the (day, slot, teacher,
    classroom) tuples over the input days, slots and classrooms and the
    teachers of the subject that [can_place] accepts in the state of the
    enumeration. *)
Lemma candidates_iff st subj feasible d s t c :
  all_candidate_assignments lower cls days slots stt st subj = Some feasible →
  (d, s, t, c) ∈ feasible ↔
  d ∈ days ∧ s ∈ slots ∧ t ∈ teachers_for lower stt subj ∧ c ∈ cls ∧
  can_place st subj t c d s = true.
Proof.
  unfold all_candidate_assignments. intros Hf.
  destruct (teachers_for lower stt subj) as [|t0 tfs0] eqn:Htf.
  { injection Hf as <-. split; [by intros ?%elem_of_nil|].
    by intros (_ & _ & ?%elem_of_nil & _). }
  rewrite <- Htf in *. clear Htf.
  destruct (rank_slots_for_semester _ _ _ _) as [ranked|] eqn:Hr; [|done].
  cbn [mbind option_bind] in Hf.
  destruct (mapM _ ranked) as [per_slot|] eqn:Hps; [|done].
  cbn [mbind option_bind] in Hf. injection Hf as <-.
  rewrite list_elem_of_fmap. setoid_rewrite stable_sort_perm.
  split.
  - intros ([key cand] & Heq & Hin). simpl in Heq. subst cand.
    apply (mapM_concat_elem _ _ _ Hps) in Hin as ([d' s'] & ys & Hds & Hys & Hin).
    destruct (mapM _ (teachers_for lower stt subj)) as [per_teacher|] eqn:Hpt; [|done].
    cbn in Hys. injection Hys as <-.
    apply (mapM_concat_elem _ _ _ Hpt) in Hin as (t' & ys & Ht & Hys & Hin).
    destruct (negb _); [injection Hys as <-; by apply elem_of_nil in Hin|].
    destruct (mapM _ cls) as [per_room|] eqn:Hpr; [|done].
    cbn in Hys. injection Hys as <-.
    apply (mapM_concat_elem _ _ _ Hpr) in Hin as (c' & ys & Hc & Hys & Hin).
    destruct (can_place st subj t' c' d' s') eqn:Hcan;
      [|injection Hys as <-; by apply elem_of_nil in Hin].
    destruct (teacher_load _ _ _ _); [|done].
    destruct (index d' days); [|done]. destruct (index s' slots); [|done].
    cbn in Hys. injection Hys as <-.
    apply list_elem_of_singleton in Hin. injection Hin as _ -> -> -> ->.
    apply (rank_slots_elem _ _ _ _ _ Hr) in Hds as [??]. done.
  - intros (Hd & Hs & Ht & Hc & Hcan).
    assert ((d, s) ∈ ranked) as Hds by by apply (rank_slots_elem _ _ _ _ _ Hr).
    pose proof Hps as Hps'. apply mapM_Some in Hps'.
    pose proof Hds as [i Hi]%list_elem_of_lookup_1.
    destruct (Forall2_lookup_l _ _ _ _ _ Hps' Hi) as (ys & _ & Hys). cbv beta iota in Hys.
    pose proof Hys as (per_teacher & Hpt & [= <-])%bind_Some.
    pose proof Hpt as Hpt'. apply mapM_Some in Hpt'.
    pose proof Ht as [j Hj]%list_elem_of_lookup_1.
    destruct (Forall2_lookup_l _ _ _ _ _ Hpt' Hj) as (zs & _ & Hzs). cbv beta in Hzs.
    apply can_place_true in Hcan as Hav. destruct Hav as (_ & _ & _ & Hav).
    pose proof Hzs as Hzs'. rewrite Hav in Hzs'. cbn [negb] in Hzs'.
    apply bind_Some in Hzs' as (per_room & Hpr & [= <-]).
    pose proof Hpr as Hpr'. apply mapM_Some in Hpr'.
    pose proof Hc as [k Hk]%list_elem_of_lookup_1.
    destruct (Forall2_lookup_l _ _ _ _ _ Hpr' Hk) as (ws & _ & Hws). cbv beta in Hws.
    pose proof Hws as Hws'. rewrite Hcan in Hws'.
    apply bind_Some in Hws' as (tl & _ & (ii & _ & (jj & _ & [= <-])%bind_Some)%bind_Some).
    exists ((tl, ii, jj, lower (t_name t), c), (d, s, t, c)). split; [done|].
    apply (mapM_concat_elem _ _ _ Hps). exists (d, s), (concat per_teacher).
    split_and!; [done|done|].
    apply (mapM_concat_elem _ _ _ Hpt). exists t, (concat per_room).
    split_and!; [done|done|].
    apply (mapM_concat_elem _ _ _ Hpr). eexists c, _. split_and!; [done|done|].
    by apply list_elem_of_singleton.
Qed.
End Enumeration.

(** * One subject: placement and diagnostics *)

Lemma elem_of_dedup_first (l : list str) (x : str) : x ∈ dedup_first l ↔ x ∈ l.
Proof.
  induction l as [|y l IH]; [done|]. simpl.
  rewrite !elem_of_cons, list_elem_of_filter, IH.
  destruct (decide (x = y)); naive_solver.
Qed.

Lemma NoDup_dedup_first (l : list str) : NoDup (dedup_first l).
Proof.
  induction l as [|y l IH]; simpl; [constructor|].
  apply NoDup_cons. split.
  - rewrite list_elem_of_filter. naive_solver.
  - by apply NoDup_filter.
Qed.

Lemma mapM_existsb {X} (f : X → option bool) (l : list X) flags :
  mapM f l = Some flags → existsb id flags = true → ∃ x, x ∈ l ∧ f x = Some true.
Proof.
  intros Hm%mapM_Some. induction Hm as [|x b l flags Hx _ IH]; [done|]. simpl.
  intros [Hb|Hrest]%orb_true_iff.
  - exists x. split; [left|]. unfold id in Hb. by subst.
  - destruct (IH Hrest) as (x' & Hin & Hx'). exists x'. split; [by right|done].
Qed.

Lemma anyM_true {X} (f : X → option bool) (l : list X) :
  anyM f l = Some true → ∃ x, x ∈ l ∧ f x = Some true.
Proof.
  induction l as [|x l IH]; [done|]. simpl.
  destruct (f x) as [[]|] eqn:Hx; simpl; [|intros H| done].
  - intros _. exists x. split; [left|done].
  - destruct (IH H) as (x' & Hin & Hx'). exists x'. split; [by right|done].
Qed.

Lemma free_cell_placeable st subj t c d s :
  teacher_free st d s t = Some true → classroom_free st d s c = Some true →
  grid_item (cohort_schedule st) (semester_of subj) d s = Some false →
  can_place st subj t c d s = true.
Proof.
  unfold teacher_free, classroom_free, can_place, grid_get. intros Ht Hc ->.
  destruct (is_teacher_available t d s); [|done].
  destruct (grid_item (teacher_schedule st) _ _ _) as [[]|]; [done| |done].
  destruct (grid_item (classroom_schedule st) _ _ _) as [[]|]; done.
Qed.

Section Diagnostics.
Context (cls days slots : list str) (st : state) (subj : subject) (tfs : list teacher).

Lemma suggest_slots_blocked d sl acc acc' :
  (∀ s t c, s ∈ sl → t ∈ tfs → c ∈ cls → can_place st subj t c d s = false) →
  suggest_slots cls st subj tfs d sl acc = Some acc' → acc' = acc.
Proof.
  revert acc. induction sl as [|s sl IH]; intros acc Hblocked Hs.
  { by injection Hs. }
  cbn [suggest_slots] in Hs.
  assert (∀ acc0, suggest_slots cls st subj tfs d sl acc0 = Some acc' → acc' = acc0)
    as IH'.
  { intros acc0. apply IH. intros s0 t c Hs0. apply Hblocked. by right. }
  destruct (grid_item (cohort_schedule st) _ _ _) as [busy|] eqn:Hbusy; [|done].
  cbn [mbind option_bind] in Hs. destruct busy; [by apply IH'|].
  destruct (mapM (teacher_free st d s) tfs) as [tflags|] eqn:Htf; [|done].
  destruct (mapM (classroom_free st d s) cls) as [cflags|] eqn:Hcf; [|done].
  cbn [mbind option_bind] in Hs. cbv zeta in Hs.
  destruct (existsb id tflags && existsb id cflags) eqn:Hfree.
  - exfalso. apply andb_true_iff in Hfree as [Ht Hc].
    destruct (mapM_existsb _ _ _ Htf Ht) as (t & Hint & Htfree).
    destruct (mapM_existsb _ _ _ Hcf Hc) as (c & Hinc & Hcfree).
    pose proof (free_cell_placeable _ _ _ _ _ _ Htfree Hcfree Hbusy) as Hcan.
    rewrite (Hblocked s t c) in Hcan; [done|left|done..].
  - destruct (5 <=? length acc)%nat; [by injection Hs|by apply IH'].
Qed.

Lemma suggest_days_blocked ds acc acc' :
  (∀ d s t c, d ∈ ds → s ∈ slots → t ∈ tfs → c ∈ cls →
              can_place st subj t c d s = false) →
  suggest_days cls slots st subj tfs ds acc = Some acc' → acc' = acc.
Proof.
  revert acc. induction ds as [|d ds IH]; intros acc Hblocked Hs.
  { by injection Hs. }
  cbn [suggest_days] in Hs.
  destruct (suggest_slots _ _ _ _ _ _ _) as [acc1|] eqn:Hsl; [|done].
  cbn [mbind option_bind] in Hs.
  apply suggest_slots_blocked in Hsl as ->.
  - destruct (5 <=? length acc)%nat; [by injection Hs|].
    apply IH; [|done]. intros d0 s t c Hd0. apply Hblocked. by right.
  - intros s t c. apply Hblocked. left.
Qed.

Lemma reasons_at_msgs d s rs :
  reasons_at cls st subj tfs d s = Some rs →
  Forall (λ r, r ∈ reason_msgs d s) rs ∧
  ((∀ t c, t ∈ tfs → c ∈ cls → can_place st subj t c d s = false) → rs ≠ []).
Proof.
  unfold reasons_at. intros Hr.
  destruct (anyM (teacher_free st d s) tfs) as [atf|] eqn:Htf; [|done].
  destruct (anyM (classroom_free st d s) cls) as [acf|] eqn:Hcf; [|done].
  destruct (grid_item (cohort_schedule st) _ _ _) as [busy|] eqn:Hbusy; [|done].
  cbn [mbind option_bind] in Hr. injection Hr as <-. split.
  - unfold reason_msgs. destruct atf, acf, busy; simpl;
      repeat constructor; set_solver.
  - intros Hblocked. destruct atf; [|done]. destruct acf; [|done].
    destruct busy; [done|]. exfalso.
    destruct (anyM_true _ _ Htf) as (t & Hint & Htfree).
    destruct (anyM_true _ _ Hcf) as (c & Hinc & Hcfree).
    pose proof (free_cell_placeable _ _ _ _ _ _ Htfree Hcfree Hbusy) as Hcan.
    by rewrite (Hblocked t c Hint Hinc) in Hcan.
Qed.
End Diagnostics.

Section Subject.
Context (lower : str → str) (cls days slots : list str) (stt : gmap str (list teacher)).

Lemma feasible_entries st subj feasible es :
  all_candidate_assignments lower cls days slots stt st subj = Some feasible →
  Forall (λ e, ∃ d s t c, (d, s, t, c) ∈ feasible ∧ e = placed_entry subj t c d s) es →
  Forall (entry_sound lower stt cls days slots subj) es.
Proof.
  intros Hf Hes. eapply Forall_impl; [exact Hes|].
  intros e (d & s & t & c & Hin & ->).
  apply (candidates_iff _ _ _ _ _ _ _ _ _ _ _ _ Hf)
    in Hin as (Hd & Hs & Ht & Hc & Hcan).
  apply can_place_true in Hcan as (_ & _ & _ & Hav).
  by exists d, s, t, c.
Qed.

(** Both passes: the entries come from candidates, their number is
    [placed] and does not exceed the demand; when the subject stays
    short, no combination at all is placeable in the state reached. *)
Lemma place_sessions_facts st subj st' placed :
  place_sessions lower cls days slots stt st subj = Some (st', placed) →
  busier st st' ∧ st_conflicts st' = st_conflicts st ∧
  (∃ es, st_timetable st' = st_timetable st ++ es ∧
     placed = Z.of_nat (length es) ∧ placed ≤ Z.max (sessions_required subj) 0 ∧
     Forall (entry_sound lower stt cls days slots subj) es) ∧
  (placed < sessions_required subj →
   ∀ d s t c, d ∈ days → s ∈ slots → t ∈ teachers_for lower stt subj → c ∈ cls →
     can_place st' subj t c d s = false).
Proof.
  unfold place_sessions. intros Hp.
  destruct (all_candidate_assignments _ _ _ _ _ _ _) as [feasible|] eqn:Hf; [|done].
  cbn [mbind option_bind] in Hp.
  destruct (pass1 _ _ _ _ _) as [p|] eqn:Hp1; [|done].
  cbn [mbind option_bind] in Hp.
  destruct (pass1_facts _ _ _ _ _ _ Hp1) as (Hb1 & Hc1 & es1 & Htt1 & Hes1).
  destruct (pass1_bookkeeping _ _ _ _ _ _ Hp1) as (es1' & Htt1' & Hn1 & _ & _ & Hle1).
  simpl in Hb1, Hc1, Htt1, Htt1', Hn1, Hle1.
  assert (es1' = es1) as -> by (rewrite Htt1 in Htt1'; by apply app_inv_head in Htt1').
  destruct (p_placed p <? sessions_required subj) eqn:Hshort.
  - destruct (pass2_facts _ _ _ _ _ _ _ Hp)
      as (Hb2 & Hc2 & (es2 & Htt2 & Hn2 & Hle2 & Hes2) & Hmax).
    split_and!.
    + by eapply busier_trans.
    + congruence.
    + exists (es1 ++ es2). split_and!.
      * by rewrite Htt2, Htt1, app_assoc.
      * rewrite length_app. lia.
      * lia.
      * eapply feasible_entries; [done|]. by apply Forall_app.
    + intros Hlt d s t c Hd Hs Ht Hc.
      destruct (can_place st' subj t c d s) eqn:Hcan; [|done].
      rewrite <- (Hmax Hlt d s t c); [done|].
      apply (candidates_iff _ _ _ _ _ _ _ _ _ _ _ _ Hf).
      split_and!; [done..|]. eapply can_place_busier; [|exact Hcan].
      by eapply busier_trans.
  - injection Hp as <- <-. apply Z.ltb_ge in Hshort.
    split_and!; [done|done| |lia].
    exists es1. split_and!; [done|lia|lia|]. by eapply feasible_entries.
Qed.

Lemma build_reasons_facts st subj tfs reasons :
  build_reasons cls days slots st subj tfs = Some reasons →
  NoDup reasons ∧
  match tfs with
  | [] => reasons = [no_teacher_msg]
  | _ =>
      Forall (λ r, ∃ d s, d ∈ days ∧ s ∈ slots ∧ r ∈ reason_msgs d s) reasons ∧
      ((∀ d s t c, d ∈ days → s ∈ slots → t ∈ tfs → c ∈ cls →
                   can_place st subj t c d s = false) →
       ∀ d s, d ∈ days → s ∈ slots → ∃ r, r ∈ reasons ∧ r ∈ reason_msgs d s)
  end.
Proof.
  unfold build_reasons. intros Hb.
  destruct tfs as [|t0 tfs0] eqn:Htfs.
  { injection Hb as <-. split; [apply NoDup_singleton|done]. }
  rewrite <- Htfs in *.
  destruct (mapM _ days) as [per_day|] eqn:Hpd; [|done].
  cbn [mbind option_bind] in Hb. injection Hb as <-.
  rewrite uniq_loop_dedup, app_nil_l, filter_all by set_solver.
  split; [apply NoDup_dedup_first|].
  assert (∀ r, r ∈ concat per_day ↔
            ∃ d s rs, d ∈ days ∧ s ∈ slots ∧
                      reasons_at cls st subj tfs d s = Some rs ∧ r ∈ rs) as Helem.
  { intros r. rewrite (mapM_concat_elem _ _ _ Hpd). split.
    - intros (d & ys & Hd & Hys & Hr).
      apply bind_Some in Hys as (per_slot & Hps & [= <-]).
      apply (mapM_concat_elem _ _ _ Hps) in Hr as (s & rs & Hs & Hrs & Hr).
      by exists d, s, rs.
    - intros (d & s & rs & Hd & Hs & Hrs & Hr).
      pose proof Hpd as Hpd'. apply mapM_Some in Hpd'.
      pose proof Hd as [i Hi]%list_elem_of_lookup_1.
      destruct (Forall2_lookup_l _ _ _ _ _ Hpd' Hi) as (ys & _ & Hys). cbv beta in Hys.
      exists d, ys. split_and!; [done..|].
      apply bind_Some in Hys as (per_slot & Hps & [= <-]).
      apply (mapM_concat_elem _ _ _ Hps). by exists s, rs. }
  subst tfs. split.
  - apply Forall_forall. intros r [d [s [rs [Hd [Hs [Hrs Hr]]]]]]%elem_of_dedup_first%Helem.
    exists d, s. split_and!; [done..|].
    apply reasons_at_msgs in Hrs as [Hmsgs _]. rewrite Forall_forall in Hmsgs. auto.
  - intros Hblocked d s Hd Hs.
    pose proof Hpd as Hpd'. apply mapM_Some in Hpd'.
    pose proof Hd as [i Hi]%list_elem_of_lookup_1.
    destruct (Forall2_lookup_l _ _ _ _ _ Hpd' Hi) as (ys & _ & Hys). cbv beta in Hys.
    apply bind_Some in Hys as (per_slot & Hps & _).
    pose proof Hps as Hps'. apply mapM_Some in Hps'.
    pose proof Hs as [j Hj]%list_elem_of_lookup_1.
    destruct (Forall2_lookup_l _ _ _ _ _ Hps' Hj) as (rs & _ & Hrs).
    destruct (reasons_at_msgs _ _ _ _ _ _ _ Hrs) as [Hmsgs Hne].
    destruct rs as [|r rs]; [exfalso; apply Hne; [|done]; intros t c; by apply Hblocked|].
    exists r. split.
    + apply elem_of_dedup_first, Helem. exists d, s, (r :: rs). split_and!; [done..|left].
    + by inversion Hmsgs.
Qed.

Lemma schedule_subject_facts st subj st' :
  schedule_subject lower cls days slots stt st subj = Some st' →
  busier st st' ∧
  ∃ b, st_timetable st' = st_timetable st ++ b.1 ∧
       st_conflicts st' = st_conflicts st ++ b.2 ∧
       block_sound lower stt cls days slots subj b.
Proof.
  unfold schedule_subject. intros Hs.
  destruct (place_sessions _ _ _ _ _ _ _) as [[st1 placed]|] eqn:Hp; [|done].
  cbn [mbind option_bind] in Hs. cbv zeta in Hs.
  destruct (place_sessions_facts _ _ _ _ Hp)
    as (Hb & Hc & (es & Htt & -> & Hle & Hes) & Hmax).
  destruct (_ <? _) eqn:Hshort.
  - apply Z.ltb_lt in Hshort.
    destruct (build_reasons _ _ _ _ _ _) as [reasons|] eqn:Hr; [|done].
    destruct (suggest_days _ _ _ _ _ _ _) as [suggestions|] eqn:Hsg; [|done].
    cbn [mbind option_bind] in Hs. injection Hs as <-. simpl.
    split; [done|]. eexists (es, [_]). simpl. split_and!; [done|by rewrite Hc| ].
    split_and!; simpl; [done|done|]. rewrite decide_True by done.
    eexists. split; [done|].
    apply suggest_days_blocked in Hsg as ->.
    2:{ intros d s t c. by apply Hmax. }
    destruct (build_reasons_facts _ _ _ _ Hr) as [Hnd Hreasons].
    exists reasons. split_and!; [done|done|].
    destruct (teachers_for lower stt subj) as [|t0 tfs0]; [done|].
    destruct Hreasons as [Hall Hcover]. split; [done|]. apply Hcover.
    intros d s t c. by apply Hmax.
  - apply Z.ltb_ge in Hshort. injection Hs as <-.
    split; [done|]. exists (es, []). simpl. split_and!; [done|by rewrite Hc, app_nil_r|].
    split_and!; simpl; [done|done|]. by rewrite decide_False by lia.
Qed.

Lemma schedule_all_facts st subjs st' :
  schedule_all lower cls days slots stt st subjs = Some st' →
  ∃ blocks, st_timetable st' = st_timetable st ++ concat (fst <$> blocks) ∧
    st_conflicts st' = st_conflicts st ++ concat (snd <$> blocks) ∧
    Forall2 (block_sound lower stt cls days slots) subjs blocks.
Proof.
  revert st. induction subjs as [|subj subjs IH]; intros st Hs.
  { injection Hs as <-. exists []. simpl. by rewrite !app_nil_r. }
  cbn [schedule_all] in Hs.
  destruct (schedule_subject _ _ _ _ _ _ _) as [st1|] eqn:H1; [|done].
  cbn [mbind option_bind] in Hs.
  destruct (schedule_subject_facts _ _ _ H1) as (_ & b & Htt1 & Hc1 & Hb).
  destruct (IH _ Hs) as (blocks & Htt & Hc & Hblocks).
  exists (b :: blocks). simpl. split_and!.
  - by rewrite Htt, Htt1, app_assoc.
  - by rewrite Hc, Hc1, app_assoc.
  - by constructor.
Qed.
End Subject.

(** A run of [generate], block by block. *)
Lemma generate_facts (lower : str → str) (self : TimetableGenerator) :
  ∃ self' blocks occ,
    generate lower self = Some self' ∧
    timetable self' = concat (fst <$> blocks) ∧
    conflicts self' = concat (snd <$> blocks) ++ validation_conflicts occ (subjects self) ∧
    count_occurrences (timetable self') ∅ = Some occ ∧
    Forall2 (block_sound lower (build_subject_to_teachers lower (teachers self))
               (classrooms self) (days self) (time_slots self))
            (subjects self) blocks.
Proof.
  destruct (generate_spec lower self) as (blocks0 & occ0 & Hgen & _ & _ & _ & _ & Hscan).
  pose proof Hgen as Hgen'. unfold generate in Hgen'.
  destruct (schedule_all _ _ _ _ _ _ _) as [st|] eqn:Hall; [|done].
  cbn [mbind option_bind] in Hgen'. unfold detect_conflicts in Hgen'. simpl in Hgen'.
  destruct (scan_conflicts (st_timetable st)) as [found|] eqn:Hfound; [|done].
  cbn [mbind option_bind] in Hgen'. simpl in Hgen'.
  destruct (count_occurrences (st_timetable st) ∅) as [occ|] eqn:Hocc; [|done].
  cbn [mbind option_bind] in Hgen'. simpl in Hgen'.
  injection Hgen' as Htt Hcs.
  rewrite Htt, Hscan in Hfound. injection Hfound as <-.
  destruct (schedule_all_facts _ _ _ _ _ _ _ _ Hall) as (blocks & Htt' & Hcs' & Hblocks).
  simpl in Htt', Hcs'.
  eexists _, blocks, occ. split; [exact Hgen|]. simpl.
  split_and!; [congruence| |congruence|done].
  rewrite <- Hcs, Hcs', app_nil_r. done.
Qed.

(** * Spreading over days *)

Lemma size_list_to_set_le (l : list str) : (size (list_to_set (C:=gset str) l) ≤ length l)%nat.
Proof.
  induction l as [|x l IH]; [rewrite list_to_set_nil, size_empty; simpl; lia|].
  rewrite list_to_set_cons. cbn [length].
  destruct (decide (x ∈ (list_to_set l : gset str))) as [Hin|Hin].
  - replace ({[x]} ∪ list_to_set l) with (list_to_set (C:=gset str) l) by set_solver. lia.
  - rewrite size_union by set_solver. rewrite size_singleton. lia.
Qed.

Lemma NoDup_size_list_to_set (l : list str) :
  size (list_to_set (C:=gset str) l) = length l → NoDup l.
Proof.
  induction l as [|x l IH]; [constructor|].
  rewrite list_to_set_cons. cbn [length]. intros Hsize.
  pose proof (size_list_to_set_le l) as Hle.
  destruct (decide (x ∈ (list_to_set l : gset str))) as [Hin|Hin].
  - replace ({[x]} ∪ list_to_set l) with (list_to_set (C:=gset str) l) in Hsize by set_solver.
    lia.
  - rewrite size_union, size_singleton in Hsize by set_solver.
    apply NoDup_cons. split; [by rewrite elem_of_list_to_set in Hin|]. apply IH. lia.
Qed.

(** Pass 1 when the distinct feasible days cover the demand: every
    candidate on a day not yet used is still placeable, so the pass ends
    with the demand met, one session per used day. *)
Lemma pass1_spread (subj : subject) (req : Z) (fd : gset str)
    (rest : list (str * str * teacher * str)) (p p' : pass_state) :
  req ≤ Z.of_nat (size fd) →
  pass1 subj req fd rest p = Some p' →
  (∀ d s t c, (d, s, t, c) ∈ rest → d ∉ p_used_days p →
              can_place (p_state p) subj t c d s = true) →
  (∀ d s, (d, s) ∈ p_used_positions p → d ∈ p_used_days p) →
  Z.of_nat (size (p_used_days p)) = p_placed p →
  fd ⊆ p_used_days p ∪ list_to_set ((λ x, x.1.1.1) <$> rest) →
  req ≤ p_placed p' ∧ Z.of_nat (size (p_used_days p')) = p_placed p'.
Proof.
  intros Hreq. revert p. induction rest as [|[[[d s] t] c] rest IH];
    intros p Hp Ja Jd Jb Jc.
  { injection Hp as <-. split; [|done]. simpl in Jc.
    assert (size fd ≤ size (p_used_days p))%nat by (apply subseteq_size; set_solver). lia. }
  cbn [pass1] in Hp. destruct (req <=? p_placed p) eqn:Hbreak.
  { injection Hp as <-. apply Z.leb_le in Hbreak. done. }
  unfold pass1_skips in Hp. apply Z.leb_le in Hreq as Hreq'. rewrite Hreq' in Hp.
  rewrite andb_true_l in Hp.
  destruct (bool_decide ((d, s) ∈ p_used_positions p) || bool_decide (d ∈ p_used_days p))
    eqn:Hskip.
  - assert (d ∈ p_used_days p) as Hd.
    { apply orb_true_iff in Hskip as [Hpos%bool_decide_eq_true|Hd%bool_decide_eq_true];
        [by eapply Jd|done]. }
    apply (IH p); [done| |done|done|].
    + intros d0 s0 t0 c0 Hin. apply Ja. by right.
    + rewrite fmap_cons, list_to_set_cons in Jc. simpl in Jc. set_solver.
  - apply orb_false_iff in Hskip as [_ Hd%bool_decide_eq_false].
    rewrite (Ja d s t c) in Hp by (done || left).
    destruct (place_entry _ _ _ _ _ _) as [st1|] eqn:Hpl; [|done].
    cbn [mbind option_bind] in Hp.
    destruct (place_entry_Some _ _ _ _ _ _ _ Hpl) as (_ & _ & _ & _ & Hlocal).
    apply IH in Hp; [done|simpl..].
    + intros d0 s0 t0 c0 Hin Hd0. rewrite Hlocal by set_solver.
      apply Ja; [by right|set_solver].
    + intros d0 s0 [[= -> ->]%elem_of_singleton|Hpos]%elem_of_union; [set_solver|].
      apply elem_of_union_r. by eapply Jd.
    + rewrite size_union, size_singleton by set_solver. lia.
    + rewrite fmap_cons, list_to_set_cons in Jc. simpl in Jc. set_solver.
Qed.

Lemma placed_days (subj : subject) (feasible : list (str * str * teacher * str))
    (es : list entry) :
  Forall (λ e, ∃ d s t c, (d, s, t, c) ∈ feasible ∧ e = placed_entry subj t c d s) es →
  e_day <$> es = Val <$> omap entry_day es.
Proof.
  induction 1 as [|e es (d & s & t & c & _ & ->) _ IH]; [done|].
  simpl. f_equal. exact IH.
Qed.

Section Spread.
Context (lower : str → str) (tchs : list teacher) (subjs : list subject).
Context (cls days slots : list str) (stt : gmap str (list teacher)).
Hypothesis stt_sound : ∀ k ts t, stt !! k = Some ts → t ∈ ts → t ∈ tchs.

(** When a subject has at least as many distinct feasible days as
    required sessions, all its sessions are placed, on pairwise distinct
    days, and no shortfall is recorded. *)
Lemma schedule_subject_spread_spec (st : state) (subj : subject)
    (feasible : list (str * str * teacher * str)) :
  inv tchs subjs cls days slots st → subj ∈ subjs →
  all_candidate_assignments lower cls days slots stt st subj = Some feasible →
  0 ≤ sessions_required subj →
  sessions_required subj
    ≤ Z.of_nat (size (list_to_set (C:=gset str) ((λ x, x.1.1.1) <$> feasible))) →
  ∃ st' es,
    schedule_subject lower cls days slots stt st subj = Some st' ∧
    st_timetable st' = st_timetable st ++ es ∧
    st_conflicts st' = st_conflicts st ∧
    Z.of_nat (length es) = sessions_required subj ∧
    NoDup (e_day <$> es).
Proof.
  intros HI Hsubj Hf Hreq0 Hreq.
  destruct (schedule_subject_spec lower tchs subjs cls days slots stt stt_sound st subj
              HI Hsubj) as (st' & es0 & cs0 & Hs & _).
  exists st'. pose proof Hs as Hs'. unfold schedule_subject, place_sessions in Hs'.
  rewrite Hf in Hs'. cbn [mbind option_bind] in Hs'.
  destruct (pass1 _ _ _ _ _) as [p|] eqn:Hp1; [|done].
  cbn [mbind option_bind] in Hs'.
  destruct (pass1_spread _ _ _ _ _ _ Hreq Hp1) as [Hmet Hsize];
    cbn [p_used_days p_placed p_state p_used_positions].
  { intros d s t c Hin _.
    by apply (candidates_iff _ _ _ _ _ _ _ _ _ _ _ _ Hf) in Hin
      as (_ & _ & _ & _ & ?). }
  { intros d s ?%not_elem_of_empty. done. }
  { by rewrite size_empty. }
  { set_solver. }
  destruct (pass1_bookkeeping _ _ _ _ _ _ Hp1) as (es & Htt & Hn & _ & Hud & Hle).
  destruct (pass1_facts _ _ _ _ _ _ Hp1) as (_ & Hc & es' & Htt' & Hes).
  simpl in Htt, Hn, Hud, Hle, Hc, Htt'.
  assert (es' = es) as -> by (rewrite Htt in Htt'; by apply app_inv_head in Htt').
  assert (p_placed p = sessions_required subj) as Hplaced by lia.
  rewrite Hplaced, Z.ltb_irrefl in Hs'. cbn [mbind option_bind] in Hs'.
  rewrite Z.ltb_irrefl in Hs'. injection Hs' as <-.
  exists es. split_and!; [done|done|done|lia|].
  rewrite (placed_days _ _ _ Hes). apply NoDup_fmap_2; [by intros ?? [=]|].
  apply NoDup_size_list_to_set.
  rewrite Hud, union_empty_l_L in Hsize. unfold days_of in Hsize.
  assert (length (omap entry_day es) = length es) as Hlen.
  { clear -Hes. induction Hes as [|e es (d & s & t & c & _ & ->) _ IH]; [done|].
    simpl. f_equal. exact IH. }
  lia.
Qed.

(** The search is exhaustive: when a shortfall is recorded for a subject,
    the state left admits none of its teachers in any classroom on any
    day and slot. *)
Lemma schedule_subject_exhaustive_spec (st : state) (subj : subject) :
  inv tchs subjs cls days slots st → subj ∈ subjs →
  ∃ st',
    schedule_subject lower cls days slots stt st subj = Some st' ∧
    (st_conflicts st' ≠ st_conflicts st →
     ∀ d s t c, d ∈ days → s ∈ slots → t ∈ teachers_for lower stt subj → c ∈ cls →
       can_place st' subj t c d s = false).
Proof.
  intros HI Hsubj.
  destruct (schedule_subject_spec lower tchs subjs cls days slots stt stt_sound st subj
              HI Hsubj) as (st' & es0 & cs0 & Hs & _).
  exists st'. split; [done|]. unfold schedule_subject in Hs.
  destruct (place_sessions _ _ _ _ _ _ _) as [[st1 placed]|] eqn:Hp; [|done].
  cbn [mbind option_bind] in Hs. cbv zeta in Hs.
  destruct (place_sessions_facts _ _ _ _ _ _ _ _ _ Hp) as (_ & Hc & _ & Hmax).
  destruct (_ <? _) eqn:Hshort.
  - apply Z.ltb_lt in Hshort.
    destruct (build_reasons _ _ _ _ _ _); [|done].
    destruct (suggest_days _ _ _ _ _ _ _); [|done].
    cbn [mbind option_bind] in Hs. injection Hs as <-.
    intros _ d s t c Hd Hsl Ht Hcl. by apply (Hmax Hshort d s t c).
  - injection Hs as <-. by intros [].
Qed.
End Spread.

(** * The generated timetable and conflict list *)

Lemma placed_entry_for (subj : subject) t c d s : entry_for subj (placed_entry subj t c d s).
Proof. split; [done|]. by apply cohort_of_placed. Qed.

Lemma blocks_entries_sound (lower : str → str) (tchs : list teacher)
    (cls days slots : list str) (subjs : list subject)
    (blocks : list (list entry * list conflict)) :
  Forall2 (block_sound lower (build_subject_to_teachers lower tchs) cls days slots)
          subjs blocks →
  Forall (λ e, ∃ subj t d s c,
            subj ∈ subjs ∧ t ∈ tchs ∧ teaches lower t subj ∧
            is_teacher_available t d s = true ∧
            d ∈ days ∧ s ∈ slots ∧ c ∈ cls ∧ e = placed_entry subj t c d s)
         (concat (fst <$> blocks)).
Proof.
  induction 1 as [|subj b subjs blocks (Hes & _) _ IH]; [done|].
  change (concat (fst <$> b :: blocks)) with (b.1 ++ concat (fst <$> blocks)).
  apply Forall_app. split.
  - eapply Forall_impl; [exact Hes|].
    intros e (d & s & t & c & Hd & Hs & Ht%teachers_for_iff & Hc & Hav & ->).
    destruct Ht as [Ht Hteach]. exists subj, t, d, s, c. split_and!; try done. left.
  - eapply Forall_impl; [exact IH|].
    intros e (subj' & t & d & s & c & Hin & H). exists subj', t, d, s, c.
    split; [by right|done].
Qed.

(** X1. Every generated entry was committed for a subject of the input, with
    a teacher of the input who lists that subject and is available at the
    entry's day and slot, in a classroom, on a day and at a slot of the
    input; it carries the subject's department codes. *)
Theorem generate_entries_sound (lower : str → str) (self : TimetableGenerator) :
  ∃ self', generate lower self = Some self' ∧
    Forall (λ e, ∃ subj t d s c,
              subj ∈ subjects self ∧ t ∈ teachers self ∧ teaches lower t subj ∧
              is_teacher_available t d s = true ∧
              d ∈ days self ∧ s ∈ time_slots self ∧ c ∈ classrooms self ∧
              e = placed_entry subj t c d s)
           (timetable self').
Proof.
  destruct (generate_facts lower self) as (self' & blocks & occ & Hgen & Htt & _ & _ & Hb).
  exists self'. split; [done|]. rewrite Htt. by apply blocks_entries_sound.
Qed.

(** * Quota, diagnostics and validation *)

Lemma entry_sound_for lower stt cls days slots subj e :
  entry_sound lower stt cls days slots subj e → entry_for subj e.
Proof. intros (d & s & t & c & _ & _ & _ & _ & _ & ->). apply placed_entry_for. Qed.

Lemma filter_block_other (subj subj' : subject) (es : list entry) :
  Forall (entry_for subj') es → subject_id subj' ≠ subject_id subj →
  filter (entry_for subj) es = [].
Proof.
  intros Hes Hne. apply filter_Forall_nil.
  eapply Forall_impl; [exact Hes|]. intros e He He'. apply Hne. by eapply entry_for_id.
Qed.

Lemma filter_block_own (subj : subject) (subjs : list subject)
    (blocks : list (list entry * list conflict)) (i : nat) b :
  Forall2 (λ subj b, Forall (entry_for subj) b.1) subjs blocks →
  subjs !! i = Some subj → blocks !! i = Some b →
  (∀ j subj', subjs !! j = Some subj' → j ≠ i → subject_id subj' ≠ subject_id subj) →
  filter (entry_for subj) (concat (fst <$> blocks)) = b.1.
Proof.
  intros Hblocks. revert i.
  induction Hblocks as [|subj0 b0 subjs blocks Hb0 Hblocks IH]; intros i Hi Hbi Huniq; [done|].
  change (concat (fst <$> b0 :: blocks)) with (b0.1 ++ concat (fst <$> blocks)).
  rewrite filter_app. destruct i as [|i]; simpl in Hi, Hbi.
  - injection Hi as ->. injection Hbi as ->.
    rewrite (filter_Forall_id _ _ Hb0).
    rewrite filter_Forall_nil; [by rewrite app_nil_r|].
    apply Forall_concat, Forall_fmap.
    apply Forall_forall. intros b' Hb. apply list_elem_of_lookup_1 in Hb as [j Hj].
    destruct (Forall2_lookup_r _ _ _ _ _ Hblocks Hj) as (subj' & Hj' & Hes).
    eapply Forall_impl; [exact Hes|]. intros e He He'.
    apply (Huniq (S j) subj'); [done..|]. by eapply entry_for_id.
  - rewrite (filter_block_other subj subj0), (IH i); [done..| |done|].
    + intros j subj' Hj Hne. apply (Huniq (S j)); [done|lia].
    + by apply (Huniq 0%nat).
Qed.

Lemma blocks_sound_for lower stt cls days slots subjs blocks :
  Forall2 (block_sound lower stt cls days slots) subjs blocks →
  Forall2 (λ subj b, Forall (entry_for subj) b.1) subjs blocks.
Proof.
  intros H. eapply Forall2_impl; [exact H|]. intros subj b (Hes & _). simpl.
  eapply Forall_impl; [exact Hes|]. intros e. apply entry_sound_for.
Qed.

(** X2. No subject gets more entries than it requires, and none at all when
    it requires none: with a name and semester of its own, the entries of
    the timetable carrying them are at most [sessions_required]. *)
Theorem generate_quota (lower : str → str) (self : TimetableGenerator) :
  ∃ self' (blocks : list (list entry * list conflict)),
    generate lower self = Some self' ∧
    timetable self' = concat (fst <$> blocks) ∧
    Forall2 (λ subj b,
      Forall (entry_for subj) b.1 ∧
      Z.of_nat (length b.1) ≤ Z.max (sessions_required subj) 0)
      (subjects self) blocks ∧
    (∀ i subj,
       subjects self !! i = Some subj →
       (∀ j subj', subjects self !! j = Some subj' → j ≠ i →
                   subject_id subj' ≠ subject_id subj) →
       Z.of_nat (length (filter (entry_for subj) (timetable self')))
         ≤ Z.max (sessions_required subj) 0).
Proof.
  destruct (generate_facts lower self) as (self' & blocks & occ & Hgen & Htt & _ & _ & Hb).
  exists self', blocks. split_and!; [done|done| |].
  - eapply Forall2_impl; [exact Hb|]. intros subj b (Hes & Hle & _). split; [|done].
    eapply Forall_impl; [exact Hes|]. intros e. apply entry_sound_for.
  - intros i subj Hi Huniq.
    destruct (Forall2_lookup_l _ _ _ _ _ Hb Hi) as (b & Hbi & (_ & Hle & _)).
    rewrite Htt, (filter_block_own subj (subjects self) blocks i b); [done| |done..].
    by eapply blocks_sound_for.
Qed.

Lemma blocks_no_suggestions lower stt cls days slots subjs blocks :
  Forall2 (block_sound lower stt cls days slots) subjs blocks →
  Forall (λ c, ∃ sem subs m rs, c = Shortfall sem subs m [] rs) (concat (snd <$> blocks)).
Proof.
  induction 1 as [|subj b subjs blocks (_ & _ & Hc) _ IH]; [done|].
  change (concat (snd <$> b :: blocks)) with (b.2 ++ concat (snd <$> blocks)).
  apply Forall_app. split; [|done]. case_decide; [|by rewrite Hc].
  destruct Hc as (c & -> & reasons & -> & _). constructor; [|done]. by eexists _, _, _, _.
Qed.

(** X3. The suggestions of a shortfall record are always empty: a free
    teacher, a free classroom and a free cohort at one (day, slot) would
    have been used by pass 2. *)
Theorem generate_no_suggestions (lower : str → str) (self : TimetableGenerator) :
  ∃ self', generate lower self = Some self' ∧
    Forall (λ c, match c with
                 | Shortfall _ _ _ suggestions _ => suggestions = []
                 | _ => True
                 end) (conflicts self').
Proof.
  destruct (generate_facts lower self) as (self' & blocks & occ & Hgen & _ & Hcs & _ & Hb).
  exists self'. split; [done|]. rewrite Hcs. apply Forall_app. split.
  - eapply Forall_impl; [by eapply blocks_no_suggestions|].
    by intros c (sem & subs & m & rs & ->).
  - eapply Forall_impl; [apply validation_conflicts_kind|]. by intros [].
Qed.

(** X4. A shortfall is recorded exactly for the subjects left short, with the
    sessions missing and reasons without duplicates: the single reason "No
    teacher associated with subject" when no teacher lists the subject;
    otherwise at least one reason for every (day, slot) of the input, and
    only reasons about such pairs. *)
Theorem generate_shortfall_reasons (lower : str → str) (self : TimetableGenerator) :
  ∃ self' (blocks : list (list entry * list conflict)) validations,
    generate lower self = Some self' ∧
    timetable self' = concat (fst <$> blocks) ∧
    conflicts self' = concat (snd <$> blocks) ++ validations ∧
    Forall is_validation validations ∧
    Forall2 (λ subj b,
      Forall (entry_for subj) b.1 ∧
      if decide (Z.of_nat (length b.1) < sessions_required subj) then
        ∃ reasons,
          b.2 = [Shortfall (semester_of subj) [s_name subj]
                   (sessions_required subj - Z.of_nat (length b.1)) [] reasons] ∧
          NoDup reasons ∧
          ((∀ t, t ∈ teachers self → ¬ teaches lower t subj) →
           reasons = [no_teacher_msg]) ∧
          ((∃ t, t ∈ teachers self ∧ teaches lower t subj) →
           Forall (λ r, ∃ d s, d ∈ days self ∧ s ∈ time_slots self ∧ r ∈ reason_msgs d s)
                  reasons ∧
           ∀ d s, d ∈ days self → s ∈ time_slots self →
                  ∃ r, r ∈ reasons ∧ r ∈ reason_msgs d s)
      else b.2 = [])
      (subjects self) blocks.
Proof.
  destruct (generate_facts lower self) as (self' & blocks & occ & Hgen & Htt & Hcs & _ & Hb).
  exists self', blocks, (validation_conflicts occ (subjects self)). split_and!; [done|done|done|apply validation_conflicts_kind|].
  eapply Forall2_impl; [exact Hb|]. intros subj b (Hes & _ & Hc). split.
  { eapply Forall_impl; [exact Hes|]. intros e. apply entry_sound_for. }
  case_decide; [|done]. destruct Hc as (c & -> & reasons & -> & Hnd & Hr).
  exists reasons. split_and!; [done|done| |].
  - intros Hnone.
    destruct (teachers_for _ _ subj) as [|t0 tfs0] eqn:Htf; [done|]. exfalso.
    apply (Hnone t0); apply (teachers_for_iff lower (teachers self) subj t0);
      rewrite Htf; left.
  - intros (t & Ht & Hteach).
    destruct (teachers_for _ _ subj) as [|t0 tfs0] eqn:Htf; [|done]. exfalso.
    assert (t ∈ teachers_for lower (build_subject_to_teachers lower (teachers self)) subj)
      as Hin by by apply teachers_for_iff.
    rewrite Htf in Hin. by apply elem_of_nil in Hin.
Qed.

(** X5. A subject that no teacher lists gets no entry; if it requires
    sessions, its shortfall misses all of them and gives the one reason. *)
Theorem generate_untaught (lower : str → str) (self : TimetableGenerator) :
  ∃ self' (blocks : list (list entry * list conflict)) validations,
    generate lower self = Some self' ∧
    timetable self' = concat (fst <$> blocks) ∧
    conflicts self' = concat (snd <$> blocks) ++ validations ∧
    Forall is_validation validations ∧
    Forall2 (λ subj b,
      (∀ t, t ∈ teachers self → ¬ teaches lower t subj) →
      b = ([], if decide (0 < sessions_required subj)
               then [Shortfall (semester_of subj) [s_name subj] (sessions_required subj)
                       [] [no_teacher_msg]]
               else []))
      (subjects self) blocks.
Proof.
  destruct (generate_facts lower self) as (self' & blocks & occ & Hgen & Htt & Hcs & _ & Hb).
  exists self', blocks, (validation_conflicts occ (subjects self)). split_and!; [done|done|done|apply validation_conflicts_kind|].
  eapply Forall2_impl; [exact Hb|]. intros subj [es cs] (Hes & _ & Hc) Hnone. simpl in *.
  assert (teachers_for lower (build_subject_to_teachers lower (teachers self)) subj = [])
    as Htf.
  { destruct (teachers_for _ _ subj) as [|t0 tfs0] eqn:Htf; [done|]. exfalso.
    apply (Hnone t0); apply (teachers_for_iff lower (teachers self) subj t0);
      rewrite Htf; left. }
  assert (es = []) as ->.
  { destruct es as [|e es]; [done|]. inversion_clear Hes as [|? ? He _].
    destruct He as (d & s & t & c & _ & _ & Ht & _). rewrite Htf in Ht.
    by apply elem_of_nil in Ht. }
  simpl in Hc. f_equal. destruct (decide (0 < sessions_required subj)).
  - rewrite decide_True in Hc by done.
    destruct Hc as (c & -> & reasons & -> & _ & Hr). rewrite Htf in Hr. subst.
    by rewrite Z.sub_0_r.
  - by rewrite decide_False in Hc.
Qed.

(** * The validation pass *)

Lemma count_occurrences_spec (tt : list entry) (occ occ' : gmap (pyval * pyval) Z) :
  count_occurrences tt occ = Some occ' →
  ∀ k, default 0 (occ' !! k)
       = default 0 (occ !! k) + Z.of_nat (length (filter (λ e, count_key e = k) tt)).
Proof.
  revert occ. induction tt as [|e tt IH]; intros occ Hc k.
  - injection Hc as <-. simpl. lia.
  - cbn [count_occurrences] in Hc.
    destruct (getitem (e_subject e)) as [s|] eqn:Hs; [|done]. cbn [mbind option_bind] in Hc.
    assert (s = fv (e_subject e)) as ->.
    { unfold fv. by destruct (e_subject e); simplify_eq/=. }
    rewrite (IH _ Hc k), filter_cons. fold (cohort_of e). fold (count_key e).
    destruct (decide (count_key e = k)) as [<-|Hne].
    + rewrite lookup_insert_eq, length_cons, Nat2Z.inj_succ.
      change (default 0 (Some ?x)) with x. lia.
    + by rewrite lookup_insert_ne.
Qed.

Lemma count_key_entry_for (subj : subject) (e : entry) :
  count_key e = (Some (s_name subj), semester_of subj) ↔ entry_for subj e.
Proof.
  unfold count_key, entry_for, fv. split.
  - intros [= Hs Hc]. split; [|done]. by destruct (e_subject e); simplify_eq/=.
  - intros [-> ->]. done.
Qed.

Lemma occurrences_entry_for (tt : list entry) (occ : gmap (pyval * pyval) Z) subj :
  count_occurrences tt ∅ = Some occ →
  default 0 (occ !! (Some (s_name subj), semester_of subj))
  = Z.of_nat (length (filter (entry_for subj) tt)).
Proof.
  intros Hc. rewrite (count_occurrences_spec _ _ _ Hc), lookup_empty. cbn [default].
  rewrite Z.add_0_l. do 2 f_equal. apply list_filter_iff. intros e. apply count_key_entry_for.
Qed.

Lemma validation_conflicts_of (tt : list entry) (occ : gmap (pyval * pyval) Z) subjs :
  count_occurrences tt ∅ = Some occ →
  validation_conflicts occ subjs = concat (validation_of tt <$> subjs).
Proof.
  intros Hc. unfold validation_conflicts. induction subjs as [|subj subjs IH]; [done|].
  cbn [mbind list_bind fmap list_fmap concat]. f_equal; [|exact IH].
  rewrite (occurrences_entry_for _ _ subj Hc). unfold validation_of. cbv zeta.
  destruct (Z.ltb_spec (Z.of_nat (length (filter (entry_for subj) tt)))
              (sessions_required subj)).
  - by rewrite decide_True.
  - rewrite decide_False; [done|lia].
Qed.

(** X6. Validation recounts the finished timetable: the conflicts end with,
    for each subject in input order, one validation record when the
    entries carrying the subject's name and semester are fewer than it
    requires, telling how many are missing, and nothing otherwise. *)
Theorem generate_validation_counts (lower : str → str) (self : TimetableGenerator) :
  ∃ self' placement,
    generate lower self = Some self' ∧
    Forall is_shortfall placement ∧ Forall (λ c, ¬ is_validation c) placement ∧
    conflicts self' = placement ++ concat (validation_of (timetable self') <$> subjects self).
Proof.
  destruct (generate_facts lower self) as (self' & blocks & occ & Hgen & Htt & Hcs & Hocc & Hb).
  exists self', (concat (snd <$> blocks)). split; [done|].
  assert (Forall (λ c, ∃ sem subs m rs, c = Shortfall sem subs m [] rs)
            (concat (snd <$> blocks))) as Hpl by by eapply blocks_no_suggestions.
  split_and!.
  - eapply Forall_impl; [exact Hpl|]. intros c (sem & subs & m & rs & ->). simpl. tauto.
  - eapply Forall_impl; [exact Hpl|]. intros c (sem & subs & m & rs & ->). simpl. tauto.
  - rewrite Hcs. f_equal. by apply validation_conflicts_of.
Qed.

(** X7. A shortfall is reported twice: a subject whose name and semester no
    other subject shares gets from validation exactly the records of its
    placement shortfall, with the same missing sessions and without
    suggestions or reasons. *)
Theorem generate_validation_mirrors (lower : str → str) (self : TimetableGenerator) :
  ∃ self' (blocks : list (list entry * list conflict)),
    generate lower self = Some self' ∧
    timetable self' = concat (fst <$> blocks) ∧
    conflicts self'
      = concat (snd <$> blocks) ++ concat (validation_of (timetable self') <$> subjects self) ∧
    length blocks = length (subjects self) ∧
    ∀ i subj b,
      subjects self !! i = Some subj → blocks !! i = Some b →
      (∀ j subj', subjects self !! j = Some subj' → j ≠ i →
                  subject_id subj' ≠ subject_id subj) →
      validation_of (timetable self') subj
      = (λ c, ValidationShortfall (semester_of subj) [s_name subj] (missing_sessions c))
          <$> b.2.
Proof.
  destruct (generate_facts lower self) as (self' & blocks & occ & Hgen & Htt & Hcs & Hocc & Hb).
  exists self', blocks. split_and!; [done|done| | |].
  - rewrite Hcs. f_equal. by apply validation_conflicts_of.
  - symmetry. by eapply Forall2_length.
  - intros i subj b Hi Hbi Huniq.
    destruct (Forall2_lookup_lr _ _ _ _ _ _ Hb Hi Hbi) as (_ & _ & Hc).
    unfold validation_of. cbv zeta.
    rewrite Htt, (filter_block_own subj (subjects self) blocks i b);
      [|by eapply blocks_sound_for|done..].
    case_decide.
    + by destruct Hc as (c & -> & reasons & -> & _).
    + by rewrite Hc.
Qed.

(** * The default of [sessions_per_week] *)

Lemma block_sound_shortfalls lower stt cls days slots subj (b : list entry * list conflict) :
  block_sound lower stt cls days slots subj b →
  Forall (shortfall_for subj) b.2 ∧
  (0 ≤ sessions_required subj →
   Z.of_nat (length b.1) + foldr Z.add 0 (missing_sessions <$> b.2) = sessions_required subj).
Proof.
  intros (_ & Hle & Hc). case_decide as Hlt.
  - destruct Hc as (c & -> & reasons & -> & _). split.
    + constructor; [|done]. by eexists _, _, _.
    + intros _. cbn. lia.
  - rewrite Hc. split; [done|]. intros Hreq. cbn. lia.
Qed.

(** C4, amended: a subject without [sessions_per_week] is scheduled for 2
    sessions (placed plus missing) and validated against 2; a subject
    whose [sessions_per_week] is [null] requires 0: nothing is placed and
    no shortfall is recorded for it, by placement or by validation. The
    conflicts returned are the placement shortfalls followed by what
    validation reports for each subject. *)
Theorem generate_default_sessions (lower : str → str) (self : TimetableGenerator) :
  ∃ self' (blocks : list (list entry * list conflict)),
    generate lower self = Some self' ∧
    timetable self' = concat (fst <$> blocks) ∧
    conflicts self'
      = concat (snd <$> blocks)
        ++ concat (validation_of (timetable self') <$> subjects self) ∧
    Forall is_validation (concat (validation_of (timetable self') <$> subjects self)) ∧
    Forall2 (λ subj b,
      Forall (entry_for subj) b.1 ∧ Forall (shortfall_for subj) b.2 ∧
      let count := Z.of_nat (length (filter (entry_for subj) (timetable self'))) in
      match s_sessions_per_week subj with
      | Absent =>
          sessions_required subj = 2 ∧
          Z.of_nat (length b.1) + foldr Z.add 0 (missing_sessions <$> b.2) = 2 ∧
          validation_of (timetable self') subj
          = if decide (count < 2)
            then [ValidationShortfall (semester_of subj) [s_name subj] (2 - count)]
            else []
      | Null =>
          sessions_required subj = 0 ∧ b = ([], []) ∧
          validation_of (timetable self') subj = []
      | Val n => sessions_required subj = n
      end)
      (subjects self) blocks.
Proof.
  destruct (generate_facts lower self) as (self' & blocks & occ & Hgen & Htt & Hcs & Hocc & Hb).
  exists self', blocks. split_and!; [done|done| | |].
  - rewrite Hcs. f_equal. by apply validation_conflicts_of.
  - rewrite <- (validation_conflicts_of _ occ) by done. apply validation_conflicts_kind.
  - eapply Forall2_impl; [exact Hb|]. intros subj b Hsound.
    destruct (block_sound_shortfalls _ _ _ _ _ _ _ Hsound) as (Hshort & Hsum).
    pose proof Hsound as (Hes & Hle & Hc). split_and!; [|done|].
    { eapply Forall_impl; [exact Hes|]. intros e. apply entry_sound_for. }
    cbv zeta. unfold validation_of. cbv zeta.
    unfold sessions_required in *. destruct (s_sessions_per_week subj) as [| |n].
    + split_and!; [done|apply Hsum; lia|done].
    + split_and!; [done| |by rewrite decide_False by lia].
      destruct b as [es cs]. cbn [fst snd] in *.
      rewrite decide_False in Hc by lia. subst cs. f_equal.
      destruct es; [done|]. cbn [length] in Hle. lia.
    + done.
Qed.

(** * The detector, exactly *)

Section Grouping.
Context {K A B : Type} `{EqDecision K} (key : B → K) (val : B → A).

Lemma elem_of_first_keys (l : list K) (k : K) : k ∈ first_keys l ↔ k ∈ l.
Proof.
  induction l as [|a l IH]; simpl; [done|].
  rewrite !elem_of_cons, list_elem_of_filter, IH.
  destruct (decide (k = a)); naive_solver.
Qed.

Lemma NoDup_first_keys (l : list K) : NoDup (first_keys l).
Proof.
  induction l as [|a l IH]; simpl; [constructor|].
  apply NoDup_cons. split; [|by apply NoDup_filter].
  rewrite list_elem_of_filter. naive_solver.
Qed.

Lemma first_keys_snoc (l : list K) (k : K) :
  first_keys (l ++ [k]) = first_keys l ++ (if decide (k ∈ l) then [] else [k]).
Proof.
  induction l as [|a l IH]; simpl.
  - done.
  - rewrite IH, filter_app. f_equal. f_equal.
    destruct (decide (k = a)) as [->|Hne].
    + rewrite (decide_True (P := a ∈ a :: l)) by left.
      by destruct (decide (a ∈ l)); [|rewrite filter_cons, decide_False by naive_solver].
    + destruct (decide (k ∈ l)) as [Hin|Hin].
      * rewrite decide_True by by right. done.
      * rewrite decide_False by (rewrite elem_of_cons; naive_solver).
        by rewrite filter_cons, decide_True.
Qed.

Lemma setdefault_append_fmap (g : K → list A) (ks : list K) (k : K) (x : A) :
  NoDup ks →
  setdefault_append k x ((λ k', (k', g k')) <$> ks)
  = ((λ k', (k', if decide (k' = k) then g k' ++ [x] else g k')) <$> ks)
      ++ (if decide (k ∈ ks) then [] else [(k, [x])]).
Proof.
  induction ks as [|a ks IH]; intros Hnd; [done|].
  rewrite !fmap_cons. cbn [setdefault_append].
  - apply NoDup_cons in Hnd as [Ha Hnd]. destruct (decide (a = k)) as [->|Hne].
    + rewrite (decide_True (P := k ∈ k :: ks)) by left. rewrite app_nil_r. f_equal.
      apply list_fmap_ext. intros i k' Hk'. rewrite decide_False; [done|].
      intros ->. apply Ha. by eapply list_elem_of_lookup_2.
    + rewrite IH by done. rewrite <- app_comm_cons. do 2 f_equal.
      destruct (decide (k ∈ ks)) as [Hin|Hin].
      * rewrite decide_True by by right. done.
      * rewrite decide_False by (rewrite elem_of_cons; naive_solver). done.
Qed.

Lemma grouped_snoc (l : list B) (x : B) :
  setdefault_append (key x) (val x) (grouped key val l) = grouped key val (l ++ [x]).
Proof.
  unfold grouped. rewrite setdefault_append_fmap by apply NoDup_first_keys.
  rewrite (fmap_app key). change (key <$> [x]) with [key x].
  rewrite first_keys_snoc, fmap_app. f_equal.
  - apply list_fmap_ext. intros i k Hk. f_equal. rewrite filter_app, fmap_app.
    rewrite filter_cons, filter_nil.
    destruct (decide (k = key x)) as [->|Hne].
    + by rewrite decide_True.
    + rewrite decide_False by done. by rewrite app_nil_r.
  - destruct (decide (key x ∈ first_keys (key <$> l))) as [Hin|Hin].
    + rewrite elem_of_first_keys in Hin. by rewrite decide_True by done.
    + rewrite elem_of_first_keys in Hin. rewrite decide_False by done. simpl.
      rewrite filter_app, filter_cons, filter_nil, decide_True by done.
      rewrite (filter_Forall_nil (λ y, key y = key x) l); [done|].
      apply Forall_forall. intros y Hy Heq. apply Hin. rewrite <- Heq.
      by apply list_elem_of_fmap_2.
Qed.

Lemma fill_grouped_from (l0 l : list B) :
  fill key val (grouped key val l0) l = grouped key val (l0 ++ l).
Proof.
  revert l0. induction l as [|x l IH]; intros l0; simpl.
  - by rewrite app_nil_r.
  - unfold fill in *. simpl. rewrite grouped_snoc, IH. by rewrite <- app_assoc.
Qed.

(** Filling an empty dictionary groups the items by key. *)
Lemma fill_grouped (l : list B) : fill key val [] l = grouped key val l.
Proof. apply (fill_grouped_from [] l). Qed.
End Grouping.

Lemma mapM_Some_fmap {X Y} (f : X → option Y) (g : X → Y) (l : list X) :
  Forall (λ x, f x = Some (g x)) l → mapM f l = Some (g <$> l).
Proof.
  induction 1 as [|x l Hx _ IH]; [done|]. cbn. rewrite Hx. cbn. by rewrite IH.
Qed.

Lemma report_grouped {K B} `{EqDecision K} (mk : K → list pyval → conflict)
    (key : B → K) (val : B → entry) (l : list B) :
  Forall (λ x, e_subject (val x) ≠ Absent) l →
  report mk (fill key val [] l)
  = Some (report_spec mk (first_keys (key <$> l))
            (λ k, (λ x, fv (e_subject (val x))) <$> filter (λ x, key x = k) l)).
Proof.
  intros Hwf. rewrite fill_grouped. unfold report, grouped, report_spec.
  set (subs := λ k, (λ x, fv (e_subject (val x))) <$> filter (λ x, key x = k) l).
  rewrite (mapM_Some_fmap _
    (λ kv : K * list entry,
       if (1 <? length kv.2)%nat then [mk kv.1 (subs kv.1)] else [])).
  - cbn [mbind option_bind]. f_equal. rewrite <- list_fmap_compose.
    induction (first_keys (key <$> l)) as [|k ks IH]; [done|].
    cbn [fmap list_fmap concat mbind list_bind]. rewrite <- IH. f_equal.
    unfold compose, subs. cbn [fst snd]. by rewrite !length_fmap.
  - apply Forall_fmap, Forall_forall. intros k _. cbn [fst snd compose].
    destruct (1 <? _)%nat; [|done].
    rewrite (mapM_Some_fmap _ (λ e, fv (e_subject e))).
    + cbn [mbind option_bind]. unfold subs. by rewrite <- list_fmap_compose.
    + apply Forall_fmap, Forall_forall. intros x [_ Hx]%list_elem_of_filter.
      rewrite Forall_forall in Hwf. cbn. by apply getitem_present, Hwf.
Qed.

Lemma at_cell_wf (cell : pyval * pyval) (tt : list entry) :
  Forall wf_entry tt → Forall wf_entry (at_cell cell tt).
Proof.
  intros Hwf. apply Forall_forall. intros e [_ He]%list_elem_of_filter.
  rewrite Forall_forall in Hwf. by apply Hwf.
Qed.

Lemma scan_group_exact (tt : list entry) (cell : pyval * pyval) :
  Forall wf_entry tt →
  scan_group (cell, at_cell cell tt) = Some (cell_conflicts tt cell).
Proof.
  intros Hwf%(at_cell_wf cell). destruct cell as [day slot]. unfold scan_group.
  rewrite group_entries_fill by done. cbn [mbind option_bind].
  rewrite !report_grouped.
  - reflexivity.
  - eapply Forall_impl; [exact Hwf|]. by intros e (_ & _ & _ & ?).
  - eapply Forall_impl; [by apply room_pairs_wf|]. by intros p (_ & _ & _ & ?).
  - eapply Forall_impl; [exact Hwf|]. by intros e (_ & _ & _ & ?).
Qed.

Lemma scan_conflicts_exact (tt : list entry) :
  Forall wf_entry tt → scan_conflicts tt = Some (collisions tt).
Proof.
  intros Hwf. unfold scan_conflicts. rewrite index_entries_fill by done.
  cbn [mbind option_bind]. rewrite fill_grouped. unfold grouped, collisions.
  rewrite (mapM_Some_fmap _ (λ g : pyval * pyval * list entry, cell_conflicts tt g.1)).
  - cbn [mbind option_bind]. f_equal. rewrite <- list_fmap_compose.
    induction (first_keys (cell_of <$> tt)) as [|k ks IH]; [done|].
    cbn [fmap list_fmap concat mbind list_bind]. by rewrite <- IH.
  - apply Forall_fmap, Forall_forall. intros cell _. cbn [compose fst snd].
    rewrite list_fmap_id. by apply scan_group_exact.
Qed.

Lemma detect_conflicts_exact (self : TimetableGenerator) :
  Forall wf_entry (timetable self) →
  detect_conflicts self
    = Some (set_results self (timetable self)
              (conflicts self ++ collisions (timetable self))).
Proof.
  intros Hwf. unfold detect_conflicts. by rewrite scan_conflicts_exact.
Qed.

Lemma elem_of_report_spec {K} (mk : K → list pyval → conflict) (keys : list K)
    (subs : K → list pyval) (c : conflict) :
  c ∈ report_spec mk keys subs ↔
  ∃ k, k ∈ keys ∧ (2 ≤ length (subs k))%nat ∧ c = mk k (subs k).
Proof.
  unfold report_spec. rewrite list_elem_of_bind. split.
  - intros (k & Hc & Hk). exists k. split; [done|].
    destruct (Nat.ltb_spec 1 (length (subs k))); [|by apply elem_of_nil in Hc].
    apply list_elem_of_singleton in Hc. split; [lia|done].
  - intros (k & Hk & Hlen & ->). exists k. split; [|done].
    destruct (Nat.ltb_spec 1 (length (subs k))); [left|lia].
Qed.

Lemma elem_of_collisions (tt : list entry) (c : conflict) :
  c ∈ collisions tt ↔ ∃ cell, cell ∈ cell_of <$> tt ∧ c ∈ cell_conflicts tt cell.
Proof.
  unfold collisions. rewrite list_elem_of_bind.
  split; intros (cell & H1 & H2); exists cell.
  - by rewrite elem_of_first_keys in H2.
  - by rewrite elem_of_first_keys.
Qed.

Lemma two_nonempty {X} (l : list X) : (2 ≤ length l)%nat → ∃ x, x ∈ l.
Proof. destruct l as [|x l]; simpl; [lia|]. exists x. left. Qed.

Lemma elem_of_at_cell (cell : pyval * pyval) (tt : list entry) (e : entry) :
  e ∈ at_cell cell tt ↔ cell_of e = cell ∧ e ∈ tt.
Proof. unfold at_cell. by rewrite list_elem_of_filter. Qed.

Lemma teacher_conflict_reported (tt : list entry) t d s subs :
  TeacherConflict t d s subs ∈ collisions tt ↔
  subs = teacher_subjects tt (d, s) t ∧ (2 ≤ length subs)%nat.
Proof.
  rewrite elem_of_collisions. unfold cell_conflicts. split.
  - intros ([d' s'] & _ & Hc). rewrite !elem_of_app, !elem_of_report_spec in Hc.
    destruct Hc as [(k & _ & Hlen & [= -> -> -> Hs])|[(k & _ & _ & [=])|(k & _ & _ & [=])]].
    by rewrite Hs.
  - intros [-> Hlen]. exists (d, s).
    pose proof Hlen as Hlen'. unfold teacher_subjects in Hlen'. rewrite length_fmap in Hlen'.
    destruct (two_nonempty _ Hlen') as (e & [Ht [Hcell He]%elem_of_at_cell]%list_elem_of_filter).
    split; [rewrite <- Hcell; by apply list_elem_of_fmap_2|].
    rewrite !elem_of_app, !elem_of_report_spec. left. exists t. split_and!; [|done..].
    rewrite elem_of_first_keys, <- Ht.
    apply (list_elem_of_fmap_2 (λ e, fv (e_teacher e))). by apply elem_of_at_cell.
Qed.

Lemma classroom_conflict_reported (tt : list entry) c d s subs :
  ClassroomConflict c d s subs ∈ collisions tt ↔
  subs = room_subjects tt (d, s) c ∧ (2 ≤ length subs)%nat.
Proof.
  rewrite elem_of_collisions. unfold cell_conflicts. split.
  - intros ([d' s'] & _ & Hc). rewrite !elem_of_app, !elem_of_report_spec in Hc.
    destruct Hc as [(k & _ & _ & [=])|[(k & _ & Hlen & [= -> -> -> Hs])|(k & _ & _ & [=])]].
    by rewrite Hs.
  - intros [-> Hlen]. exists (d, s).
    pose proof Hlen as Hlen'. unfold room_subjects in Hlen'. rewrite length_fmap in Hlen'.
    destruct (two_nonempty _ Hlen') as ([c' e] & [Hc Hin]%list_elem_of_filter).
    simpl in Hc. subst c'.
    pose proof Hin as (e' & Hp & [Hcell He]%elem_of_at_cell)%list_elem_of_bind.
    split; [rewrite <- Hcell; by apply list_elem_of_fmap_2|].
    rewrite !elem_of_app, !elem_of_report_spec. right. left. exists c. split_and!; [|done..].
    rewrite elem_of_first_keys. by apply (list_elem_of_fmap_2 fst _ (c, e)).
Qed.

Lemma student_conflict_reported (tt : list entry) sem d s subs :
  StudentConflict sem d s subs ∈ collisions tt ↔
  subs = cohort_subjects tt (d, s) sem ∧ (2 ≤ length subs)%nat.
Proof.
  rewrite elem_of_collisions. unfold cell_conflicts. split.
  - intros ([d' s'] & _ & Hc). rewrite !elem_of_app, !elem_of_report_spec in Hc.
    destruct Hc as [(k & _ & _ & [=])|[(k & _ & _ & [=])|(k & _ & Hlen & [= -> -> -> Hs])]].
    by rewrite Hs.
  - intros [-> Hlen]. exists (d, s).
    pose proof Hlen as Hlen'. unfold cohort_subjects in Hlen'. rewrite length_fmap in Hlen'.
    destruct (two_nonempty _ Hlen') as (e & [Ht [Hcell He]%elem_of_at_cell]%list_elem_of_filter).
    split; [rewrite <- Hcell; by apply list_elem_of_fmap_2|].
    rewrite !elem_of_app, !elem_of_report_spec. right. right.
    exists sem. split_and!; [|done..].
    rewrite elem_of_first_keys, <- Ht.
    apply (list_elem_of_fmap_2 cohort_of). by apply elem_of_at_cell.
Qed.

Lemma collisions_kind (tt : list entry) : Forall is_collision (collisions tt).
Proof.
  apply Forall_forall. intros c (cell & _ & Hc)%elem_of_collisions.
  unfold cell_conflicts in Hc. rewrite !elem_of_app, !elem_of_report_spec in Hc.
  by destruct Hc as [(k & _ & _ & ->)|[(k & _ & _ & ->)|(k & _ & _ & ->)]].
Qed.

Lemma NoDup_report_spec {K} (mk : K → list pyval → conflict) (keys : list K)
    (subs : K → list pyval) :
  (∀ k1 k2 s1 s2, mk k1 s1 = mk k2 s2 → k1 = k2) →
  NoDup keys → NoDup (report_spec mk keys subs).
Proof.
  intros Hinj Hnd. unfold report_spec. apply NoDup_bind; [|intros k _|done].
  - intros k1 k2 c _ _ H1 H2.
    destruct (1 <? _)%nat; [|by apply elem_of_nil in H1].
    destruct (1 <? _)%nat; [|by apply elem_of_nil in H2].
    apply list_elem_of_singleton in H1, H2. subst c. by eapply Hinj.
  - destruct (1 <? _)%nat; [apply NoDup_singleton|constructor].
Qed.

Lemma cell_conflicts_cell (tt : list entry) (cell : pyval * pyval) (c : conflict) :
  c ∈ cell_conflicts tt cell →
  ∃ subs, (∃ t, c = TeacherConflict t cell.1 cell.2 subs)
          ∨ (∃ r, c = ClassroomConflict r cell.1 cell.2 subs)
          ∨ (∃ s, c = StudentConflict s cell.1 cell.2 subs).
Proof.
  unfold cell_conflicts. rewrite !elem_of_app, !elem_of_report_spec.
  intros [(k & _ & _ & ->)|[(k & _ & _ & ->)|(k & _ & _ & ->)]]; eauto 6.
Qed.

Lemma NoDup_collisions (tt : list entry) : NoDup (collisions tt).
Proof.
  unfold collisions. apply NoDup_bind; [| |apply NoDup_first_keys].
  - intros [d1 s1] [d2 s2] c _ _ (subs1 & H1)%cell_conflicts_cell
      (subs2 & H2)%cell_conflicts_cell. simpl in *.
    destruct H1 as [[? ->]|[[? ->]|[? ->]]], H2 as [[? H2]|[[? H2]|[? H2]]];
      by simplify_eq.
  - intros cell _. unfold cell_conflicts. rewrite !NoDup_app. split_and!.
    + apply NoDup_report_spec; [by intros ???? [=]|apply NoDup_first_keys].
    + intros c (k & _ & _ & ->)%elem_of_report_spec.
      rewrite elem_of_app, !elem_of_report_spec. by intros [(? & _ & _ & [=])|(? & _ & _ & [=])].
    + apply NoDup_report_spec; [by intros ???? [=]|apply NoDup_first_keys].
    + intros c (k & _ & _ & ->)%elem_of_report_spec.
      rewrite elem_of_report_spec. by intros (? & _ & _ & [=]).
    + apply NoDup_report_spec; [by intros ???? [=]|apply NoDup_first_keys].
Qed.

Lemma NoDup_fmap_filter {X K} `{EqDecision K} (key : X → K) (l : list X) :
  NoDup (key <$> l) ↔ ∀ k, (length (filter (λ x, key x = k) l) ≤ 1)%nat.
Proof.
  induction l as [|a l IH].
  - split; [simpl; intros; lia|constructor].
  - rewrite fmap_cons, NoDup_cons, IH. split.
    + intros [Ha Hl] k. rewrite filter_cons. destruct (decide (key a = k)) as [<-|Hne].
      * rewrite (filter_Forall_nil (λ x, key x = key a) l); [simpl; lia|].
        apply Forall_forall. intros y Hy Heq. apply Ha. rewrite <- Heq.
        by apply list_elem_of_fmap_2.
      * apply Hl.
    + intros Hall. split.
      * intros (y & Heq & Hy)%list_elem_of_fmap. specialize (Hall (key a)).
        rewrite filter_cons, decide_True in Hall by done. simpl in Hall.
        assert (y ∈ filter (λ x, key x = key a) l) as Hin by by apply list_elem_of_filter.
        destruct (filter _ l); [by apply elem_of_nil in Hin|simpl in Hall; lia].
      * intros k. specialize (Hall k). rewrite filter_cons in Hall.
        destruct (decide (key a = k)); simpl in Hall; lia.
Qed.

Lemma teacher_key_filter (tt : list entry) (cell : pyval * pyval) (t : pyval) :
  filter (λ e, teacher_key e = (cell, t)) tt
  = filter (λ e, fv (e_teacher e) = t) (at_cell cell tt).
Proof.
  unfold at_cell. rewrite list_filter_filter. apply list_filter_iff.
  intros e. unfold teacher_key. naive_solver.
Qed.

Lemma cohort_key_filter (tt : list entry) (cell : pyval * pyval) (s : pyval) :
  filter (λ e, cohort_key e = (cell, s)) tt
  = filter (λ e, cohort_of e = s) (at_cell cell tt).
Proof.
  unfold at_cell. rewrite list_filter_filter. apply list_filter_iff.
  intros e. unfold cohort_key. naive_solver.
Qed.

Lemma room_keys_pairs (tt : list entry) :
  tt ≫= room_keys = (λ p : str * entry, (cell_of p.2, p.1)) <$> (tt ≫= room_pairs).
Proof.
  induction tt as [|e tt IH]; [done|]. rewrite !bind_cons, fmap_app, IH. f_equal.
  unfold room_keys, room_pairs. by rewrite <- list_fmap_compose.
Qed.

Lemma room_key_filter (tt : list entry) (cell : pyval * pyval) (c : str) :
  filter (λ p : str * entry, (cell_of p.2, p.1) = (cell, c)) (tt ≫= room_pairs)
  = filter (λ p : str * entry, p.1 = c) (at_cell cell tt ≫= room_pairs).
Proof.
  unfold at_cell. induction tt as [|e tt IH]; [done|].
  rewrite bind_cons, filter_app, IH, filter_cons. destruct (decide (cell_of e = cell)) as [He|He].
  - rewrite bind_cons, filter_app. f_equal. unfold room_pairs.
    induction (rooms_of e) as [|r rs IHr]; [done|].
    rewrite fmap_cons, !filter_cons, IHr. simpl.
    destruct (decide (r = c)) as [->|Hne].
    + by rewrite decide_True by by rewrite He.
    + by rewrite decide_False by naive_solver.
  - rewrite (filter_Forall_nil _ (room_pairs e)); [done|].
    apply Forall_forall. intros [r e'] (r' & [= -> ->] & _)%list_elem_of_fmap. simpl.
    naive_solver.
Qed.

Lemma collisions_nil (tt : list entry) : collisions tt = [] ↔ collision_free tt.
Proof.
  unfold collision_free. rewrite room_keys_pairs, !NoDup_fmap_filter. split.
  - intros Hnil. split_and!.
    + intros [cell t]. rewrite teacher_key_filter.
      destruct (decide (2 ≤ length (teacher_subjects tt cell t))%nat) as [Hlen|Hlen].
      * destruct cell as [d s].
        assert (TeacherConflict t d s (teacher_subjects tt (d, s) t) ∈ collisions tt) as Hin
          by by apply teacher_conflict_reported.
        rewrite Hnil in Hin. by apply elem_of_nil in Hin.
      * unfold teacher_subjects in Hlen. rewrite length_fmap in Hlen. lia.
    + intros [cell c]. rewrite room_key_filter.
      destruct (decide (2 ≤ length (room_subjects tt cell c))%nat) as [Hlen|Hlen].
      * destruct cell as [d s].
        assert (ClassroomConflict c d s (room_subjects tt (d, s) c) ∈ collisions tt) as Hin
          by by apply classroom_conflict_reported.
        rewrite Hnil in Hin. by apply elem_of_nil in Hin.
      * unfold room_subjects in Hlen. rewrite length_fmap in Hlen. lia.
    + intros [cell c]. rewrite cohort_key_filter.
      destruct (decide (2 ≤ length (cohort_subjects tt cell c))%nat) as [Hlen|Hlen].
      * destruct cell as [d s].
        assert (StudentConflict c d s (cohort_subjects tt (d, s) c) ∈ collisions tt) as Hin
          by by apply student_conflict_reported.
        rewrite Hnil in Hin. by apply elem_of_nil in Hin.
      * unfold cohort_subjects in Hlen. rewrite length_fmap in Hlen. lia.
  - intros (Ht & Hr & Hc). destruct (collisions tt) as [|c cs] eqn:Hcs; [done|]. exfalso.
    assert (c ∈ collisions tt) as Hin by (rewrite Hcs; left).
    pose proof (collisions_kind tt) as Hkind. rewrite Forall_forall in Hkind.
    specialize (Hkind c Hin). destruct c as [t d s subs|r d s subs|sem d s subs| |]; try done.
    + apply teacher_conflict_reported in Hin as [-> Hlen].
      unfold teacher_subjects in Hlen. rewrite length_fmap, <- teacher_key_filter in Hlen.
      specialize (Ht (d, s, t)). lia.
    + apply classroom_conflict_reported in Hin as [-> Hlen].
      unfold room_subjects in Hlen. rewrite length_fmap, <- room_key_filter in Hlen.
      specialize (Hr (d, s, r)). lia.
    + apply student_conflict_reported in Hin as [-> Hlen].
      unfold cohort_subjects in Hlen. rewrite length_fmap, <- cohort_key_filter in Hlen.
      specialize (Hc (d, s, sem)). lia.
Qed.

(** X8. On a well-formed entry list [detect_conflicts] keeps the timetable and
    appends to the conflicts exactly the list [collisions]: the entries
    grouped by (day, slot), and in each group by teacher, by classroom and
    by cohort, one record per key under which two or more entries fall. *)
Theorem detect_conflicts_groups (self : TimetableGenerator) :
  Forall wf_entry (timetable self) →
  detect_conflicts self
    = Some (set_results self (timetable self)
              (conflicts self ++ collisions (timetable self))).
Proof.
  apply detect_conflicts_exact.
Qed.

(** X9. What [detect_conflicts] adds holds no record twice and only
    collisions, and a teacher, classroom or student conflict is among
    them exactly when its subjects are those of all the entries at that
    (day, slot) with that teacher, classroom or cohort, in timetable
    order, and are at least two. *)
Theorem detect_conflicts_reports (self : TimetableGenerator) :
  Forall wf_entry (timetable self) →
  ∃ found,
    detect_conflicts self
      = Some (set_results self (timetable self) (conflicts self ++ found)) ∧
    NoDup found ∧ Forall is_collision found ∧
    (∀ t d s subs,
       TeacherConflict t d s subs ∈ found ↔
       subs = teacher_subjects (timetable self) (d, s) t ∧ (2 ≤ length subs)%nat) ∧
    (∀ c d s subs,
       ClassroomConflict c d s subs ∈ found ↔
       subs = room_subjects (timetable self) (d, s) c ∧ (2 ≤ length subs)%nat) ∧
    (∀ sem d s subs,
       StudentConflict sem d s subs ∈ found ↔
       subs = cohort_subjects (timetable self) (d, s) sem ∧ (2 ≤ length subs)%nat).
Proof.
  intros Hwf. exists (collisions (timetable self)). split_and!.
  - by apply detect_conflicts_exact.
  - apply NoDup_collisions.
  - apply collisions_kind.
  - apply teacher_conflict_reported.
  - apply classroom_conflict_reported.
  - apply student_conflict_reported.
Qed.

(** X10. The detector is complete: it adds nothing exactly when no teacher, no
    classroom and no cohort occurs twice at one (day, slot). *)
Theorem detect_conflicts_complete (self : TimetableGenerator) :
  Forall wf_entry (timetable self) →
  ∃ found,
    detect_conflicts self
      = Some (set_results self (timetable self) (conflicts self ++ found)) ∧
    (found = [] ↔ collision_free (timetable self)).
Proof.
  intros Hwf. exists (collisions (timetable self)). split.
  - by apply detect_conflicts_exact.
  - apply collisions_nil.
Qed.

(** X11. [detect_conflicts] extends [self.conflicts] without clearing it: a
    second call reports every collision a second time. *)
Theorem detect_conflicts_repeats (self : TimetableGenerator) :
  Forall wf_entry (timetable self) →
  ∃ self',
    detect_conflicts self = Some self' ∧
    detect_conflicts self'
      = Some (set_results self (timetable self)
                (conflicts self ++ collisions (timetable self)
                   ++ collisions (timetable self))).
Proof.
  intros Hwf. eexists. split.
  - by apply detect_conflicts_exact.
  - rewrite detect_conflicts_exact by done. cbn [timetable conflicts set_results].
    unfold set_results. cbn. by rewrite <- app_assoc.
Qed.

(** * The routes *)

Lemma present_not_absent (v : pyval) : present v ≠ Absent.
Proof. by destruct v. Qed.

Lemma normalize_entry_wf (e : raw_entry) : wf_entry (se_entry (Update.normalize_entry e)).
Proof. repeat split; apply present_not_absent. Qed.

Lemma normalized_wf (raw : list raw_entry) :
  Forall wf_entry (se_entry <$> (Update.normalize_entry <$> raw)).
Proof.
  apply Forall_fmap, Forall_fmap, Forall_forall. intros e _. apply normalize_entry_wf.
Qed.

Section Routes.
Context {V M : Type}.
Implicit Types (timetables : gmap str (session M)).
Implicit Types (session_memory : gmap str (gmap str (option V))).

Lemma update_timetable_known (now : V) timetables session_memory
    (data : request V) (sid : str) (stored : session M) :
  q_session_id data = Some sid →
  timetables !! sid = Some stored →
  let tt := Update.normalize_entry <$> default [] (q_timetable data) in
  let found := collisions (se_entry <$> tt) in
  ∃ session_memory',
    Update.update_timetable now timetables session_memory data
      = (Success (found, session_memory' !! sid),
         <[sid := {| sd_timetable := tt; sd_conflicts := found;
                     sd_metadata := sd_metadata stored |}]> timetables,
         session_memory').
Proof.
  intros Hsid Hstored tt found.
  unfold Update.update_timetable. rewrite Hsid. cbn [mbind option_bind].
  rewrite Hstored. cbn [fmap option_fmap option_map].
  rewrite detect_conflicts_exact by apply normalized_wf.
  cbn [conflicts set_results timetable app]. rewrite insert_insert_eq.
  by eexists.
Qed.

(** X12. Editing the timetable of a known session never fails: the entries
    are stored normalised, and the conflicts stored and returned are
    exactly the collisions of the edited timetable, so that shortfalls
    recorded by the generator are dropped. *)
Theorem update_timetable_redetects (now : V) timetables session_memory
    (data : request V) (sid : str) (stored : session M) :
  q_session_id data = Some sid →
  timetables !! sid = Some stored →
  let tt := Update.normalize_entry <$> default [] (q_timetable data) in
  let found := collisions (se_entry <$> tt) in
  ∃ session_memory',
    Update.update_timetable now timetables session_memory data
      = (Success (found, session_memory' !! sid),
         <[sid := {| sd_timetable := tt; sd_conflicts := found;
                     sd_metadata := sd_metadata stored |}]> timetables,
         session_memory') ∧
    get_conflicts
      (Update.update_timetable now timetables session_memory data).1.2 sid
      = Success found ∧
    NoDup found ∧ Forall is_collision found ∧
    (found = [] ↔ collision_free (se_entry <$> tt)).
Proof.
  intros Hsid Hstored tt found.
  destruct (update_timetable_known now timetables session_memory data sid stored
              Hsid Hstored) as (mem' & Heq).
  exists mem'. split_and!; [done| | | |].
  - rewrite Heq. unfold get_conflicts. cbn [fst snd]. by rewrite lookup_insert_eq.
  - apply NoDup_collisions.
  - apply collisions_kind.
  - apply collisions_nil.
Qed.

(** X13. No request makes the route answer with a server error, and a
    request for an unknown session changes nothing. *)
Theorem update_timetable_total (now : V) timetables session_memory
    (data : request V) :
  let out := Update.update_timetable now timetables session_memory data in
  out.1.1 ≠ ServerError ∧
  (out.1.1 = SessionNotFound ↔
   ∀ sid, q_session_id data = Some sid → timetables !! sid = None) ∧
  (out.1.1 = SessionNotFound → out.1.2 = timetables ∧ out.2 = session_memory).
Proof.
  destruct (q_session_id data) as [sid|] eqn:Hsid.
  - destruct (timetables !! sid) as [stored|] eqn:Hstored.
    + destruct (update_timetable_known now timetables session_memory data sid stored
                  Hsid Hstored) as (mem' & ->).
      cbn. split_and!; [done| |done].
      split; [done|]. intros Hnone. specialize (Hnone sid eq_refl). congruence.
    + unfold Update.update_timetable. rewrite Hsid. cbn [mbind option_bind].
      rewrite Hstored. cbn. split_and!; [done| |done].
      split; [|done]. by intros _ ? [= <-].
  - unfold Update.update_timetable. rewrite Hsid. cbn. split_and!; [done| |done].
    split; [|done]. by intros _ ? [=].
Qed.

(** X14. The stores after [update_timetable] on a known session: memory is
    merged only into a memory that exists, and an explicit null for
    ['memory_updates'] leaves even ['last_updated'] alone, while a
    missing key refreshes it. No other session is touched. *)
Theorem update_timetable_memory (now : V) timetables session_memory
    (data : request V) (sid : str) (stored : session M) :
  q_session_id data = Some sid →
  timetables !! sid = Some stored →
  let out := Update.update_timetable now timetables session_memory data in
  (∀ sid', sid' ≠ sid →
     out.1.2 !! sid' = timetables !! sid' ∧ out.2 !! sid' = session_memory !! sid') ∧
  (session_memory !! sid = None → out.2 = session_memory) ∧
  (q_memory_updates data = Null → out.2 = session_memory) ∧
  (∀ m, session_memory !! sid = Some m → q_memory_updates data = Absent →
        out.2 !! sid = Some (<[last_updated := Some now]> m)) ∧
  (∀ m d, session_memory !! sid = Some m → q_memory_updates data = Val d →
          out.2 !! sid = Some (merge_updates now d m)).
Proof.
  intros Hsid Hstored. unfold Update.update_timetable. rewrite Hsid.
  cbn [mbind option_bind]. rewrite Hstored. cbn [fmap option_fmap option_map].
  rewrite detect_conflicts_exact by apply normalized_wf. cbn [fst snd].
  split_and!.
  - intros sid' Hne. rewrite !lookup_insert_ne by done. split; [done|].
    destruct (session_memory !! sid), (q_memory_updates data);
      by rewrite ?lookup_insert_ne.
  - by intros ->.
  - intros ->. by destruct (session_memory !! sid).
  - intros m -> ->. rewrite lookup_insert_eq. f_equal. unfold merge_updates.
    by rewrite map_filter_empty, (left_id_L ∅ (∪)).
  - intros m d -> ->. by rewrite lookup_insert_eq.
Qed.
End Routes.

(** * The session memory *)

Section Memory.
Context {V : Type}.
Implicit Types (session_memory : gmap str (gmap str (option V))).
Implicit Types (data m : gmap str (option V)).

Lemma merge_updates_lookup (now : V) data m (k : str) :
  merge_updates now data m !! k
  = if decide (k = last_updated) then Some (Some now)
    else match data !! k with
         | Some (Some v) => Some (Some v)
         | _ => m !! k
         end.
Proof.
  unfold merge_updates. destruct (decide (k = last_updated)) as [->|Hne].
  - by rewrite lookup_insert_eq.
  - rewrite lookup_insert_ne by done. rewrite lookup_union, map_lookup_filter.
    destruct (data !! k) as [[v|]|] eqn:Hk; cbn.
    + rewrite option_guard_True by done. cbn. by destruct (m !! k).
    + rewrite option_guard_False by (cbn; naive_solver). cbn. by destruct (m !! k).
    + by destruct (m !! k).
Qed.

Lemma update_memory_eq (now : V) session_memory (sid : str)
    (json : option (gmap str (option V))) :
  update_memory now session_memory sid json
  = (Success (merge_updates now (default ∅ json) (default ∅ (session_memory !! sid))),
     <[sid := merge_updates now (default ∅ json) (default ∅ (session_memory !! sid))]>
       session_memory).
Proof.
  unfold update_memory. case_decide as Hin.
  - done.
  - rewrite lookup_insert_eq, insert_insert_eq.
    apply eq_None_not_Some in Hin. by rewrite Hin.
Qed.

(** X15. [update_memory] always succeeds and merges: the memory it returns is
    the one [get_memory] then finds; ['last_updated'] is the time of the
    call whatever the body says; every other key takes the body's value
    unless that is null or missing, in which case it keeps what it had,
    so that no field can be cleared; other sessions are untouched. *)
Theorem update_memory_merges (now : V) session_memory (sid : str)
    (json : option (gmap str (option V))) :
  ∃ m',
    update_memory now session_memory sid json
      = (Success m', <[sid := m']> session_memory) ∧
    get_memory (<[sid := m']> session_memory) sid = Success m' ∧
    m' !! last_updated = Some (Some now) ∧
    (∀ k, k ≠ last_updated →
       m' !! k = match default ∅ json !! k with
                 | Some (Some v) => Some (Some v)
                 | _ => default ∅ (session_memory !! sid) !! k
                 end) ∧
    (∀ sid', sid' ≠ sid →
       get_memory (<[sid := m']> session_memory) sid' = get_memory session_memory sid').
Proof.
  eexists. split_and!.
  - apply update_memory_eq.
  - unfold get_memory. by rewrite lookup_insert_eq.
  - by rewrite merge_updates_lookup, decide_True.
  - intros k Hk. by rewrite merge_updates_lookup, decide_False.
  - intros sid' Hne. unfold get_memory. by rewrite lookup_insert_ne.
Qed.

(** X16. After [clear_memory] the session is unknown to [get_memory] and to
    a second [clear_memory]; an [update_memory] then starts from nothing
    and keeps only the non-null keys of its body. A session that was
    unknown already is reported as such and nothing changes. *)
Theorem clear_memory_forgets (now : V) session_memory (sid : str)
    (json : option (gmap str (option V))) :
  let out := clear_memory session_memory sid in
  (out.1 = Success () ↔ is_Some (session_memory !! sid)) ∧
  (out.1 = SessionNotFound ↔ session_memory !! sid = None) ∧
  (out.1 = SessionNotFound → out.2 = session_memory) ∧
  get_memory out.2 sid = SessionNotFound ∧
  clear_memory out.2 sid = (SessionNotFound, out.2) ∧
  (∀ sid', sid' ≠ sid → get_memory out.2 sid' = get_memory session_memory sid') ∧
  (∀ k, k ≠ last_updated →
     ∃ m', (update_memory now out.2 sid json).1 = Success m' ∧
           m' !! k = default ∅ json !! k ≫= λ v, Some <$> v).
Proof.
  assert ((clear_memory session_memory sid).2 !! sid = None) as Hgone.
  { unfold clear_memory. case_decide as Hin; cbn [snd].
    - apply lookup_delete_eq.
    - by apply eq_None_not_Some. }
  assert (∀ sid', sid' ≠ sid →
            (clear_memory session_memory sid).2 !! sid' = session_memory !! sid') as Hother.
  { intros sid' Hne. unfold clear_memory. case_decide; cbn [snd]; [|done].
    by rewrite lookup_delete_ne. }
  cbv zeta. split_and!.
  - unfold clear_memory. case_decide as Hin; cbn [fst]; [done|]. by split.
  - unfold clear_memory. case_decide as Hin; cbn [fst].
    + split; [done|]. intros Hnone. rewrite Hnone in Hin. by destruct Hin.
    + split; [|done]. intros _. by apply eq_None_not_Some.
  - unfold clear_memory. by case_decide.
  - unfold get_memory. by rewrite Hgone.
  - unfold clear_memory at 1. rewrite decide_False; [done|].
    rewrite Hgone. by intros [? [=]].
  - intros sid' Hne. unfold get_memory. by rewrite Hother.
  - intros k Hk. rewrite update_memory_eq. eexists. split; [done|].
    rewrite merge_updates_lookup, decide_False, Hgone by done. cbn [default].
    rewrite lookup_empty. by destruct (default ∅ json !! k) as [[v|]|].
Qed.
End Memory.

Lemma normalize_placed_entry (subj : subject) (t : teacher) (classroom day slot : str) :
  Generate.normalize_entry (raw_of_entry (placed_entry subj t classroom day slot))
  = {| se_entry := placed_entry subj t classroom day slot; se_description := Null |}.
Proof.
  unfold Generate.normalize_entry, raw_of_entry, placed_entry. cbn.
  by destruct (semester_of subj).
Qed.

(** X17. The timetable that [generate_timetable] returns is the generator's:
    normalising an entry of [generate] changes nothing but to add
    ['description'] as null. *)
Theorem generate_normalized_unchanged (lower : str → str) (self : TimetableGenerator) :
  ∃ self',
    generate lower self = Some self' ∧
    Generate.normalize_entry <$> (raw_of_entry <$> timetable self')
    = (λ e, {| se_entry := e; se_description := Null |}) <$> timetable self'.
Proof.
  destruct (generate_facts lower self) as (self' & blocks & occ & Hgen & Htt & _ & _ & Hb).
  apply blocks_entries_sound in Hb as Hes. rewrite <- Htt in Hes.
  exists self'. split; [done|]. rewrite <- list_fmap_compose.
  apply list_fmap_ext. intros i e He. apply list_elem_of_lookup_2 in He.
  rewrite Forall_forall in Hes.
  destruct (Hes e He) as (subj & t & d & s & c & _ & _ & _ & _ & _ & _ & _ & ->).
  apply normalize_placed_entry.
Qed.

(** * The order of the candidates *)

Section Sorting.
Context {K A : Type} (ltb : K → K → bool).
Hypothesis ltb_asym : ∀ a b, ltb a b = true → ltb b a = false.

Local Abbreviation le := (λ a b : K * A, ltb b.1 a.1 = false).

Lemma insert_sorted_HdRel (x y : K * A) (l : list (K * A)) :
  HdRel le y l → le y x → HdRel le y (insert_sorted ltb x l).
Proof.
  intros Hl Hx. destruct l as [|z l]; simpl; [by constructor|].
  destruct (ltb z.1 x.1); constructor; [|done]. by inversion Hl.
Qed.

Lemma insert_sorted_Sorted (x : K * A) (l : list (K * A)) :
  Sorted le l → Sorted le (insert_sorted ltb x l).
Proof.
  induction 1 as [|y l Hl IH Hy]; simpl; [by repeat constructor|].
  destruct (ltb y.1 x.1) eqn:Hlt.
  - constructor; [done|]. apply insert_sorted_HdRel; [done|]. by apply ltb_asym.
  - constructor; [by constructor|]. by constructor.
Qed.

Lemma stable_sort_Sorted (l : list (K * A)) : Sorted le (stable_sort ltb l).
Proof.
  induction l as [|x l IH]; simpl; [constructor|]. by apply insert_sorted_Sorted.
Qed.

Lemma Sorted_keys (l : list (K * A)) :
  Sorted le l → Sorted (λ a b, ltb b a = false) (fst <$> l).
Proof.
  induction 1 as [|y l Hl IH Hy]; [constructor|]. rewrite fmap_cons.
  constructor; [done|]. destruct Hy; by constructor.
Qed.

Lemma stable_sort_keys (l : list (K * A)) :
  Sorted (λ a b, ltb b a = false) (fst <$> stable_sort ltb l).
Proof. apply Sorted_keys, stable_sort_Sorted. Qed.
End Sorting.

Lemma str_ltb_asym (a b : str) : str_ltb a b = true → str_ltb b a = false.
Proof.
  revert b. induction a as [|x a IH]; intros [|y b]; simpl; try done.
  destruct (N.ltb_spec x y), (N.eqb_spec x y), (N.ltb_spec y x), (N.eqb_spec y x);
    simpl; try lia; try done. apply IH.
Qed.

Lemma str_ltb_irrefl (a : str) : str_ltb a a = false.
Proof. destruct (str_ltb a a) eqn:H; [|done]. by rewrite (str_ltb_asym _ _ H) in H. Qed.

Lemma pair_ltb_asym (a b : Z * nat * nat) : pair_ltb a b = true → pair_ltb b a = false.
Proof.
  destruct a as [[a0 a1] a2], b as [[b0 b1] b2]. unfold pair_ltb.
  destruct (Z.ltb_spec a0 b0), (Z.eqb_spec a0 b0), (Z.ltb_spec b0 a0), (Z.eqb_spec b0 a0),
    (Nat.ltb_spec a1 b1), (Nat.eqb_spec a1 b1), (Nat.ltb_spec b1 a1), (Nat.eqb_spec b1 a1),
    (Nat.ltb_spec a2 b2), (Nat.ltb_spec b2 a2); simpl; try lia; done.
Qed.

Lemma pair_ltb_irrefl (a : Z * nat * nat) : pair_ltb a a = false.
Proof. destruct (pair_ltb a a) eqn:H; [|done]. by rewrite (pair_ltb_asym _ _ H) in H. Qed.

Lemma cand_key_ltb_asym (a b : Z * nat * nat * str * str) :
  cand_key_ltb a b = true → cand_key_ltb b a = false.
Proof.
  destruct a as [[[[a0 a1] a2] a3] a4], b as [[[[b0 b1] b2] b3] b4]. unfold cand_key_ltb.
  intros [Hlt|[Heq Hs]%andb_true_iff]%orb_true_iff.
  - rewrite (pair_ltb_asym _ _ Hlt). rewrite bool_decide_eq_false_2; [done|].
    intros Heq. rewrite Heq, pair_ltb_irrefl in Hlt. done.
  - apply bool_decide_eq_true in Heq. rewrite <- Heq, pair_ltb_irrefl.
    rewrite bool_decide_eq_true_2 by done. cbn [orb andb].
    apply orb_true_iff in Hs as [Hs|[Heq3 Hs]%andb_true_iff].
    + rewrite (str_ltb_asym _ _ Hs). rewrite bool_decide_eq_false_2; [done|].
      intros ->. by rewrite str_ltb_irrefl in Hs.
    + apply bool_decide_eq_true in Heq3. subst b3. rewrite str_ltb_irrefl.
      rewrite bool_decide_eq_true_2 by done. cbn [orb andb]. by apply str_ltb_asym.
Qed.

Lemma Forall2_unzip {X Y} (Q : Y → X → Prop) (l : list (X * Y)) :
  Forall (λ kc, Q kc.2 kc.1) l → Forall2 Q (snd <$> l) (fst <$> l).
Proof. induction 1; by constructor. Qed.

Section Order.
Context (lower : str → str) (cls days slots : list str) (stt : gmap str (list teacher)).

Lemma rank_slots_sorted st semester ranked :
  rank_slots_for_semester days slots st semester = Some ranked →
  ∃ keys,
    Forall2 (λ ds key, slot_key days slots st semester ds = Some key) ranked keys ∧
    Sorted (λ a b, pair_ltb b a = false) keys.
Proof.
  unfold rank_slots_for_semester. intros Hr.
  destruct (mapM _ _) as [keyed|] eqn:Hm; [|done].
  cbn [mbind option_bind] in Hr. injection Hr as <-.
  exists (fst <$> stable_sort pair_ltb keyed). split.
  - apply Forall2_unzip. rewrite stable_sort_perm.
    apply Forall_forall. intros [key [d s]] Hin.
    apply mapM_Some in Hm. apply list_elem_of_lookup_1 in Hin as [i Hi].
    destruct (Forall2_lookup_r _ _ _ _ _ Hm Hi) as ([[score d'] s'] & Hx & Hy).
    apply list_elem_of_lookup_2 in Hx.
    apply list_elem_of_bind in Hx as (d0 & Hx & _).
    apply list_elem_of_bind in Hx as (s0 & [= -> -> ->]%list_elem_of_singleton & _).
    destruct (index d0 days) eqn:Hi1; [|done]. destruct (index s0 slots) eqn:Hi2; [|done].
    cbn in Hy. injection Hy as <- <- <-. unfold slot_key. cbn [fst snd].
    by rewrite Hi1, Hi2.
  - apply stable_sort_keys, pair_ltb_asym.
Qed.

Lemma candidates_sorted st subj feasible :
  all_candidate_assignments lower cls days slots stt st subj = Some feasible →
  ∃ keys,
    Forall2 (λ cand key, candidate_key lower days slots st cand = Some key) feasible keys ∧
    Sorted (λ a b, cand_key_ltb b a = false) keys.
Proof.
  unfold all_candidate_assignments. intros Hf.
  destruct (teachers_for lower stt subj) as [|t0 tfs0] eqn:Htf.
  { injection Hf as <-. exists []. split; constructor. }
  rewrite <- Htf in *. clear Htf.
  destruct (rank_slots_for_semester _ _ _ _) as [ranked|] eqn:Hr; [|done].
  cbn [mbind option_bind] in Hf.
  destruct (mapM _ ranked) as [per_slot|] eqn:Hps; [|done].
  cbn [mbind option_bind] in Hf. injection Hf as <-.
  exists (fst <$> stable_sort cand_key_ltb (concat per_slot)). split.
  - apply Forall2_unzip. rewrite stable_sort_perm.
    apply Forall_forall. intros [key cand] Hin.
    apply (mapM_concat_elem _ _ _ Hps) in Hin as ([d' s'] & ys & Hds & Hys & Hin).
    destruct (mapM _ (teachers_for lower stt subj)) as [per_teacher|] eqn:Hpt; [|done].
    cbn in Hys. injection Hys as <-.
    apply (mapM_concat_elem _ _ _ Hpt) in Hin as (t' & ys & Ht & Hys & Hin).
    destruct (negb _); [injection Hys as <-; by apply elem_of_nil in Hin|].
    destruct (mapM _ cls) as [per_room|] eqn:Hpr; [|done].
    cbn in Hys. injection Hys as <-.
    apply (mapM_concat_elem _ _ _ Hpr) in Hin as (c' & ys & Hc & Hys & Hin).
    destruct (can_place st subj t' c' d' s') eqn:Hcan;
      [|injection Hys as <-; by apply elem_of_nil in Hin].
    destruct (teacher_load _ _ _ _) as [tl|] eqn:Htl; [|done].
    destruct (index d' days) as [i|] eqn:Hi1; [|done].
    destruct (index s' slots) as [j|] eqn:Hi2; [|done].
    cbn in Hys. injection Hys as <-.
    apply list_elem_of_singleton in Hin. injection Hin as -> ->.
    unfold candidate_key. cbn [fst snd]. by rewrite Htl, Hi1, Hi2.
  - apply stable_sort_keys, cand_key_ltb_asym.
Qed.
End Order.

(** * The search, from the inputs *)

(** X18. The teachers looked up for a subject are exactly the teachers of the
    input that list it, names compared trimmed and case-folded; a subject
    whose name trims to nothing has none. *)
Theorem teachers_for_elem (lower : str → str) (tchs : list teacher) (subj : subject)
    (t : teacher) :
  t ∈ teachers_for lower (build_subject_to_teachers lower tchs) subj ↔
  t ∈ tchs ∧ teaches lower t subj.
Proof. apply teachers_for_iff. Qed.

(** X19. The (day, slot) pairs are ranked without loss or repetition: the
    ranking is a permutation of days x slots, ascending in the key (twenty
    times the cohort's load of the day, position of the day, position of
    the slot). *)
Theorem rank_slots_for_semester_sorted (days slots : list str) (st : state)
    (semester : pyval) :
  ∃ ranked keys,
    rank_slots_for_semester days slots st semester = Some ranked ∧
    ranked ≡ₚ (d ← days; s ← slots; [(d, s)]) ∧
    Forall2 (λ ds key,
               slot_key days slots st semester ds = Some key ∧
               key.1.1 = 20 * load_of (cohort_load st) semester ds.1) ranked keys ∧
    Sorted (λ a b, pair_ltb b a = false) keys.
Proof.
  destruct (rank_slots_spec days slots st semester) as (ranked & Hr & _).
  destruct (rank_slots_sorted days slots st semester ranked Hr) as (keys & Hkeys & Hsorted).
  exists ranked, keys. split_and!; [done|by eapply rank_slots_perm| |done].
  eapply Forall2_impl; [exact Hkeys|]. intros [d s] key Hkey. split; [done|].
  unfold slot_key in Hkey. cbn [fst snd] in *.
  destruct (index d days); [|done]. destruct (index s slots); [|done].
  cbn in Hkey. injection Hkey as <-. cbn [fst]. unfold _rank_slots. lia.
Qed.

(** X20. In a state of the scheduling loop the candidates of a subject exist
    and are exactly the (day, slot, teacher, classroom) tuples over the
    input days, slots and classrooms and over the teachers that list the
    subject, which [can_place] accepts. *)
Theorem all_candidate_assignments_elem (lower : str → str) (tchs : list teacher)
    (subjs : list subject) (cls days slots : list str) (st : state) (subj : subject) :
  inv tchs subjs cls days slots st →
  ∃ feasible,
    all_candidate_assignments lower cls days slots (build_subject_to_teachers lower tchs)
      st subj = Some feasible ∧
    ∀ d s t c,
      (d, s, t, c) ∈ feasible ↔
      d ∈ days ∧ s ∈ slots ∧ (t ∈ tchs ∧ teaches lower t subj) ∧ c ∈ cls ∧
      can_place st subj t c d s = true.
Proof.
  intros HI.
  destruct (all_candidate_assignments_spec lower tchs subjs cls days slots _
              (build_subject_to_teachers_sound lower tchs) st subj HI) as (feasible & Hf & _).
  exists feasible. split; [done|]. intros d s t c.
  rewrite (candidates_iff _ _ _ _ _ _ _ _ d s t c Hf), teachers_for_iff. done.
Qed.

(** X21. The candidates come in ascending order of the key (cells the teacher
    is booked in, position of the day, position of the slot, case-folded
    teacher name, classroom). *)
Theorem all_candidate_assignments_sorted (lower : str → str) (tchs : list teacher)
    (subjs : list subject) (cls days slots : list str) (st : state) (subj : subject) :
  inv tchs subjs cls days slots st →
  ∃ feasible keys,
    all_candidate_assignments lower cls days slots (build_subject_to_teachers lower tchs)
      st subj = Some feasible ∧
    Forall2 (λ cand key, candidate_key lower days slots st cand = Some key) feasible keys ∧
    Sorted (λ a b, cand_key_ltb b a = false) keys.
Proof.
  intros HI.
  destruct (all_candidate_assignments_spec lower tchs subjs cls days slots _
              (build_subject_to_teachers_sound lower tchs) st subj HI) as (feasible & Hf & _).
  destruct (candidates_sorted _ _ _ _ _ _ _ _ Hf) as (keys & Hkeys & Hsorted).
  by exists feasible, keys.
Qed.

(** X22. When a subject has at least as many distinct feasible days as
    required sessions, all its sessions are placed, on pairwise distinct
    days, and no shortfall is recorded. *)
Theorem schedule_subject_spreads (lower : str → str) (tchs : list teacher)
    (subjs : list subject) (cls days slots : list str) (st : state) (subj : subject)
    (feasible : list (str * str * teacher * str)) :
  inv tchs subjs cls days slots st → subj ∈ subjs →
  all_candidate_assignments lower cls days slots (build_subject_to_teachers lower tchs)
    st subj = Some feasible →
  0 ≤ sessions_required subj →
  sessions_required subj
    ≤ Z.of_nat (size (list_to_set (C:=gset str) ((λ x, x.1.1.1) <$> feasible))) →
  ∃ st' es,
    schedule_subject lower cls days slots (build_subject_to_teachers lower tchs) st subj
      = Some st' ∧
    st_timetable st' = st_timetable st ++ es ∧
    st_conflicts st' = st_conflicts st ∧
    Z.of_nat (length es) = sessions_required subj ∧
    NoDup (e_day <$> es).
Proof.
  apply schedule_subject_spread_spec, build_subject_to_teachers_sound.
Qed.

(** X23. The search is exhaustive: when a shortfall is recorded for a subject,
    the state left admits none of the teachers that list it in any
    classroom on any day and slot. *)
Theorem schedule_subject_exhaustive (lower : str → str) (tchs : list teacher)
    (subjs : list subject) (cls days slots : list str) (st : state) (subj : subject) :
  inv tchs subjs cls days slots st → subj ∈ subjs →
  ∃ st',
    schedule_subject lower cls days slots (build_subject_to_teachers lower tchs) st subj
      = Some st' ∧
    (st_conflicts st' ≠ st_conflicts st →
     ∀ d s t c, d ∈ days → s ∈ slots → t ∈ tchs → teaches lower t subj → c ∈ cls →
       can_place st' subj t c d s = false).
Proof.
  intros HI Hsubj.
  destruct (schedule_subject_exhaustive_spec lower tchs subjs cls days slots _
              (build_subject_to_teachers_sound lower tchs) st subj HI Hsubj)
    as (st' & Hs & Hex).
  exists st'. split; [done|]. intros Hne d s t c Hd Hsl Ht Hteach Hc.
  apply Hex; [done..| |done]. by apply teachers_for_iff.
Qed.

(** * The tables of the exports *)

Lemma join_nil (sep : str) (l : list str) :
  Forall (λ x, x ≠ []) l → join sep l = [] ↔ l = [].
Proof.
  intros Hl. split; [|by intros ->]. destruct Hl as [|x l Hx Hl]; [done|].
  destruct l as [|y l]; simpl; [done|]. by destruct x.
Qed.

Lemma entries_at_filter (day slot : str) (tt : list stored_entry) :
  Forall wf_entry (se_entry <$> tt) →
  entries_at day slot tt
  = Some (filter (λ e, cell_of (se_entry e) = (Some day, Some slot)) tt).
Proof.
  induction tt as [|e tt IH]; intros Hwf; [done|].
  rewrite fmap_cons in Hwf. inversion_clear Hwf as [|? ? (Hd & Hs & _) Hwf'].
  cbn [entries_at]. rewrite (getitem_present _ Hd). cbn [mbind option_bind].
  rewrite (getitem_present _ Hs), (IH Hwf'). rewrite filter_cons. unfold cell_of.
  destruct (decide (fv (e_day (se_entry e)) = Some day)) as [Hday|Hday].
  - cbn [mbind option_bind]. case_bool_decide as Hslot.
    + rewrite decide_True by by rewrite Hday, Hslot. done.
    + rewrite decide_False by naive_solver. done.
  - cbn [mbind option_bind]. rewrite decide_False by naive_solver. done.
Qed.

Lemma format_block_total (e : stored_entry) :
  wf_entry (se_entry e) → ∃ txt, format_block e = Some txt ∧ txt ≠ [].
Proof.
  intros (_ & _ & Ht & Hs). unfold format_block.
  rewrite (getitem_present _ Hs), (getitem_present _ Ht). cbn [mbind option_bind].
  eexists. split; [done|].
  cbn [app join]. intros [_ Hnil]%app_nil. by apply app_nil in Hnil as [? _].
Qed.

Lemma cell_text_spec (sep : str) (tt : list stored_entry) (day slot : str) :
  Forall wf_entry (se_entry <$> tt) →
  ∃ blocks,
    mapM format_block (filter (λ e, cell_of (se_entry e) = (Some day, Some slot)) tt)
      = Some blocks ∧
    cell_text sep tt day slot = Some (join sep blocks) ∧
    (join sep blocks = [] ↔
     filter (λ e, cell_of (se_entry e) = (Some day, Some slot)) tt = []).
Proof.
  intros Hwf. unfold cell_text. rewrite entries_at_filter by done.
  cbn [mbind option_bind].
  set (es := filter _ tt).
  pose proof (mapM_spec format_block (λ e, wf_entry (se_entry e)) (λ txt, txt ≠ []) es) as Hspec.
  destruct Hspec as (blocks & Hblocks & Hne).
  { unfold es. apply Forall_forall. intros e [_ He]%list_elem_of_filter.
    rewrite Forall_fmap, Forall_forall in Hwf. by apply (Hwf e). }
  { apply format_block_total. }
  exists blocks. rewrite Hblocks. split_and!; [done|done|].
  rewrite (join_nil _ _ Hne). apply mapM_Some, Forall2_length in Hblocks.
  clearbody es. split; intros ->; [by destruct es|by destruct blocks].
Qed.

Lemma table_rows_spec (sep : str) (days slots : list str) (tt : list stored_entry) :
  Forall wf_entry (se_entry <$> tt) →
  ∃ rows,
    table_rows sep days slots tt = Some ((str_of_string "Day / Time" :: slots) :: rows) ∧
    Forall2 (λ day row,
      ∃ cells, row = day :: cells ∧
        Forall2 (λ slot cell,
          let entries := filter (λ e, cell_of (se_entry e) = (Some day, Some slot)) tt in
          ∃ blocks,
            mapM format_block entries = Some blocks ∧
            cell = join sep blocks ∧ (cell = [] ↔ entries = []))
          slots cells)
      days rows.
Proof.
  intros Hwf. unfold table_rows.
  assert (∀ day, ∃ cells,
            mapM (cell_text sep tt day) slots = Some cells ∧
            Forall2 (λ slot cell,
              let entries := filter (λ e, cell_of (se_entry e) = (Some day, Some slot)) tt in
              ∃ blocks,
                mapM format_block entries = Some blocks ∧
                cell = join sep blocks ∧ (cell = [] ↔ entries = []))
              slots cells) as Hrow.
  { intros day. induction slots as [|slot slots (cells & Hcells & IH)]; [by exists []|].
    destruct (cell_text_spec sep tt day slot Hwf) as (blocks & Hb & Hc & Hnil).
    exists (join sep blocks :: cells). split.
    - cbn. rewrite Hc. cbn. by rewrite Hcells.
    - constructor; [|done]. by exists blocks. }
  induction days as [|day days (rows & Hrows & IH)].
  - exists []. split; [done|constructor].
  - destruct (Hrow day) as (cells & Hcells & Hc).
    destruct (mapM _ days) as [rows'|] eqn:Hm; [|done].
    cbn [mbind option_bind] in Hrows. injection Hrows as <-.
    exists ((day :: cells) :: rows'). split.
    + cbn. rewrite Hcells. cbn. by rewrite Hm.
    + constructor; [by exists cells|done].
Qed.

Lemma mapM_id_None (l : list pyval) : mapM id l = None ↔ None ∈ l.
Proof.
  rewrite mapM_None, Exists_exists. split.
  - intros (x & Hx & Hnone). unfold id in Hnone. by subst.
  - intros Hin. by exists None.
Qed.

Lemma conflict_row_None (c : conflict) : conflict_row c = None ↔ None ∈ collision_subjects c.
Proof.
  destruct c as [t d s subs|r d s subs|sem d s subs| |]; simpl;
    try (split; [done|by intros ?%elem_of_nil]);
    rewrite <- mapM_id_None; by destruct (mapM id subs).
Qed.

Lemma conflict_rows_None (cs : list conflict) :
  conflict_rows cs = None ↔ Exists (λ c, None ∈ collision_subjects c) cs.
Proof.
  destruct cs as [|c cs]; [split; [done|by intros ?%Exists_nil]|].
  unfold conflict_rows. set (l := c :: cs). clearbody l. split.
  - intros Hnone. destruct (mapM conflict_row l) eqn:Hm; [done|].
    apply mapM_None in Hm. eapply Exists_impl; [exact Hm|]. intros c'. apply conflict_row_None.
  - intros Hex. assert (mapM conflict_row l = None) as ->; [|done].
    apply mapM_None. eapply Exists_impl; [exact Hex|]. intros c'. apply conflict_row_None.
Qed.

(** X24. On a stored session whose entries carry day, time_slot, teacher and
    subject, the texts of the sheet are computed without error: under the
    header row one row per stored day, holding the day and one cell per
    stored slot; the text of a cell joins the blocks of all the entries of
    that day and slot, in timetable order, and is empty exactly when there
    is none. [export_excel] then answers as the library does on these
    texts: with the workbook, or with a server error when it refuses
    them. *)
Theorem export_excel_cells {Doc : Type}
    (render : session metadata → list (list str) → option Doc)
    (timetables : gmap str (session metadata)) (sid : str) (stored : session metadata) :
  timetables !! sid = Some stored →
  Forall wf_entry (se_entry <$> sd_timetable stored) →
  ∃ rows,
    table_rows excel_sep (md_days (sd_metadata stored)) (md_time_slots (sd_metadata stored))
      (sd_timetable stored)
      = Some ((str_of_string "Day / Time" :: md_time_slots (sd_metadata stored)) :: rows) ∧
    export_excel render timetables sid
      = match render stored
                ((str_of_string "Day / Time" :: md_time_slots (sd_metadata stored)) :: rows)
        with
        | Some doc => Success doc
        | None => ServerError
        end ∧
    Forall2 (λ day row,
      ∃ cells, row = day :: cells ∧
        Forall2 (λ slot cell,
          let entries :=
            filter (λ e, cell_of (se_entry e) = (Some day, Some slot)) (sd_timetable stored) in
          ∃ blocks,
            mapM format_block entries = Some blocks ∧
            cell = join excel_sep blocks ∧ (cell = [] ↔ entries = []))
          (md_time_slots (sd_metadata stored)) cells)
      (md_days (sd_metadata stored)) rows.
Proof.
  intros Hsid Hwf. unfold export_excel. rewrite Hsid.
  destruct (table_rows_spec excel_sep (md_days (sd_metadata stored))
              (md_time_slots (sd_metadata stored)) (sd_timetable stored) Hwf)
    as (rows & -> & Hrows).
  by exists rows.
Qed.

(** X25. [export_pdf] answers with a server error, whatever the layout library
    does, whenever a stored collision lists a subject that is null, as
    [detect_conflicts] records it for an edited entry without subject:
    joining the subjects of that row raises. *)
Theorem export_pdf_null_subject {Doc : Type}
    (render : session metadata → list (list str) → option (list (list str)) → option Doc)
    (timetables : gmap str (session metadata)) (sid : str) (stored : session metadata) :
  timetables !! sid = Some stored →
  Exists (λ c, None ∈ collision_subjects c) (sd_conflicts stored) →
  export_pdf render timetables sid = ServerError.
Proof.
  intros Hsid Hex%conflict_rows_None. unfold export_pdf. rewrite Hsid, Hex.
  by destruct (table_rows _ _ _ _).
Qed.

Lemma generate_keeps_inputs (lower : str → str) (self self' : TimetableGenerator) :
  generate lower self = Some self' →
  classrooms self' = classrooms self ∧ days self' = days self ∧
  time_slots self' = time_slots self ∧ semesters self' = semesters self.
Proof.
  unfold generate. intros Hgen.
  destruct (schedule_all _ _ _ _ _ _ _) as [st|]; [|done].
  cbn [mbind option_bind] in Hgen. unfold detect_conflicts in Hgen.
  destruct (scan_conflicts _) as [found|]; [|done]. cbn [mbind option_bind] in Hgen.
  destruct (count_occurrences _ _) as [occ|]; [|done]. cbn [mbind option_bind] in Hgen.
  by injection Hgen as <-.
Qed.

Lemma blocks_shortfall_rows lower stt cls days slots subjs
    (blocks : list (list entry * list conflict)) :
  Forall2 (block_sound lower stt cls days slots) subjs blocks →
  Forall (λ c, ∃ subj m rs, subj ∈ subjs ∧
               c = Shortfall (semester_of subj) [s_name subj] m [] rs)
         (concat (snd <$> blocks)).
Proof.
  induction 1 as [|subj b subjs blocks (_ & _ & Hc) _ IH]; [done|].
  change (concat (snd <$> b :: blocks)) with (b.2 ++ concat (snd <$> blocks)).
  apply Forall_app. split.
  - case_decide; [|by rewrite Hc]. destruct Hc as (c & -> & reasons & -> & _).
    constructor; [|done]. eexists subj, _, reasons. split; [left|done].
  - eapply Forall_impl; [exact IH|]. intros c (subj' & m & rs & Hin & ->).
    exists subj', m, rs. split; [by right|done].
Qed.

Lemma validation_rows (occ : gmap (pyval * pyval) Z) (subjs : list subject) :
  Forall (λ c, ∃ subj m, subj ∈ subjs ∧
               c = ValidationShortfall (semester_of subj) [s_name subj] m)
         (validation_conflicts occ subjs).
Proof.
  unfold validation_conflicts. apply Forall_forall. intros c (subj & Hc & Hin)%list_elem_of_bind.
  cbv zeta in Hc. destruct (_ <? _); [|by apply elem_of_nil in Hc].
  apply list_elem_of_singleton in Hc. by eexists subj, _.
Qed.

Lemma stored_generated_wf (l : list entry) :
  Forall wf_entry l →
  Forall wf_entry (se_entry <$> ((λ e, {| se_entry := e; se_description := Absent |}) <$> l)).
Proof. intros Hl. by rewrite <- list_fmap_compose, list_fmap_id. Qed.

(** X26. The PDF of a generated timetable, subject names being strings: on
    the session that [generate_timetable] stores, the texts of the table
    and of the conflicts page are computed without error, and
    [export_pdf] answers as the layout library does on them (with the
    document, or with a server error when it cannot lay them out). Every
    generated entry lies in the cell of a stored day and slot, and a row
    of the conflicts page tells no more than "Student", the semester and
    the subject: day, time, teacher and classroom are dashes, the
    suggestions are blank, and neither the sessions missing nor the
    reasons are shown. *)
Theorem export_pdf_generated {Doc : Type}
    (render : session metadata → list (list str) → option (list (list str)) → option Doc)
    (lower : str → str) (self : TimetableGenerator) :
  ∃ self' rows page,
    generate lower self = Some self' ∧
    table_rows pdf_sep (days self) (time_slots self) (sd_timetable (stored_result self'))
      = Some ((str_of_string "Day / Time" :: time_slots self) :: rows) ∧
    conflict_rows (conflicts self') = Some page ∧
    (∀ (timetables : gmap str (session metadata)) (sid : str),
       timetables !! sid = Some (stored_result self') →
       export_pdf render timetables sid
       = match render (stored_result self')
                 ((str_of_string "Day / Time" :: time_slots self) :: rows) page with
         | Some doc => Success doc
         | None => ServerError
         end) ∧
    length rows = length (days self) ∧
    (∀ e, e ∈ timetable self' →
       ∃ d s, d ∈ days self ∧ s ∈ time_slots self ∧ cell_of e = (Some d, Some s)) ∧
    (conflicts self' = [] → page = None) ∧
    (conflicts self' ≠ [] →
     ∃ crows, page = Some (conflict_headers :: crows) ∧
       Forall2 (λ c row,
         ∃ subj, subj ∈ subjects self ∧
           row = [str_of_string "Student"; str_of_string "-"; str_of_string "-";
                  str_of_string "-"; str_of_string "-"; or_dash (semester_of subj);
                  s_name subj; []])
         (conflicts self') crows).
Proof.
  destruct (generate_facts lower self) as (self' & blocks & occ & Hgen & Htt & Hcs & _ & Hb).
  destruct (generate_keeps_inputs _ _ _ Hgen) as (_ & Hdays & Hslots & _).
  pose proof (blocks_entries_sound _ _ _ _ _ _ _ Hb) as Hes. rewrite <- Htt in Hes.
  assert (Forall wf_entry (timetable self')) as Hwf.
  { eapply Forall_impl; [exact Hes|].
    intros e (subj & t & d & s & c & _ & _ & _ & _ & _ & _ & _ & ->). by repeat split. }
  assert (Forall (λ c, ∃ subj, subj ∈ subjects self ∧
                   conflict_row c
                   = Some [str_of_string "Student"; str_of_string "-"; str_of_string "-";
                           str_of_string "-"; str_of_string "-"; or_dash (semester_of subj);
                           s_name subj; []]) (conflicts self')) as Hrows.
  { rewrite Hcs. apply Forall_app. split.
    - eapply Forall_impl; [by eapply blocks_shortfall_rows|].
      intros c (subj & m & rs & Hin & ->). by exists subj.
    - eapply Forall_impl; [apply validation_rows|].
      intros c (subj & m & Hin & ->). by exists subj. }
  destruct (table_rows_spec pdf_sep (days self) (time_slots self) _
              (stored_generated_wf _ Hwf)) as (rows & Htable & Hshape).
  assert (∃ crows, mapM conflict_row (conflicts self') = Some crows ∧
            Forall2 (λ c row,
              ∃ subj, subj ∈ subjects self ∧
                row = [str_of_string "Student"; str_of_string "-"; str_of_string "-";
                       str_of_string "-"; str_of_string "-"; or_dash (semester_of subj);
                       s_name subj; []]) (conflicts self') crows) as (crows & Hm & Hcrows).
  { clear -Hrows. induction Hrows as [|c cs (subj & Hin & Hc) _ (crows & Hm & IH)].
    - exists []. split; [done|constructor].
    - eexists (_ :: crows). split.
      + cbn. rewrite Hc. cbn. by rewrite Hm.
      + constructor; [by exists subj|done]. }
  assert (∃ page, conflict_rows (conflicts self') = Some page ∧
            (conflicts self' = [] → page = None) ∧
            (conflicts self' ≠ [] → page = Some (conflict_headers :: crows)))
    as (page & Hpage & Hnone & Hsome).
  { unfold conflict_rows. rewrite Hm. destruct (conflicts self') as [|c cs].
    - by exists None.
    - by eexists. }
  exists self', rows, page. split_and!; [done|done|done| | | | |].
  - intros timetables sid Hsid. unfold export_pdf. rewrite Hsid.
    cbn [sd_metadata sd_timetable sd_conflicts stored_result md_days md_time_slots] in *.
    rewrite Hdays, Hslots, Htable, Hpage. done.
  - symmetry. by eapply Forall2_length.
  - intros e He. rewrite Forall_forall in Hes.
    destruct (Hes e He) as (subj & t & d & s & c & _ & _ & _ & _ & Hd & Hs & _ & ->).
    by exists d, s.
  - done.
  - intros Hne. exists crows. split; [by apply Hsome|done].
Qed.

(** * Instances of the further properties *)

Lemma all_candidate_assignments_elem_witness :
  ∃ feasible,
    all_candidate_assignments lower_ascii (classrooms demo_pair) (days demo_pair)
      (time_slots demo_pair) (build_subject_to_teachers lower_ascii (teachers demo_pair))
      (initial_state demo_pair) demo_pair_subject = Some feasible ∧
    ∀ d s t c,
      (d, s, t, c) ∈ feasible ↔
      d ∈ days demo_pair ∧ s ∈ time_slots demo_pair ∧
      (t ∈ teachers demo_pair ∧ teaches lower_ascii t demo_pair_subject) ∧
      c ∈ classrooms demo_pair ∧
      can_place (initial_state demo_pair) demo_pair_subject t c d s = true.
Proof.
  apply (all_candidate_assignments_elem lower_ascii (teachers demo_pair)
           (subjects demo_pair)).
  apply initial_state_inv.
Defined.

Lemma all_candidate_assignments_sorted_witness :
  ∃ feasible keys,
    all_candidate_assignments lower_ascii (classrooms demo_pair) (days demo_pair)
      (time_slots demo_pair) (build_subject_to_teachers lower_ascii (teachers demo_pair))
      (initial_state demo_pair) demo_pair_subject = Some feasible ∧
    Forall2 (λ cand key,
               candidate_key lower_ascii (days demo_pair) (time_slots demo_pair)
                 (initial_state demo_pair) cand = Some key) feasible keys ∧
    Sorted (λ a b, cand_key_ltb b a = false) keys.
Proof.
  apply (all_candidate_assignments_sorted lower_ascii (teachers demo_pair)
           (subjects demo_pair)).
  apply initial_state_inv.
Defined.

Lemma schedule_subject_spreads_witness :
  sessions_required demo_pair_subject
    ≤ Z.of_nat (size (list_to_set (C:=gset str) ((λ x, x.1.1.1) <$> demo_pair_feasible))) ∧
  ∃ st' es,
    schedule_subject lower_ascii (classrooms demo_pair) (days demo_pair)
      (time_slots demo_pair) (build_subject_to_teachers lower_ascii (teachers demo_pair))
      (initial_state demo_pair) demo_pair_subject = Some st' ∧
    st_timetable st' = st_timetable (initial_state demo_pair) ++ es ∧
    st_conflicts st' = st_conflicts (initial_state demo_pair) ∧
    Z.of_nat (length es) = sessions_required demo_pair_subject ∧
    NoDup (e_day <$> es).
Proof.
  assert (sessions_required demo_pair_subject
          ≤ Z.of_nat (size (list_to_set (C:=gset str)
                              ((λ x, x.1.1.1) <$> demo_pair_feasible)))) as Hdays.
  { vm_compute. discriminate. }
  split; [exact Hdays|].
  apply (schedule_subject_spreads lower_ascii (teachers demo_pair) (subjects demo_pair)
           (classrooms demo_pair) (days demo_pair) (time_slots demo_pair)
           (initial_state demo_pair) demo_pair_subject demo_pair_feasible).
  - apply initial_state_inv.
  - left.
  - vm_compute. reflexivity.
  - vm_compute. discriminate.
  - exact Hdays.
Defined.

Lemma schedule_subject_exhaustive_witness :
  let self := demo (Val 5) in
  let subj := mk_subject "math" (Val 5) in
  ∃ st',
    schedule_subject lower_ascii (classrooms self) (days self) (time_slots self)
      (build_subject_to_teachers lower_ascii (teachers self)) (initial_state self) subj
      = Some st' ∧
    (st_conflicts st' ≠ st_conflicts (initial_state self) →
     ∀ d s t c, d ∈ days self → s ∈ time_slots self → t ∈ teachers self →
       teaches lower_ascii t subj → c ∈ classrooms self →
       can_place st' subj t c d s = false).
Proof.
  intros self subj.
  apply (schedule_subject_exhaustive lower_ascii (teachers self) (subjects self)).
  - apply initial_state_inv.
  - left.
Defined.

Lemma edited_wf : Forall wf_entry (timetable edited).
Proof. repeat constructor; done. Qed.

Lemma detect_conflicts_groups_witness :
  Forall wf_entry (timetable edited) ∧
  detect_conflicts edited
    = Some (set_results edited (timetable edited)
              (conflicts edited ++ collisions (timetable edited))).
Proof.
  split; [exact edited_wf|]. exact (detect_conflicts_groups edited edited_wf).
Defined.

Lemma detect_conflicts_reports_witness :
  Forall wf_entry (timetable edited) ∧
  ∃ found,
    detect_conflicts edited
      = Some (set_results edited (timetable edited) (conflicts edited ++ found)) ∧
    NoDup found ∧ Forall is_collision found ∧
    (∀ t d s subs,
       TeacherConflict t d s subs ∈ found ↔
       subs = teacher_subjects (timetable edited) (d, s) t ∧ (2 ≤ length subs)%nat) ∧
    (∀ c d s subs,
       ClassroomConflict c d s subs ∈ found ↔
       subs = room_subjects (timetable edited) (d, s) c ∧ (2 ≤ length subs)%nat) ∧
    (∀ sem d s subs,
       StudentConflict sem d s subs ∈ found ↔
       subs = cohort_subjects (timetable edited) (d, s) sem ∧ (2 ≤ length subs)%nat).
Proof.
  split; [exact edited_wf|]. exact (detect_conflicts_reports edited edited_wf).
Defined.

Lemma detect_conflicts_complete_witness :
  Forall wf_entry (timetable edited) ∧
  ∃ found,
    detect_conflicts edited
      = Some (set_results edited (timetable edited) (conflicts edited ++ found)) ∧
    (found = [] ↔ collision_free (timetable edited)).
Proof.
  split; [exact edited_wf|]. exact (detect_conflicts_complete edited edited_wf).
Defined.

Lemma detect_conflicts_repeats_witness :
  Forall wf_entry (timetable edited) ∧
  ∃ self',
    detect_conflicts edited = Some self' ∧
    detect_conflicts self'
      = Some (set_results edited (timetable edited)
                (conflicts edited ++ collisions (timetable edited)
                   ++ collisions (timetable edited))).
Proof.
  split; [exact edited_wf|]. exact (detect_conflicts_repeats edited edited_wf).
Defined.

Lemma update_timetable_redetects_witness :
  let sid := str_of_string "s1" in
  let tt := Update.normalize_entry <$> default [] (q_timetable demo_request) in
  let found := collisions (se_entry <$> tt) in
  demo_timetables !! sid = Some demo_session ∧
  ∃ session_memory',
    Update.update_timetable (str_of_string "now") demo_timetables demo_memory demo_request
      = (Success (found, session_memory' !! sid),
         <[sid := {| sd_timetable := tt; sd_conflicts := found;
                     sd_metadata := sd_metadata demo_session |}]> demo_timetables,
         session_memory') ∧
    get_conflicts
      (Update.update_timetable (str_of_string "now") demo_timetables demo_memory
         demo_request).1.2 sid
      = Success found ∧
    NoDup found ∧ Forall is_collision found ∧
    (found = [] ↔ collision_free (se_entry <$> tt)).
Proof.
  intros sid tt found.
  assert (demo_timetables !! sid = Some demo_session) as Hstored
    by (vm_compute; reflexivity).
  split; [exact Hstored|].
  exact (update_timetable_redetects (str_of_string "now") demo_timetables demo_memory
           demo_request sid demo_session eq_refl Hstored).
Defined.

Lemma update_timetable_memory_witness :
  let sid := str_of_string "s1" in
  let out :=
    Update.update_timetable (str_of_string "now") demo_timetables demo_memory demo_request in
  demo_timetables !! sid = Some demo_session ∧
  (∀ sid', sid' ≠ sid →
     out.1.2 !! sid' = demo_timetables !! sid' ∧ out.2 !! sid' = demo_memory !! sid') ∧
  (demo_memory !! sid = None → out.2 = demo_memory) ∧
  (q_memory_updates demo_request = Null → out.2 = demo_memory) ∧
  (∀ m, demo_memory !! sid = Some m → q_memory_updates demo_request = Absent →
        out.2 !! sid = Some (<[last_updated := Some (str_of_string "now")]> m)) ∧
  (∀ m d, demo_memory !! sid = Some m → q_memory_updates demo_request = Val d →
          out.2 !! sid = Some (merge_updates (str_of_string "now") d m)).
Proof.
  intros sid out.
  assert (demo_timetables !! sid = Some demo_session) as Hstored
    by (vm_compute; reflexivity).
  split; [exact Hstored|].
  exact (update_timetable_memory (str_of_string "now") demo_timetables demo_memory
           demo_request sid demo_session eq_refl Hstored).
Defined.

Lemma demo_edited_lookup : demo_edited !! str_of_string "s1" = Some demo_edited_session.
Proof. vm_compute. reflexivity. Qed.

Lemma demo_edited_wf : Forall wf_entry (se_entry <$> sd_timetable demo_edited_session).
Proof. vm_compute. repeat constructor; discriminate. Qed.

Lemma export_excel_cells_witness :
  let render := λ (_ : session metadata) (rows : list (list str)), Some rows in
  ∃ rows,
    table_rows excel_sep (md_days (sd_metadata demo_edited_session))
      (md_time_slots (sd_metadata demo_edited_session)) (sd_timetable demo_edited_session)
      = Some ((str_of_string "Day / Time"
               :: md_time_slots (sd_metadata demo_edited_session)) :: rows) ∧
    export_excel render demo_edited (str_of_string "s1")
      = match render demo_edited_session
                ((str_of_string "Day / Time"
                  :: md_time_slots (sd_metadata demo_edited_session)) :: rows)
        with
        | Some doc => Success doc
        | None => ServerError
        end ∧
    Forall2 (λ day row,
      ∃ cells, row = day :: cells ∧
        Forall2 (λ slot cell,
          let entries :=
            filter (λ e, cell_of (se_entry e) = (Some day, Some slot))
              (sd_timetable demo_edited_session) in
          ∃ blocks,
            mapM format_block entries = Some blocks ∧
            cell = join excel_sep blocks ∧ (cell = [] ↔ entries = []))
          (md_time_slots (sd_metadata demo_edited_session)) cells)
      (md_days (sd_metadata demo_edited_session)) rows.
Proof.
  intros render.
  exact (export_excel_cells render demo_edited (str_of_string "s1") demo_edited_session
           demo_edited_lookup demo_edited_wf).
Defined.

Lemma demo_edited_null_subject :
  Exists (λ c, None ∈ collision_subjects c) (sd_conflicts demo_edited_session).
Proof. vm_compute. apply Exists_cons_hd. right. left. Qed.

Lemma export_pdf_null_subject_witness :
  export_pdf (λ _ table_data page, Some (table_data, page)) demo_edited (str_of_string "s1")
  = ServerError.
Proof.
  exact (export_pdf_null_subject (λ _ table_data page, Some (table_data, page))
           demo_edited (str_of_string "s1") demo_edited_session
           demo_edited_lookup demo_edited_null_subject).
Defined.

(** The edit of [unnamed_request] leaves a session whose sheet is computed
    and whose PDF export fails, also with a library that accepts
    everything. *)
Example edited_exports :
  export_excel (λ _ rows, Some rows) demo_edited (str_of_string "s1")
    = Success [[str_of_string "Day / Time"; str_of_string "9"];
               [str_of_string "Mon";
                str_of_string "R1: math" ++ newline ++ str_of_string "Ann (None)"
                ++ excel_sep
                ++ str_of_string "-: None" ++ newline ++ str_of_string "Ann (None)"]]
  ∧ export_pdf (λ _ table_data page, Some (table_data, page)) demo_edited
      (str_of_string "s1") = ServerError.
Proof. split; vm_compute; reflexivity. Qed.
